(** * llm-cartographer: the bounded-memory scanning and sampling engine

    A shallow embedding of [llm_cartographer/utils.py] and the properties
    of its classifier, line counter, bounded reader, sampler, file-info
    extractor and parallel executor, followed by its logging setup and by
    the constructor of [llm_cartographer/config.py].

    Python values are embedded as follows.
    - [int] is [Z]; sizes and positions are [Z] as well.
    - [bytes] is [list byte].
    - [str] is a list of Unicode code points, [list N].
    - [pathlib.Path] is a Rocq [string]; [str(path)] is [lit path].
    - An exception is a value [exn]; a computation that may raise and may
      log is a pair of an [outcome] and the records it sent to the logger.
    - The file system is a description of what [stat], [open] and [read]
      answer for each path.

    What the source takes from its environment is a parameter of the
    function that uses it.
    - [mimetypes.guess_type] is the argument [guess_type] of the
      classifier: the MIME table belongs to the platform.
    - The order in which [as_completed] yields the futures is the argument
      [completion] of the executor.
    - [os.cpu_count()] and the presence of [tqdm] are arguments of the
      executor.
    - Whether [logging.FileHandler] can open a log file is an argument of
      the logging setup; the state of the [logging] module is threaded
      through it.
    - [Path(s)], [Path.resolve] and [Path.mkdir], with the exceptions
      the last two may raise, are arguments of the configuration's
      constructor.

    The two loops whose length depends on the file ([iter(f.read, b'')]
    and the backward reader) run on a number of rounds computed from the
    file size; [read_chunks_concat] and [read_backwards_fuel] show that
    the rounds are enough. *)

From Stdlib Require Import ZArith NArith List Bool Lia.
From Stdlib Require Import Strings.String Strings.Ascii Strings.Byte.
From Stdlib Require Import DecimalString.
From Stdlib Require Import Permutation.
Import ListNotations.

Local Open Scope Z_scope.

(* ------------------------------------------------------------------ *)
(** * Python strings and bytes *)
(* ------------------------------------------------------------------ *)

Definition str := list N.
Definition bytes := list byte.

(** [len(x)] *)
Definition len {A} (l : list A) : Z := Z.of_nat (List.length l).

(** A string literal of the source, as code points. *)
Definition lit (s : string) : str :=
  map N_of_ascii (list_ascii_of_string s).

(** ASCII text written to a file. *)
Definition encode_ascii (s : string) : bytes :=
  map byte_of_ascii (list_ascii_of_string s).

Definition LF : N := 10%N.
Definition CR : N := 13%N.

(** [l[:n]] and [l[n:]] for [n >= 0], by recursion on the list so that
    large bounds cost nothing. *)
Fixpoint ztake {A} (n : Z) (l : list A) : list A :=
  match l with
  | [] => []
  | x :: t => if n <=? 0 then [] else x :: ztake (n - 1) t
  end.

Fixpoint zdrop {A} (n : Z) (l : list A) : list A :=
  match l with
  | [] => []
  | x :: t => if n <=? 0 then l else zdrop (n - 1) t
  end.

(** Python slices with a possibly negative bound. *)
Definition slice_to {A} (n : Z) (l : list A) : list A :=
  if n <? 0 then ztake (len l + n) l else ztake n l.

Definition slice_from {A} (n : Z) (l : list A) : list A :=
  if n <? 0 then zdrop (len l + n) l else zdrop n l.

(** [needle in hay] on strings. *)
Fixpoint starts_with (p s : str) : bool :=
  match p, s with
  | [], _ => true
  | _ :: _, [] => false
  | a :: p', b :: s' => N.eqb a b && starts_with p' s'
  end.

Fixpoint contains (needle hay : str) : bool :=
  starts_with needle hay ||
  match hay with
  | [] => false
  | _ :: t => contains needle t
  end.

(** Number of positions of [hay] at which [needle] occurs. *)
Fixpoint occurrences (needle hay : str) : nat :=
  ((if starts_with needle hay then 1 else 0) +
   match hay with
   | [] => 0
   | _ :: t => occurrences needle t
   end)%nat.

(** [s.split('\n')] *)
Fixpoint split_nl (s : str) : list str :=
  match s with
  | [] => [[]]
  | c :: r =>
      if N.eqb c LF then [] :: split_nl r
      else match split_nl r with
           | [] => [[c]]
           | p :: ps => (c :: p) :: ps
           end
  end.

(** ['\n'.join(ls)] *)
Fixpoint join_nl (ls : list str) : str :=
  match ls with
  | [] => []
  | [l] => l
  | l :: rest => l ++ LF :: join_nl rest
  end.

(** [bool(s)] for a string or a list: non-empty. *)
Definition truthy {A} (l : list A) : bool :=
  match l with [] => false | _ => true end.

(** [chunk.count(b'\n')] *)
Definition is_newline_byte (b : byte) : bool := N.eqb (Byte.to_N b) LF.

Definition count_newlines (chunk : bytes) : Z :=
  len (filter is_newline_byte chunk).

(* ------------------------------------------------------------------ *)
(** * UTF-8 decoding

    The decoder reads one byte at a time.  After a lead byte it waits for
    [need] continuation bytes, the next of which must lie in [lo..hi]
    (the first continuation byte of E0, ED, F0 and F4 has a narrower
    range, which excludes overlong forms, surrogates and code points above
    U+10FFFF).  A byte that cannot continue the pending sequence ends it
    as malformed and is then read as the start of a new sequence.  The
    output marks each malformed sequence with [None]. *)
(* ------------------------------------------------------------------ *)

Inductive utf8_state :=
| Start
| Pending (need : nat) (acc lo hi : N).

Definition in_range (lo hi n : N) : bool := (N.leb lo n && N.leb n hi)%bool.

Definition utf8_start (n : N) : list (option N) * utf8_state :=
  if N.ltb n 128 then ([Some n], Start)
  else if in_range 194 223 n then ([], Pending 1 (n - 192) 128 191)
  else if N.eqb n 224 then ([], Pending 2 0 160 191)
  else if N.eqb n 237 then ([], Pending 2 13 128 159)
  else if in_range 225 239 n then ([], Pending 2 (n - 224) 128 191)
  else if N.eqb n 240 then ([], Pending 3 0 144 191)
  else if N.eqb n 244 then ([], Pending 3 4 128 143)
  else if in_range 241 243 n then ([], Pending 3 (n - 240) 128 191)
  else ([None], Start).

Definition utf8_step (st : utf8_state) (n : N)
  : list (option N) * utf8_state :=
  match st with
  | Start => utf8_start n
  | Pending need acc lo hi =>
      if in_range lo hi n then
        let acc' := (acc * 64 + (n - 128))%N in
        match need with
        | S (S m) => ([], Pending (S m) acc' 128 191)
        | _ => ([Some acc'], Start)
        end
      else
        let (out, st') := utf8_start n in (None :: out, st')
  end.

Fixpoint utf8_scan (st : utf8_state) (bs : bytes) : list (option N) :=
  match bs with
  | [] => match st with Start => [] | Pending _ _ _ _ => [None] end
  | b :: rest =>
      let (out, st') := utf8_step st (Byte.to_N b) in
      out ++ utf8_scan st' rest
  end.

Fixpoint somes {A} (l : list (option A)) : list A :=
  match l with
  | [] => []
  | Some a :: t => a :: somes t
  | None :: t => somes t
  end.

Definition is_some {A} (o : option A) : bool :=
  match o with Some _ => true | None => false end.

(** [bs.decode('utf-8', errors='ignore')] *)
Definition decode_ignore (bs : bytes) : str := somes (utf8_scan Start bs).

(** [bs.decode('utf-8')]: [None] stands for [UnicodeDecodeError]. *)
Definition decode_strict (bs : bytes) : option str :=
  let items := utf8_scan Start bs in
  if forallb is_some items then Some (somes items) else None.

(** Text-mode files use universal newlines: CR LF and a lone CR are read
    as LF. *)
Fixpoint translate_newlines (after_cr : bool) (s : str) : str :=
  match s with
  | [] => []
  | c :: r =>
      if N.eqb c CR then LF :: translate_newlines true r
      else if (N.eqb c LF && after_cr)%bool then translate_newlines false r
      else c :: translate_newlines false r
  end.

(** The characters of a file opened with
    [open(path, 'r', encoding='utf-8', errors='ignore')]. *)
Definition text_of (bs : bytes) : str :=
  translate_newlines false (decode_ignore bs).

(** The characters of a file opened with [open(path, 'r', encoding='utf-8')]. *)
Definition text_of_strict (bs : bytes) : option str :=
  option_map (translate_newlines false) (decode_strict bs).

(** [f.read(n)] on a text file positioned at its start: a negative [n]
    reads to the end. *)
Definition text_read (n : Z) (s : str) : str :=
  if n <? 0 then s else ztake n s.

(** [f.readline()]: the next line with its terminator, and the rest. *)
Fixpoint readline (s : str) : str * str :=
  match s with
  | [] => ([], [])
  | c :: r =>
      if N.eqb c LF then ([LF], r)
      else let (l, r') := readline r in (c :: l, r')
  end.

(** [for _ in range(n): line = f.readline(); if not line: break;
    first_lines.append(line)] *)
Fixpoint read_first_lines (n : nat) (stream : str) : list str :=
  match n with
  | O => []
  | S n' =>
      let (line, rest) := readline stream in
      if truthy line then line :: read_first_lines n' rest else []
  end.

(** [iter(lambda: f.read(n), b'')]: successive reads of at most [n] bytes
    until a read returns nothing.  Each chunk takes at least one byte, so
    [List.length data] rounds are enough. *)
Fixpoint read_chunks (fuel : nat) (n : Z) (data : bytes) : list bytes :=
  match fuel with
  | O => []
  | S fuel' =>
      match ztake n data with
      | [] => []
      | chunk => chunk :: read_chunks fuel' n (zdrop n data)
      end
  end.

Definition file_chunks (n : Z) (data : bytes) : list bytes :=
  read_chunks (List.length data) n data.

Definition sum_Z (l : list Z) : Z := fold_right Z.add 0 l.

Definition bytes_eqb (a b : bytes) : bool :=
  if list_eq_dec Byte.byte_eq_dec a b then true else false.

(* ------------------------------------------------------------------ *)
(** * Exceptions, logging and the file system *)
(* ------------------------------------------------------------------ *)

Inductive exn_kind :=
| FileNotFoundError
| PermissionError
| OSError
| UnicodeDecodeError
| ValueError
| ImportError.

(** An exception: its class and [str(e)]. *)
Record exn := mk_exn { exn_class : exn_kind; exn_str : str }.

(** [except OSError] also catches its subclasses. *)
Definition is_OSError (e : exn) : bool :=
  match exn_class e with
  | FileNotFoundError | PermissionError | OSError => true
  | _ => false
  end.

Definition is_UnicodeDecodeError (e : exn) : bool :=
  match exn_class e with
  | UnicodeDecodeError => true
  | _ => false
  end.

Inductive outcome (A : Type) :=
| Ok (a : A)
| Raise (e : exn).
Arguments Ok {A} a.
Arguments Raise {A} e.

Inductive log_level := DEBUG | INFO | WARNING | ERROR.

Record log_record := mk_log { level : log_level; message : str }.

(** A computation: how it ends, and what it logged on the way. *)
Definition io (A : Type) : Type := outcome A * list log_record.

Definition ret {A} (a : A) : io A := (Ok a, []).

Definition raise {A} (e : exn) : io A := (Raise e, []).

Definition bind {A B} (m : io A) (k : A -> io B) : io B :=
  match m with
  | (Ok a, l) => let (r, l') := k a in (r, l ++ l')
  | (Raise e, l) => (Raise e, l)
  end.

Notation "x <- m ;; k" := (bind m (fun x => k))
  (at level 61, m at next level, right associativity).
Notation "m ;;; k" := (bind m (fun _ => k))
  (at level 61, right associativity).

(** [try: m  except ...: h e].  The handler answers [None] for an
    exception that no clause catches; an exception raised by the handler
    itself is not caught again. *)
Definition try_except {A} (m : io A) (h : exn -> option (io A)) : io A :=
  match m with
  | (Ok a, l) => (Ok a, l)
  | (Raise e, l) =>
      match h e with
      | Some (r, l') => (r, l ++ l')
      | None => (Raise e, l)
      end
  end.

Definition log_warning (msg : str) : io unit := (Ok tt, [mk_log WARNING msg]).
Definition log_error (msg : str) : io unit := (Ok tt, [mk_log ERROR msg]).

(** What the operating system holds at a path. *)
Inductive access :=
| Readable
| NoPermission   (* [open] raises PermissionError *)
| DeviceError.   (* [open] works, every [read] raises OSError *)

Record inode := mk_inode {
  i_content : bytes;
  i_mtime : Z;
  i_access : access
}.

(** A missing file is [None]. *)
Definition filesystem := string -> option inode.

Record stat_result := mk_stat { st_size : Z; st_mtime : Z }.

(** An open file: its bytes and whether the device answers reads. *)
Record handle := mk_handle { h_data : bytes; h_ok : bool }.

Definition quoted (path : string) : str := lit "'" ++ lit path ++ lit "'".

Definition no_such_file (path : string) : exn :=
  mk_exn FileNotFoundError
         (lit "[Errno 2] No such file or directory: " ++ quoted path).

Definition permission_denied (path : string) : exn :=
  mk_exn PermissionError (lit "[Errno 13] Permission denied: " ++ quoted path).

Definition io_error : exn := mk_exn OSError (lit "[Errno 5] Input/output error").

Definition invalid_argument : exn :=
  mk_exn OSError (lit "[Errno 22] Invalid argument").

Definition unicode_decode_error : exn :=
  mk_exn UnicodeDecodeError (lit "'utf-8' codec can't decode bytes").

(** [path.stat()] *)
Definition path_stat (fs : filesystem) (path : string) : io stat_result :=
  match fs path with
  | None => raise (no_such_file path)
  | Some i => ret (mk_stat (len (i_content i)) (i_mtime i))
  end.

(** [open(path, ...)] for reading *)
Definition open_file (fs : filesystem) (path : string) : io handle :=
  match fs path with
  | None => raise (no_such_file path)
  | Some i =>
      match i_access i with
      | Readable => ret (mk_handle (i_content i) true)
      | NoPermission => raise (permission_denied path)
      | DeviceError => ret (mk_handle (i_content i) false)
      end
  end.

(** A read on [f] that would return [v]. *)
Definition reading {A} (f : handle) (v : A) : io A :=
  if h_ok f then ret v else raise io_error.

(** [f.seek(offset, os.SEEK_END)]: the new position. *)
Definition seek_end (f : handle) (offset : Z) : io Z :=
  let position := len (h_data f) + offset in
  if position <? 0 then raise invalid_argument else ret position.

(** [f.seek(position); f.read(n)] on a binary file. *)
Definition read_at (f : handle) (position n : Z) : io bytes :=
  reading f (ztake n (zdrop position (h_data f))).

(* ------------------------------------------------------------------ *)
(** * Paths *)
(* ------------------------------------------------------------------ *)

Fixpoint split_on (sep : ascii) (s : list ascii) : list (list ascii) :=
  match s with
  | [] => [[]]
  | c :: r =>
      if Ascii.eqb c sep then [] :: split_on sep r
      else match split_on sep r with
           | [] => [[c]]
           | p :: ps => (c :: p) :: ps
           end
  end.

Definition is_dot_component (c : list ascii) : bool :=
  match c with
  | [d] => Ascii.eqb d "."
  | _ => false
  end.

(** The components of a path: empty and ["."] components are dropped. *)
Definition path_parts (path : string) : list (list ascii) :=
  filter (fun c => truthy c && negb (is_dot_component c))%bool
         (split_on "/" (list_ascii_of_string path)).

(** [path.name]: the final component. *)
Definition path_name_chars (path : string) : list ascii :=
  last (path_parts path) [].

Definition path_name (path : string) : string :=
  string_of_list_ascii (path_name_chars path).

(** [name.rfind('.')] *)
Fixpoint rfind_dot (idx : nat) (name : list ascii) : option nat :=
  match name with
  | [] => None
  | c :: t =>
      match rfind_dot (S idx) t with
      | Some j => Some j
      | None => if Ascii.eqb c "." then Some idx else None
      end
  end.

(** [path.suffix]: [name[i:]] when [0 < i < len(name) - 1] for the last
    dot [i] of the name, otherwise empty. *)
Definition path_suffix_chars (path : string) : list ascii :=
  let name := path_name_chars path in
  match rfind_dot 0 name with
  | Some i =>
      if (Nat.ltb 0 i && Nat.ltb (S i) (List.length name))%bool
      then skipn i name else []
  | None => []
  end.

Definition path_suffix (path : string) : string :=
  string_of_list_ascii (path_suffix_chars path).

Definition lower_char (c : ascii) : ascii :=
  let n := nat_of_ascii c in
  if (Nat.leb 65 n && Nat.leb n 90)%bool then ascii_of_nat (n + 32) else c.

(** [s.lower()] *)
Definition lower (s : string) : string :=
  string_of_list_ascii (map lower_char (list_ascii_of_string s)).

Definition mem_string (s : string) (l : list string) : bool :=
  existsb (String.eqb s) l.

(* ------------------------------------------------------------------ *)
(** * The engine *)
(* ------------------------------------------------------------------ *)

(** f"[Error reading file: {str(e)}]" *)
Definition error_placeholder (e : exn) : str :=
  lit "[Error reading file: " ++ exn_str e ++ lit "]".

(** ** BoundedReader: [safe_read_file] *)

Definition safe_read_file (fs : filesystem) (file_path : string)
           (max_size : option Z) : io str :=
  let path := file_path in
  let whole_file : io str :=
    try_except
      (f <- open_file fs path ;;
       s <- reading f (text_of_strict (h_data f)) ;;
       match s with
       | Some content => ret content
       | None => raise unicode_decode_error
       end)
      (fun e =>
         if is_UnicodeDecodeError e then
           Some (f <- open_file fs path ;; reading f (text_of (h_data f)))
         else
           Some (log_warning (lit "Error reading file " ++ lit path ++
                              lit ": " ++ exn_str e) ;;;
                 ret (error_placeholder e)))
  in
  match max_size with
  | None => whole_file
  | Some max_size =>
      st <- path_stat fs path ;;
      if max_size <? st_size st then
        f <- open_file fs path ;;
        reading f (text_read max_size (text_of (h_data f)))
      else whole_file
  end.

(** ** LineCounter: [count_lines_in_file] *)

Definition MiB : Z := 1024 * 1024.

Definition count_lines_in_file (fs : filesystem) (file_path : string) : io Z :=
  let path := file_path in
  try_except
    (line_count <-
       (f <- open_file fs path ;;
        chunks <- reading f (file_chunks MiB (h_data f)) ;;
        ret (sum_Z (map count_newlines chunks))) ;;
     f <- open_file fs path ;;
     try_except
       (st <- path_stat fs path ;;
        if st_size st =? 0 then ret 0
        else
          position <- seek_end f (-1) ;;
          last_char <- read_at f position 1 ;;
          if negb (bytes_eqb last_char [x0a])
          then ret (line_count + 1)
          else ret line_count)
       (fun e => if is_OSError e then Some (ret line_count) else None))
    (fun e =>
       Some (log_warning (lit "Error counting lines in " ++ lit path ++
                          lit ": " ++ exn_str e) ;;;
             ret 0)).

(** ** Sampler: [memory_efficient_file_sample] *)

Definition chunk_size : Z := 4096.

(** "...\n[content truncated]\n..." *)
Definition inline_marker : str :=
  lit "..." ++ [LF] ++ lit "[content truncated]" ++ [LF] ++ lit "...".

(** '\n...\n[content truncated]\n...\n' *)
Definition truncation_marker : str := [LF] ++ inline_marker ++ [LF].

(** [deque(maxlen=n).appendleft(x)]: a full deque gives up its rightmost
    element. *)
Definition deque_appendleft (maxlen : Z) (x : str) (dq : list str)
  : list str :=
  if maxlen <=? 0 then []
  else if len dq <? maxlen then x :: dq
  else x :: removelast dq.

(** [for line in reversed(lines): if line: last_lines.appendleft(line);
    if len(last_lines) >= sample_lines: break] *)
Fixpoint push_lines (sample_lines : Z) (reversed_lines : list str)
         (last_lines : list str) : list str :=
  match reversed_lines with
  | [] => last_lines
  | line :: rest =>
      let last_lines' :=
        if truthy line then deque_appendleft sample_lines line last_lines
        else last_lines in
      if sample_lines <=? len last_lines' then last_lines'
      else push_lines sample_lines rest last_lines'
  end.

(** The backward loop.  [position] strictly decreases while the loop
    runs, so [Z.to_nat position] rounds are enough. *)
Fixpoint read_backwards (fuel : nat) (f : handle)
         (sample_lines position line_count : Z) (last_lines : list str)
  : io (list str) :=
  match fuel with
  | O => ret last_lines
  | S fuel' =>
      if ((0 <? position) && (line_count <? sample_lines))%bool then
        let read_size := Z.min chunk_size position in
        let position := position - read_size in
        raw <- read_at f position read_size ;;
        let chunk := decode_ignore raw in
        let lines := split_nl chunk in
        let line_count := line_count + (len lines - 1) in
        read_backwards fuel' f sample_lines position line_count
                       (push_lines sample_lines (rev lines) last_lines)
      else ret last_lines
  end.

(** The small-file result once [content] has been read:
    [if len(content) <= max_size: return content] and otherwise
    f"{content[:max_size//2]}...\n[content truncated]\n...{content[-max_size//2:]}",
    where [-max_size//2] is the floor of [-max_size / 2]. *)
Definition small_file_sample (content : str) (max_size : Z) : str :=
  if len content <=? max_size then content
  else slice_to (max_size / 2) content ++ inline_marker ++
       slice_from ((- max_size) / 2) content.

Definition memory_efficient_file_sample (fs : filesystem)
           (file_path : string) (sample_lines max_size : Z) : io str :=
  let path := file_path in
  try_except
    (st <- path_stat fs path ;;
     let file_size := st_size st in
     if file_size =? 0 then ret []
     else if file_size <? max_size * 2 then
       f <- open_file fs path ;;
       content <- reading f (text_read max_size (text_of (h_data f))) ;;
       ret (small_file_sample content max_size)
     else
       first_lines <-
         (f <- open_file fs path ;;
          if 0 <? sample_lines
          then reading f (read_first_lines (Z.to_nat sample_lines)
                                           (text_of (h_data f)))
          else ret []) ;;
       (if sample_lines <? 0
        then raise (mk_exn ValueError (lit "maxlen must be non-negative"))
        else ret tt) ;;;
       last_lines <-
         (f <- open_file fs path ;;
          file_size <- seek_end f 0 ;;
          read_backwards (Z.to_nat file_size) f sample_lines file_size 0 []) ;;
       let combined := List.concat first_lines in
       combined <-
         (if (truthy first_lines && truthy last_lines)%bool then
            total <- count_lines_in_file fs path ;;
            if len first_lines <? total
            then ret (combined ++ truncation_marker)
            else ret combined
          else ret combined) ;;
       ret (combined ++ join_nl last_lines))
    (fun e =>
       Some (log_warning (lit "Error getting file sample from " ++ lit path ++
                          lit ": " ++ exn_str e) ;;;
             ret (error_placeholder e))).

(** ** ParallelExecutor: [parallel_process]

    [process_func] either returns or raises.  The order in which
    [as_completed] hands back the futures is the scheduler's choice: it is
    the list [completion] of indices into the submitted futures. *)

Section ParallelExecutor.
Context {T R : Type}.

(** [os.cpu_count()] and whether [tqdm] can be imported. *)
Variable cpu_count : option Z.
Variable tqdm_installed : bool.

(** [min(32, (os.cpu_count() or 4) + 4)] *)
Definition default_workers : Z :=
  Z.min 32 (match cpu_count with
            | Some n => if n =? 0 then 4 else n
            | None => 4
            end + 4).

(** The message of the handler in either loop. *)
Definition failure_message (show_progress : bool) (e : exn) : str :=
  lit (if show_progress then "Error processing item: "
       else "Error in parallel processing: ") ++ exn_str e.

(** [for future in as_completed(...)]: [results] and the progress count
    after the futures of [completion] have been visited.  With progress
    tracking the count advances in the [finally] clause, for a result
    and for a failure alike. *)
Fixpoint collect (show_progress : bool) (futures : list (outcome R))
         (completion : list nat) (results : list R) (completed : Z)
  : io (list R * Z) :=
  match completion with
  | [] => ret (results, completed)
  | i :: rest =>
      let completed' := if show_progress then completed + 1 else completed in
      match nth_error futures i with
      | None => collect show_progress futures rest results completed
      | Some (Ok result) =>
          collect show_progress futures rest (results ++ [result]) completed'
      | Some (Raise e) =>
          log_error (failure_message show_progress e) ;;;
          collect show_progress futures rest results completed'
      end
  end.

Definition parallel_process (items : list T) (process_func : T -> outcome R)
           (max_workers : option Z) (show_progress : bool)
           (completion : list nat) : io (list R) :=
  let items_list := items in
  let max_workers :=
    match max_workers with
    | Some n => n
    | None => default_workers
    end in
  (if (show_progress && negb tqdm_installed)%bool
   then raise (mk_exn ImportError (lit "No module named 'tqdm'"))
   else ret tt) ;;;
  (if max_workers <=? 0
   then raise (mk_exn ValueError (lit "max_workers must be greater than 0"))
   else ret tt) ;;;
  let futures := map process_func items_list in
  out <- collect show_progress futures completion [] 0 ;;
  ret (fst out).
End ParallelExecutor.

(** ** Classifier and FileInfoExtractor *)

Definition text_mime_types : list string :=
  [ "application/json"; "application/xml"; "application/javascript";
    "application/x-python"; "application/x-ruby"; "application/x-sh" ]%string.

Definition text_extensions : list string :=
  [ ".txt"; ".md"; ".py"; ".js"; ".ts"; ".html"; ".css"; ".json"; ".xml";
    ".yml"; ".yaml"; ".ini"; ".conf"; ".cfg"; ".sh"; ".bash"; ".c"; ".cpp";
    ".h"; ".hpp"; ".java"; ".rb"; ".pl"; ".php"; ".rs"; ".go"; ".swift";
    ".kt"; ".kts"; ".dart"; ".lua"; ".ex"; ".exs"; ".clj"; ".scala";
    ".sql" ]%string.

Definition has_null_byte (content : bytes) : bool :=
  existsb (fun b => N.eqb (Byte.to_N b) 0) content.

(** The dictionary built by [get_file_info]. *)
Inductive file_info :=
| FileRecord (path name extension : str) (size_bytes : Z) (is_text : bool)
             (last_modified : Z) (line_count : option Z)
| ErrorRecord (path error : str).

Section Classifier.
(** [mimetypes.guess_type(name)[0]]: the MIME table of the platform. *)
Variable guess_type : string -> option string.

Definition mime_is_text (mime_type : string) : bool :=
  (String.prefix "text/" mime_type || mem_string mime_type text_mime_types)%bool.

(** The content sniffing of the last resort. *)
Definition sniff_content (fs : filesystem) (path : string) : io bool :=
  try_except
    (f <- open_file fs path ;;
     content <- read_at f 0 4096 ;;
     if has_null_byte content then ret false
     else
       try_except
         (match decode_strict content with
          | Some _ => ret true
          | None => raise unicode_decode_error
          end)
         (fun e => if is_UnicodeDecodeError e then Some (ret false)
                   else None))
    (fun _ => Some (ret false)).

Definition is_text_file (fs : filesystem) (file_path : string) : io bool :=
  let path := file_path in
  let by_extension : io bool :=
    if mem_string (lower (path_suffix path)) text_extensions then ret true
    else sniff_content fs path in
  match guess_type (path_name path) with
  | Some mime_type =>
      if String.eqb mime_type EmptyString then by_extension
      else ret (mime_is_text mime_type)
  | None => by_extension
  end.

Definition get_file_info (fs : filesystem) (file_path : string)
  : io file_info :=
  let path := file_path in
  try_except
    (stats <- path_stat fs path ;;
     is_text <- is_text_file fs path ;;
     line_count <-
       (if is_text
        then n <- count_lines_in_file fs path ;; ret (Some n)
        else ret None) ;;
     ret (FileRecord (lit path) (lit (path_name path))
                     (lit (path_suffix path)) (st_size stats) is_text
                     (st_mtime stats) line_count))
    (fun e =>
       Some (log_warning (lit "Error getting file info for " ++ lit path ++
                          lit ": " ++ exn_str e) ;;;
             ret (ErrorRecord (lit path) (exn_str e)))).
End Classifier.

(* ------------------------------------------------------------------ *)
(** * Vocabulary of the properties *)
(* ------------------------------------------------------------------ *)

(** A file made of newline-terminated lines. *)
Definition terminated_lines (ls : list bytes) : bytes :=
  List.concat (map (fun l => l ++ [x0a]) ls).

(** A line holds no newline byte. *)
Definition newline_free (l : bytes) : Prop :=
  forall b, In b l -> is_newline_byte b = false.

(** The count the line counter computes on readable content: the newline
    bytes, plus one when the content is not empty and does not end in a
    newline. *)
Definition line_total (content : bytes) : Z :=
  match rev content with
  | [] => 0
  | b :: _ =>
      count_newlines content + (if is_newline_byte b then 0 else 1)
  end.

(** The characters of ASCII bytes. *)
Definition ascii_text (l : bytes) : str := map Byte.to_N l.

(** An ASCII byte other than LF and CR. *)
Definition plain_byte (b : byte) : bool :=
  let n := Byte.to_N b in
  (N.ltb n 128 && negb (N.eqb n LF) && negb (N.eqb n CR))%bool.

Definition plain_line (l : bytes) : Prop := forallb plain_byte l = true.

(** Every state the decoder reaches waits for a byte of at least 128. *)
Definition state_ok (st : utf8_state) : Prop :=
  match st with
  | Start => True
  | Pending _ _ lo _ => (128 <= lo)%N
  end.

(** The MIME table gives no type for the name. *)
Definition no_mime_type (guess_type : string -> option string)
           (path : string) : Prop :=
  guess_type (path_name path) = None \/
  guess_type (path_name path) = Some EmptyString.

(** The path cannot be read: it is missing, or [open] or [read] fails. *)
Definition unavailable (fs : filesystem) (path : string) : Prop :=
  match fs path with
  | None => True
  | Some i => i_access i <> Readable
  end.

(** The exception met when reading an unavailable path. *)
Definition access_error (fs : filesystem) (path : string) : exn :=
  match fs path with
  | None => no_such_file path
  | Some i =>
      match i_access i with
      | NoPermission => permission_denied path
      | _ => io_error
      end
  end.

(** The results of the futures that returned, in completion order. *)
Definition completed_results {R} (futures : list (outcome R))
           (completion : list nat) : list R :=
  flat_map (fun i => match nth_error futures i with
                     | Some (Ok r) => [r]
                     | _ => []
                     end) completion.

(** The records logged for the futures that raised, in completion
    order. *)
Definition failure_records {R} (show_progress : bool)
           (futures : list (outcome R)) (completion : list nat)
  : list log_record :=
  flat_map (fun i => match nth_error futures i with
                     | Some (Raise e) =>
                         [mk_log ERROR (failure_message show_progress e)]
                     | _ => []
                     end) completion.

(* ------------------------------------------------------------------ *)
(** * Concrete inputs *)
(* ------------------------------------------------------------------ *)

(** A file system with one readable file. *)
Definition single_file (name : string) (content : bytes) : filesystem :=
  fun p => if String.eqb p name then Some (mk_inode content 0 Readable)
           else None.

(** A file system with one file of the given access. *)
Definition single_inode (name : string) (content : bytes) (a : access)
  : filesystem :=
  fun p => if String.eqb p name then Some (mk_inode content 0 a) else None.

Definition empty_fs : filesystem := fun _ => None.

(** [str(i)] for a natural number. *)
Definition decimal (n : nat) : string :=
  NilEmpty.string_of_uint (Nat.to_uint n).

(** The lines "Line 0", ..., "Line n-1", each ended by a newline. *)
Definition numbered_lines (n : nat) : bytes :=
  terminated_lines
    (map (fun i => encode_ascii (String.append "Line " (decimal i))) (seq 0 n)).

(** The 100-line file of the sampler's test. *)
Definition hundred_lines : bytes := numbered_lines 100.

(** 1024 lines of nine digits: 10240 bytes. *)
Definition ten_kb_file : bytes :=
  terminated_lines (repeat (encode_ascii "123456789") 1024).

(** The sample of [ten_kb_file] for ten lines: ten lines, the marker and
    ten lines. *)
Definition ten_kb_sample : str :=
  text_of (terminated_lines (repeat (encode_ascii "123456789") 10)) ++
  truncation_marker ++ join_nl (repeat (lit "123456789") 10).

(** Three blank lines. *)
Definition blank_lines : bytes := terminated_lines [[]; []; []].

(** 150 letters on one unterminated line. *)
Definition one_long_line : bytes := repeat x61 150.

(** Four short lines and a last line of 4100 characters, whose first five
    characters lie before the final 4096-byte chunk. *)
Definition straddling_file : bytes :=
  terminated_lines
    [[x41]; [x42]; [x43]; [x44]; repeat x78 5 ++ repeat x79 4095].

(** The sample of [straddling_file] for two lines. *)
Definition straddling_sample : str :=
  lit "A" ++ [LF] ++ lit "B" ++ [LF] ++ truncation_marker ++
  repeat 120%N 5 ++ [LF] ++ repeat 121%N 4095.

(** The content of the classifier's binary test file. *)
Definition binary_data : bytes :=
  encode_ascii "Binary" ++ [x00] ++ encode_ascii "Data".

(** An excerpt of the MIME table that [mimetypes] builds on a Debian
    system from its built-in entries and /etc/mime.types. *)
Definition mime_table : list (string * string) :=
  [ (".txt", "text/plain"); (".py", "text/x-python");
    (".html", "text/html"); (".json", "application/json");
    (".png", "image/png"); (".bin", "application/octet-stream");
    (".rs", "application/rls-services+xml"); (".sql", "application/sql") ]%string.

Fixpoint lookup (key : string) (table : list (string * string))
  : option string :=
  match table with
  | [] => None
  | (k, v) :: rest => if String.eqb key k then Some v else lookup key rest
  end.

(** [mimetypes.guess_type(name)[0]] over [mime_table]. *)
Definition table_guess_type (name : string) : option string :=
  lookup (lower (path_suffix name)) mime_table.

(** The operation of the executor's test: it squares, and raises on 3. *)
Definition failing_function (x : Z) : outcome Z :=
  if x =? 3 then Raise (mk_exn ValueError (lit "Test error")) else Ok (x * x).

(** Two files and a third that holds the first followed by the second. *)
Definition log_parts : filesystem :=
  fun p =>
    if String.eqb p "a.log" then
      Some (mk_inode (terminated_lines [encode_ascii "one"; encode_ascii "two"])
                     0 Readable)
    else if String.eqb p "b.log" then
      Some (mk_inode (encode_ascii "three") 0 Readable)
    else if String.eqb p "ab.log" then
      Some (mk_inode (terminated_lines [encode_ascii "one"; encode_ascii "two"]
                      ++ encode_ascii "three") 0 Readable)
    else None.

(** Every state the decoder reaches accepts no byte above 191. *)
Definition state_bounded (st : utf8_state) : Prop :=
  match st with
  | Start => True
  | Pending _ _ _ hi => (hi <= 191)%N
  end.

(** A byte of 7-bit text other than the null byte. *)
Definition text_byte (b : byte) : bool :=
  let n := Byte.to_N b in (N.ltb 0 n && N.ltb n 128)%bool.

(** 4095 letters and one two-byte character: valid UTF-8, 4097 bytes. *)
Definition accent_at_boundary : bytes := repeat x61 4095 ++ [xc3; xa9].

(** The name alone marks the path as text: by its MIME type, or without
    one by its extension. *)
Definition text_by_name (guess_type : string -> option string)
           (path : string) : Prop :=
  (exists mime_type,
     guess_type (path_name path) = Some mime_type /\
     mime_type <> EmptyString /\ mime_is_text mime_type = true) \/
  (no_mime_type guess_type path /\
   mem_string (lower (path_suffix path)) text_extensions = true).



(* ------------------------------------------------------------------ *)
(** * Logging setup: [setup_logging] *)
(* ------------------------------------------------------------------ *)

(** The part of the [logging] module's state that the function touches:
    the root logger's level and handlers, and the levels of the named
    loggers ([None] is NOTSET). *)
Inductive handler_target :=
| Console                    (* [logging.StreamHandler()] *)
| LogFile (path : string).   (* [logging.FileHandler(path)] *)

Record handler := mk_handler {
  hd_target : handler_target;
  hd_level : option log_level;
  hd_format : option string
}.

Record logging_state := mk_logging {
  root_level : log_level;
  root_handlers : list handler;
  logger_levels : string -> option log_level
}.

Definition log_level_eqb (a b : log_level) : bool :=
  match a, b with
  | DEBUG, DEBUG | INFO, INFO | WARNING, WARNING | ERROR, ERROR => true
  | _, _ => false
  end.

Definition handler_target_eqb (a b : handler_target) : bool :=
  match a, b with
  | Console, Console => true
  | LogFile p, LogFile q => String.eqb p q
  | _, _ => false
  end.

Definition option_eqb {A} (eqb : A -> A -> bool) (a b : option A) : bool :=
  match a, b with
  | Some x, Some y => eqb x y
  | None, None => true
  | _, _ => false
  end.

Definition handler_eqb (a b : handler) : bool :=
  (handler_target_eqb (hd_target a) (hd_target b) &&
   option_eqb log_level_eqb (hd_level a) (hd_level b) &&
   option_eqb String.eqb (hd_format a) (hd_format b))%bool.

(** [root_logger.removeHandler(handler)]:
    [if hdlr in self.handlers: self.handlers.remove(hdlr)] *)
Fixpoint remove_handler (h : handler) (hs : list handler) : list handler :=
  match hs with
  | [] => []
  | x :: rest => if handler_eqb h x then rest else x :: remove_handler h rest
  end.

(** [for handler in root_logger.handlers[:]:
        root_logger.removeHandler(handler)] *)
Definition remove_all_handlers (hs : list handler) : list handler :=
  fold_left (fun remaining h => remove_handler h remaining) hs hs.

(** [root_logger.addHandler(handler)] for a handler just created, which
    the list cannot hold yet. *)
Definition add_handler (h : handler) (hs : list handler) : list handler :=
  hs ++ [h].

(** [logging.getLogger(name).setLevel(lvl)] *)
Definition set_logger_level (name : string) (lvl : log_level)
           (levels : string -> option log_level) : string -> option log_level :=
  fun n => if String.eqb n name then Some lvl else levels n.

Definition log_format : string :=
  "%(asctime)s - %(name)s - %(levelname)s - %(message)s".

Definition library_loggers : list string :=
  ["urllib3"; "requests"; "asyncio"]%string.

Section LoggingSetup.

(** [logging.FileHandler(log_file)] opens the file: the exception it
    raises, if any. *)
Variable file_handler_error : string -> option exn.

Definition new_file_handler (log_file : string) : io handler_target :=
  match file_handler_error log_file with
  | Some e => raise e
  | None => ret (LogFile log_file)
  end.

Definition setup_logging (verbose : bool) (log_file : option string)
           (st : logging_state) : io logging_state :=
  let log_level := if verbose then DEBUG else INFO in
  let handlers := remove_all_handlers (root_handlers st) in
  let console_handler := mk_handler Console (Some log_level) (Some log_format) in
  let handlers := add_handler console_handler handlers in
  handlers <-
    (match log_file with
     | Some (String c name) =>
         let log_file := String c name in
         try_except
           (target <- new_file_handler log_file ;;
            let file_handler :=
              mk_handler target (Some log_level) (Some log_format) in
            ret (add_handler file_handler handlers))
           (fun e =>
              Some (log_warning (lit "Unable to create log file at " ++
                                 lit log_file ++ lit ": " ++ exn_str e) ;;;
                    ret handlers))
     | _ => ret handlers
     end) ;;
  let levels := set_logger_level "llm_cartographer" log_level (logger_levels st) in
  let levels :=
    if negb verbose
    then fold_left (fun levels lib_logger_name =>
                      set_logger_level lib_logger_name WARNING levels)
                   library_loggers levels
    else levels in
  ret (mk_logging log_level handlers levels).

End LoggingSetup.

(** Two states of the [logging] module that hold the same. *)
Definition same_logging (a b : logging_state) : Prop :=
  root_level a = root_level b /\
  root_handlers a = root_handlers b /\
  forall name, logger_levels a name = logger_levels b name.

(** The state of a fresh interpreter: root logger at WARNING, no
    handlers, every named logger NOTSET. *)
Definition fresh_logging : logging_state :=
  mk_logging WARNING [] (fun _ => None).

(** A machine on which only files under "/var/log/" cannot be opened for
    logging. *)
Definition no_var_log (log_file : string) : option exn :=
  if String.prefix "/var/log/" log_file
  then Some (permission_denied log_file)
  else None.

(* ------------------------------------------------------------------ *)
(** * Configuration: [CartographerConfig.__post_init__] *)
(* ------------------------------------------------------------------ *)

Module Config.

(** The keys of [ANALYSIS_MODES], in the order of the dictionary. *)
Definition ANALYSIS_MODES : list string :=
  ["overview"; "components"; "architecture"; "flows"]%string.

Definition DIAGRAM_FORMATS : list string :=
  ["graphviz"; "mermaid"; "plantuml"]%string.

(** A field that holds a [str] or a [pathlib.Path]; a [Path] is written
    as its string. *)
Inductive path_like :=
| StrPath (s : string)
| PathObj (p : string).

(** The fields of the dataclass.  A [set] of strings is a list without
    duplicates, in no particular order. *)
Record CartographerConfig := mk_config {
  directory : path_like;
  exclude_patterns : list string;
  max_files : Z;
  max_file_size : Z;
  max_map_tokens : Z;
  output_path : option path_like;
  model_name : string;
  follow_symlinks : bool;
  cache_dir : path_like;
  json_format : bool;
  filter_extensions : option (list string);
  mode : string;
  focus : option string;
  reasoning : Z;
  visual : bool;
  diagram_format : string;
  parallel : bool;
  max_workers : option Z;
  verbose : bool;
  log_file : option string
}.

(** [str(n)] for an [int]. *)
Definition str_of_int (n : Z) : string :=
  if n <? 0 then String.append "-" (decimal (Z.to_nat (- n)))
  else decimal (Z.to_nat n).

(** [ext if ext.startswith('.') else f'.{ext}'] *)
Definition normalize_extension (ext : string) : string :=
  if String.prefix "." ext then ext else String.append "." ext.

(** [{f(ext) for ext in exts}] *)
Definition set_comprehension (f : string -> string) (exts : list string)
  : list string :=
  nodup string_dec (map f exts).

Definition invalid_mode (mode : string) : exn :=
  mk_exn ValueError
         (lit "Invalid mode: " ++ lit mode ++ lit ". Must be one of: " ++
          lit (String.concat ", " ANALYSIS_MODES)).

Definition invalid_reasoning (reasoning : Z) : exn :=
  mk_exn ValueError
         (lit "Reasoning depth must be between 0 and 9, got " ++
          lit (str_of_int reasoning)).

Definition invalid_diagram_format (diagram_format : string) : exn :=
  mk_exn ValueError
         (lit "Invalid diagram format: " ++ lit diagram_format ++
          lit ". Must be one of: " ++ lit (String.concat ", " DIAGRAM_FORMATS)).

Section PostInit.

(** [str(Path(s))]; [str(Path(s).resolve())], or the exception that
    resolving raises (a ValueError on an embedded null byte, a
    RuntimeError on a loop of symbolic links); the exception that
    [cache_dir.mkdir(parents=True, exist_ok=True)] raises, if any; and
    [os.cpu_count()]. *)
Variable to_path : string -> string.
Variable resolve : string -> outcome string.
Variable mkdir : string -> option exn.
Variable cpu_count : option Z.

(** [if isinstance(self.directory, str):
        self.directory = Path(self.directory).resolve()] *)
Definition resolve_directory (self : CartographerConfig) : io path_like :=
  match directory self with
  | StrPath s =>
      match resolve s with
      | Ok p => ret (PathObj p)
      | Raise e => raise e
      end
  | PathObj p => ret (PathObj p)
  end.

(** The cache directory as a [Path], once a [str] has been converted. *)
Definition cache_path (self : CartographerConfig) : string :=
  match cache_dir self with
  | StrPath s => to_path s
  | PathObj p => p
  end.

Definition post_init (self : CartographerConfig) : io CartographerConfig :=
  directory' <- resolve_directory self ;;
  let output_path' :=
    match output_path self with
    | Some (StrPath s) => Some (PathObj (to_path s))
    | other => other
    end in
  let cache_dir' := PathObj (cache_path self) in
  (match mkdir (cache_path self) with
   | Some e => raise e
   | None => ret tt
   end) ;;;
  (if negb (mem_string (mode self) ANALYSIS_MODES)
   then raise (invalid_mode (mode self))
   else ret tt) ;;;
  (if negb ((0 <=? reasoning self) && (reasoning self <=? 9))%bool
   then raise (invalid_reasoning (reasoning self))
   else ret tt) ;;;
  (if negb (mem_string (diagram_format self) DIAGRAM_FORMATS)
   then raise (invalid_diagram_format (diagram_format self))
   else ret tt) ;;;
  let max_workers' :=
    match max_workers self with
    | None => Some (default_workers cpu_count)
    | Some n => Some n
    end in
  let filter_extensions' :=
    match filter_extensions self with
    | Some exts =>
        if truthy exts
        then Some (set_comprehension normalize_extension exts)
        else Some exts
    | None => None
    end in
  ret (mk_config directory' (exclude_patterns self) (max_files self)
                 (max_file_size self) (max_map_tokens self) output_path'
                 (model_name self) (follow_symlinks self) cache_dir'
                 (json_format self) filter_extensions' (mode self)
                 (focus self) (reasoning self) (visual self)
                 (diagram_format self) (parallel self) max_workers'
                 (verbose self) (log_file self)).

End PostInit.

(** What holds of a configuration once it is constructed. *)
Definition is_path (p : path_like) : Prop :=
  match p with PathObj _ => True | StrPath _ => False end.

Definition well_formed (c : CartographerConfig) : Prop :=
  is_path (directory c) /\ is_path (cache_dir c) /\
  (forall p, output_path c = Some p -> is_path p) /\
  In (mode c) ANALYSIS_MODES /\
  0 <= reasoning c <= 9 /\
  In (diagram_format c) DIAGRAM_FORMATS /\
  max_workers c <> None /\
  (forall exts, filter_extensions c = Some exts ->
     NoDup exts /\ Forall (fun e => String.prefix "." e = true) exts).

(** A configuration as a caller writes it: paths as strings, extensions
    with and without their dot. *)
Definition written_config : CartographerConfig :=
  mk_config (StrPath "./test") ["node_modules"; ".git"]%string 100
            (100 * 1024) 6000 (Some (StrPath "./output")) "gpt-4o" false
            (StrPath "./cache") false (Some ["py"; ".js"; "ts"]%string)
            "overview" None 5 false "graphviz" true None false None.

(** An environment for it: paths are kept as written, directories are
    resolved under "/work/", every directory can be created, eight
    processors. *)
Definition plain_resolve (s : string) : outcome string :=
  Ok (String.append "/work/" s).
Definition mkdir_succeeds (p : string) : option exn := None.

End Config.

(** What the constructor makes of [Config.written_config] there. *)
Definition constructed_config : Config.CartographerConfig :=
  Config.mk_config (Config.PathObj "/work/./test")
                   ["node_modules"; ".git"]%string 100
                   (100 * 1024) 6000 (Some (Config.PathObj "./output"))
                   "gpt-4o" false (Config.PathObj "./cache") false
                   (Some [".py"; ".js"; ".ts"]%string)
                   "overview" None 5 false "graphviz" true (Some 12)
                   false None.

(** Three one-letter lines. *)
Definition three_lines : list bytes :=
  [encode_ascii "a"; encode_ascii "b"; encode_ascii "c"].

(* ------------------------------------------------------------------ *)
(** * Lines of any bytes *)
(* ------------------------------------------------------------------ *)

(** The text of a line: its bytes decoded as the sampler decodes them,
    what cannot be decoded being dropped. *)
Definition line_text (l : bytes) : str := decode_ignore l.

(** A line holds no carriage-return byte. *)
Definition cr_free (l : bytes) : Prop :=
  forall b, In b l -> N.eqb (Byte.to_N b) CR = false.

(** The first lines as the sampler reads them: the text of each line
    with its terminator. *)
Definition head_text (ls : list bytes) : str :=
  List.concat (map (fun l => line_text l ++ [LF]) ls).

(** The bytes of a file of lines, with or without the newline after the
    last line. *)
Definition file_of_lines (ls : list bytes) (final_newline : bool) : bytes :=
  if final_newline then terminated_lines ls
  else removelast (terminated_lines ls).

(** Position [p] of [content] is the start of a line: the start of the
    file, or the position after a newline byte. *)
Definition line_start (content : bytes) (p : Z) : Prop :=
  p = 0 \/ nth_error content (Z.to_nat (p - 1)) = Some x0a.

(** A cut of the backward reader at [p] that splits no line it still has
    to read: [p] is the start of a line, or [p] is just before a newline
    and from [p] on the file has fewer than [k] newlines, so that the
    reader goes on to the chunk that holds the line ended by that
    newline. *)
Definition cut_between_lines (content : bytes) (k p : Z) : Prop :=
  line_start content p \/
  (nth_error content (Z.to_nat p) = Some x0a /\
   count_newlines (zdrop p content) < k).

(** [l[-n:]] for [n > 0]: the last [n] elements, or all of them. *)
Definition lastn {A} (n : nat) (l : list A) : list A :=
  skipn (List.length l - n) l.

(** [chunk.decode('utf-8', errors='ignore').split('\n')] *)
Definition chunk_pieces (chunk : bytes) : list str :=
  split_nl (decode_ignore chunk).

(** The non-blank elements, those that [if line:] lets through. *)
Definition non_blank (ls : list str) : list str := filter truthy ls.

(** The deque of the backward reader once it has read [content] from
    position [p] on, when no line was cut: the last [k] non-blank
    pieces. *)
Definition seen_from (content : bytes) (k p : Z) : list str :=
  lastn (Z.to_nat k) (non_blank (chunk_pieces (zdrop p content))).

(** The middle line of the marker. *)
Definition marker_line : str := lit "[content truncated]".

(** A pending sequence decodes to a code point of at least 128: what the
    decoder has read so far, with the least continuation bytes, is
    already beyond the two 7-bit groups. *)
Definition state_wide (st : utf8_state) : Prop :=
  match st with
  | Start => True
  | Pending need acc lo hi =>
      (128 <= lo)%N /\
      ((need = 1%nat /\ (2 <= acc)%N) \/
       ((2 <= need)%nat /\ (2 <= acc * 64 + (lo - 128))%N))
  end.

(** A file whose last two lines fill one 4096-byte chunk each: 4093
    letters and an accented letter of two bytes, then 4095 letters, each
    line with its newline.  Before them come the lines "A", "B" and
    "C". *)
Definition accented_line : bytes := repeat x78 4093 ++ [xc3; xa9].
Definition long_line : bytes := repeat x79 4095.
Definition two_chunk_head : list bytes := [encode_ascii "A"; encode_ascii "B"].
Definition two_chunk_middle : list bytes := [encode_ascii "C"].
Definition two_chunk_tail : list bytes := [accented_line; long_line].

(** A file whose first line holds a carriage return. *)
Definition cr_head_file : bytes :=
  terminated_lines [[x61; x0d; x62]; [x63]; [x64]].

(** A file whose last three lines are the middle line of the marker,
    "..." and "x". *)
Definition marker_tail_file : bytes :=
  terminated_lines
    [encode_ascii "1"; encode_ascii "2"; encode_ascii "3"; encode_ascii "m";
     encode_ascii "[content truncated]"; encode_ascii "..."; encode_ascii "x"].

(** A file whose last three lines are "...", a blank line and "x", after
    a line that is the middle line of the marker. *)
Definition blank_tail_file : bytes :=
  terminated_lines
    [encode_ascii "1"; encode_ascii "2"; encode_ascii "3"; encode_ascii "m";
     encode_ascii "[content truncated]"; encode_ascii "..."; []; encode_ascii "x"].

(** A file whose final 4096-byte chunk starts with the newline that ends
    the line "D": the lines "A", "B", "C" and "D", then 4094 letters. *)
Definition cut_before_newline_file : bytes :=
  terminated_lines [[x41]; [x42]; [x43]; [x44]; repeat x79 4094].

(* ------------------------------------------------------------------ *)
(** * ParallelExecutor: operations that may ask to exit *)
(* ------------------------------------------------------------------ *)

(** A [BaseException] that is not an [Exception]: [except Exception]
    does not catch it. *)
Inductive exit_request := SystemExit | KeyboardInterrupt | GeneratorExit.

(** What a future holds once its call is over.  The worker thread stores
    whatever the call raised, an exit request included, and
    [future.result()] raises it again in the caller. *)
Inductive settled (R : Type) :=
| Returned (result : R)
| Failed (e : exn)
| Exited (x : exit_request).
Arguments Returned {R} result.
Arguments Failed {R} e.
Arguments Exited {R} x.

(** How a call ends when exit requests are told apart from errors. *)
Inductive ending (A : Type) :=
| Ends (o : outcome A)
| Exits (x : exit_request).
Arguments Ends {A} o.
Arguments Exits {A} x.

(** The future of an operation that returns or raises an error. *)
Definition settle {R} (o : outcome R) : settled R :=
  match o with
  | Ok result => Returned result
  | Raise e => Failed e
  end.

(** The loop over [as_completed] again, with [future.result()] raising
    an exit request past [except Exception]: the [finally] clause of the
    progress loop runs, then the request leaves the loop, the [with]
    block and the function; what was logged before stays logged. *)
Fixpoint collect_any {R} (show_progress : bool) (futures : list (settled R))
         (completion : list nat) (results : list R) (completed : Z)
  : ending (list R * Z) * list log_record :=
  match completion with
  | [] => (Ends (Ok (results, completed)), [])
  | i :: rest =>
      let completed' := if show_progress then completed + 1 else completed in
      match nth_error futures i with
      | None => collect_any show_progress futures rest results completed
      | Some (Returned result) =>
          collect_any show_progress futures rest (results ++ [result])
                      completed'
      | Some (Failed e) =>
          let (r, l) :=
            collect_any show_progress futures rest results completed' in
          (r, mk_log ERROR (failure_message show_progress e) :: l)
      | Some (Exited x) => (Exits x, [])
      end
  end.

Definition parallel_process_any {T R} (cpu_count : option Z)
           (tqdm_installed : bool) (items : list T)
           (process_func : T -> settled R) (max_workers : option Z)
           (show_progress : bool) (completion : list nat)
  : ending (list R) * list log_record :=
  let items_list := items in
  let max_workers :=
    match max_workers with
    | Some n => n
    | None => default_workers cpu_count
    end in
  if (show_progress && negb tqdm_installed)%bool
  then (Ends (Raise (mk_exn ImportError (lit "No module named 'tqdm'"))), [])
  else
    if max_workers <=? 0
    then (Ends (Raise (mk_exn ValueError
                         (lit "max_workers must be greater than 0"))), [])
    else
      let futures := map process_func items_list in
      match collect_any show_progress futures completion [] 0 with
      | (Ends (Ok out), l) => (Ends (Ok (fst out)), l)
      | (Ends (Raise e), l) => (Ends (Raise e), l)
      | (Exits x, l) => (Exits x, l)
      end.

(** The exit request of the first future, in completion order, that
    holds one. *)
Fixpoint first_exit {R} (futures : list (settled R)) (completion : list nat)
  : option exit_request :=
  match completion with
  | [] => None
  | i :: rest =>
      match nth_error futures i with
      | Some (Exited x) => Some x
      | _ => first_exit futures rest
      end
  end.

(** The failure messages of the futures that come before it. *)
Fixpoint failures_before_exit {R} (show_progress : bool)
         (futures : list (settled R)) (completion : list nat)
  : list log_record :=
  match completion with
  | [] => []
  | i :: rest =>
      match nth_error futures i with
      | Some (Exited _) => []
      | Some (Failed e) =>
          mk_log ERROR (failure_message show_progress e)
            :: failures_before_exit show_progress futures rest
      | _ => failures_before_exit show_progress futures rest
      end
  end.

(** An operation that asks to exit on the item 2. *)
Definition exits_on_two (n : Z) : settled Z :=
  if n =? 2 then Exited SystemExit
  else if n =? 1 then Failed (mk_exn ValueError (lit "bad item"))
  else Returned (n * 10).

(* ------------------------------------------------------------------ *)
(** * Lists, slices and substrings *)
(* ------------------------------------------------------------------ *)

Lemma len_nonneg {A} (l : list A) : 0 <= len l.
Proof. unfold len. lia. Qed.

Lemma len_nil {A} : len (@nil A) = 0.
Proof. reflexivity. Qed.

Lemma len_cons {A} (x : A) l : len (x :: l) = len l + 1.
Proof. unfold len. simpl List.length. lia. Qed.

Lemma len_app {A} (l1 l2 : list A) : len (l1 ++ l2) = len l1 + len l2.
Proof. unfold len. rewrite length_app. lia. Qed.

Lemma len_zero_nil {A} (l : list A) : len l = 0 -> l = [].
Proof. destruct l; [reflexivity | unfold len; simpl; lia]. Qed.

Lemma ztake_firstn {A} (l : list A) : forall n, ztake n l = firstn (Z.to_nat n) l.
Proof.
  induction l as [|x t IH]; intros n; simpl.
  - now rewrite firstn_nil.
  - destruct (Z.leb_spec n 0) as [Hn|Hn].
    + replace (Z.to_nat n) with O by lia. reflexivity.
    + replace (Z.to_nat n) with (S (Z.to_nat (n - 1))) by lia.
      simpl. now rewrite IH.
Qed.

Lemma zdrop_skipn {A} (l : list A) : forall n, zdrop n l = skipn (Z.to_nat n) l.
Proof.
  induction l as [|x t IH]; intros n; simpl.
  - now rewrite skipn_nil.
  - destruct (Z.leb_spec n 0) as [Hn|Hn].
    + replace (Z.to_nat n) with O by lia. reflexivity.
    + replace (Z.to_nat n) with (S (Z.to_nat (n - 1))) by lia.
      simpl. now rewrite IH.
Qed.

Lemma ztake_zdrop {A} n (l : list A) : ztake n l ++ zdrop n l = l.
Proof. rewrite ztake_firstn, zdrop_skipn. apply firstn_skipn. Qed.

Lemma len_ztake {A} n (l : list A) :
  len (ztake n l) = Z.max 0 (Z.min n (len l)).
Proof.
  rewrite ztake_firstn. unfold len. rewrite length_firstn. lia.
Qed.

Lemma len_zdrop {A} n (l : list A) :
  len (zdrop n l) = len l - Z.max 0 (Z.min n (len l)).
Proof.
  rewrite zdrop_skipn. unfold len. rewrite length_skipn. lia.
Qed.

Lemma ztake_all {A} n (l : list A) : len l <= n -> ztake n l = l.
Proof.
  intros H. rewrite ztake_firstn. apply firstn_all2. unfold len in H. lia.
Qed.

Lemma zdrop_none {A} n (l : list A) : n <= 0 -> zdrop n l = l.
Proof.
  intros H. rewrite zdrop_skipn. replace (Z.to_nat n) with O by lia.
  reflexivity.
Qed.

Lemma zdrop_app_exact {A} (l1 l2 : list A) : zdrop (len l1) (l1 ++ l2) = l2.
Proof.
  rewrite zdrop_skipn. unfold len. rewrite Nat2Z.id.
  rewrite skipn_app, skipn_all, Nat.sub_diag. reflexivity.
Qed.

Lemma text_read_bound n s : 0 <= n -> len (text_read n s) <= n.
Proof.
  intros Hn. unfold text_read.
  destruct (Z.ltb_spec n 0); [lia|]. rewrite len_ztake. lia.
Qed.

Lemma starts_with_spec p : forall s,
  starts_with p s = true <-> exists b, s = p ++ b.
Proof.
  induction p as [|a p IH]; intros s; simpl.
  - split; [intros _; now exists s | reflexivity].
  - destruct s as [|c s].
    + split; [discriminate | intros [b Hb]; discriminate].
    + rewrite andb_true_iff, N.eqb_eq, IH. split.
      * intros [-> [b ->]]. now exists b.
      * intros [b Hb]. injection Hb as -> ->. split; [reflexivity | now exists b].
Qed.

(** [contains] decides the substring relation. *)
Lemma contains_spec needle : forall hay,
  contains needle hay = true <-> exists a b, hay = a ++ needle ++ b.
Proof.
  induction hay as [|c t IH]; simpl; rewrite orb_true_iff, starts_with_spec.
  - split.
    + intros [[b Hb]|H]; [|discriminate]. now exists [], b.
    + intros [a [b H]]. left.
      destruct a; simpl in H; [now exists b | discriminate].
  - rewrite IH. split.
    + intros [[b Hb]|[a [b Hb]]].
      * now exists [], b.
      * exists (c :: a), b. now rewrite Hb.
    + intros [a [b H]]. destruct a as [|x a]; simpl in H.
      * left. now exists b.
      * right. injection H as _ H. now exists a, b.
Qed.

Lemma contains_app_r needle a b :
  contains needle b = true -> contains needle (a ++ b) = true.
Proof.
  rewrite !contains_spec. intros [x [y ->]].
  exists (a ++ x), y. now rewrite <- app_assoc.
Qed.

Lemma contains_app_l needle a b :
  contains needle a = true -> contains needle (a ++ b) = true.
Proof.
  rewrite !contains_spec. intros [x [y ->]].
  exists x, (y ++ b). now rewrite <- !app_assoc.
Qed.

Lemma contains_refl s : contains s s = true.
Proof. apply contains_spec. exists [], []. now rewrite app_nil_r. Qed.

(* ------------------------------------------------------------------ *)
(** * Sampler: the small-file branch *)
(* ------------------------------------------------------------------ *)

(** What the sampler does with a readable file whose size is positive and
    below twice the budget. *)
Lemma sample_small_file fs path k m content t :
  fs path = Some (mk_inode content t Readable) ->
  0 < len content -> len content < m * 2 ->
  memory_efficient_file_sample fs path k m =
    (Ok (small_file_sample (text_read m (text_of content)) m), []).
Proof.
  intros Hfs Hpos Hsmall.
  unfold memory_efficient_file_sample, path_stat, open_file.
  rewrite Hfs. cbn -[small_file_sample text_read text_of Z.mul].
  destruct (Z.eqb_spec (len content) 0) as [E|_]; [lia|].
  destruct (Z.ltb_spec (len content) (m * 2)) as [_|E]; [|lia].
  reflexivity.
Qed.

Lemma small_file_guard_holds m s :
  0 <= m -> small_file_sample (text_read m s) m = text_read m s.
Proof.
  intros Hm. unfold small_file_sample.
  pose proof (text_read_bound m s Hm).
  destruct (Z.leb_spec (len (text_read m s)) m); [reflexivity | lia].
Qed.

Lemma sample_small_file_read fs path k m content t :
  fs path = Some (mk_inode content t Readable) ->
  0 < len content -> len content < m * 2 ->
  memory_efficient_file_sample fs path k m =
    (Ok (text_read m (text_of content)), []).
Proof.
  intros Hfs Hpos Hsmall.
  rewrite (sample_small_file fs path k m content t Hfs Hpos Hsmall).
  rewrite small_file_guard_holds by lia. reflexivity.
Qed.



(** The length bound of the small-file branch, for every readable file. *)
Lemma small_branch_within_budget fs path k m content t :
  fs path = Some (mk_inode content t Readable) ->
  len content < m * 2 ->
  exists s, memory_efficient_file_sample fs path k m = (Ok s, []) /\
            len s <= m.
Proof.
  intros Hfs Hsmall.
  pose proof (len_nonneg content) as Hnn.
  destruct (Z.eq_dec (len content) 0) as [E|E].
  - exists []. split; [|rewrite len_nil; lia].
    unfold memory_efficient_file_sample, path_stat. rewrite Hfs.
    cbn -[Z.mul]. now rewrite E.
  - eexists. split.
    + apply sample_small_file_read with (t := t) (content := content);
        [assumption | lia | assumption].
    + apply text_read_bound. lia.
Qed.

(** In the small-file branch a text longer than the budget is cut to the
    budget: the result is a proper prefix of the text, with nothing
    added. *)
Lemma small_branch_cuts_long_text fs path k m content t :
  fs path = Some (mk_inode content t Readable) ->
  len content < m * 2 -> m < len (text_of content) ->
  exists rest,
    memory_efficient_file_sample fs path k m = (Ok (ztake m (text_of content)), []) /\
    text_of content = ztake m (text_of content) ++ rest /\ rest <> [].
Proof.
  intros Hfs Hsmall Hlong.
  pose proof (len_nonneg content) as Hnn.
  destruct (Z.eq_dec (len content) 0) as [E|E].
  - apply len_zero_nil in E. subst content. cbn in Hlong. lia.
  - exists (zdrop m (text_of content)). split; [|split].
    + rewrite (sample_small_file_read fs path k m content t) by (assumption || lia).
      unfold text_read. destruct (Z.ltb_spec m 0); [lia | reflexivity].
    + now rewrite ztake_zdrop.
    + intros Hnil.
      pose proof (len_zdrop m (text_of content)) as Hd.
      rewrite Hnil, len_nil in Hd. lia.
Qed.

(** C5, as amended.  In the small-file branch (positive size below twice
    the budget), a file whose text has at least [max_size] characters
    yields exactly its first [max_size] characters. *)
Theorem small_branch_exact_length fs path k m content t :
  fs path = Some (mk_inode content t Readable) ->
  0 < len content -> len content < m * 2 ->
  m <= len (text_of content) ->
  memory_efficient_file_sample fs path k m =
    (Ok (ztake m (text_of content)), []) /\
  len (ztake m (text_of content)) = m.
Proof.
  intros Hfs Hpos Hsmall Hlong.
  pose proof (sample_small_file_read fs path k m content t Hfs Hpos Hsmall) as H.
  unfold text_read in H. destruct (Z.ltb_spec m 0); [lia|].
  split; [exact H|]. rewrite len_ztake. lia.
Qed.

Lemma small_branch_exact_length_witness :
  memory_efficient_file_sample
    (single_file "notes.txt" (repeat x61 150)) "notes.txt" 10 100
  = (Ok (repeat 97%N 100), []) /\
  len (repeat 97%N 100) = 100.
Proof.
  apply (small_branch_exact_length
           (single_file "notes.txt" (repeat x61 150)) "notes.txt"
           10 100 (repeat x61 150) 0);
    [reflexivity | reflexivity | reflexivity | vm_compute; discriminate].
Defined.

(* ------------------------------------------------------------------ *)
(** * LineCounter *)
(* ------------------------------------------------------------------ *)

Lemma is_newline_byte_eq b : is_newline_byte b = true <-> b = x0a.
Proof.
  split; [|intros ->; reflexivity].
  destruct b; vm_compute; intros H; try discriminate; reflexivity.
Qed.

Lemma count_newlines_app a b :
  count_newlines (a ++ b) = count_newlines a + count_newlines b.
Proof. unfold count_newlines. now rewrite filter_app, len_app. Qed.

Lemma count_newlines_free l : newline_free l -> count_newlines l = 0.
Proof.
  unfold count_newlines, newline_free. induction l as [|b l IH]; intros H.
  - reflexivity.
  - simpl. rewrite (H b (or_introl eq_refl)). apply IH.
    intros c Hc. apply H. now right.
Qed.

Lemma sum_Z_cons x l : sum_Z (x :: l) = x + sum_Z l.
Proof. reflexivity. Qed.

Lemma ztake_cons {A} n (x : A) l : 0 < n -> ztake n (x :: l) = x :: ztake (n - 1) l.
Proof. intros H. simpl. destruct (Z.leb_spec n 0); [lia | reflexivity]. Qed.

Lemma zdrop_cons {A} n (x : A) l : 0 < n -> zdrop n (x :: l) = zdrop (n - 1) l.
Proof. intros H. simpl. destruct (Z.leb_spec n 0); [lia | reflexivity]. Qed.

(** Reading in chunks and summing the per-chunk counts gives the count of
    the whole content. *)
Lemma read_chunks_count n : 0 < n -> forall fuel data,
  (List.length data <= fuel)%nat ->
  sum_Z (map count_newlines (read_chunks fuel n data)) = count_newlines data.
Proof.
  intros Hn. induction fuel as [|fuel IH]; intros data Hfuel.
  - destruct data; [reflexivity | simpl in Hfuel; lia].
  - cbn [read_chunks]. destruct data as [|b data]; [reflexivity|].
    rewrite ztake_cons, zdrop_cons by assumption.
    cbn [map]. rewrite sum_Z_cons, IH.
    + rewrite <- count_newlines_app, <- app_comm_cons. now rewrite ztake_zdrop.
    + rewrite zdrop_skipn, length_skipn. simpl in Hfuel. lia.
Qed.

(** The chunks, put end to end, are the whole content. *)
Lemma read_chunks_concat n : 0 < n -> forall fuel data,
  (List.length data <= fuel)%nat ->
  List.concat (read_chunks fuel n data) = data.
Proof.
  intros Hn. induction fuel as [|fuel IH]; intros data Hfuel.
  - destruct data; [reflexivity | simpl in Hfuel; lia].
  - cbn [read_chunks]. destruct data as [|b data]; [reflexivity|].
    rewrite ztake_cons, zdrop_cons by assumption.
    cbn [List.concat]. rewrite IH.
    + rewrite <- app_comm_cons. now rewrite ztake_zdrop.
    + rewrite zdrop_skipn, length_skipn. simpl in Hfuel. lia.
Qed.

Lemma last_read (content : bytes) b init :
  content = init ++ [b] ->
  ztake 1 (zdrop (len content + -1) content) = [b].
Proof.
  intros ->. rewrite len_app.
  replace (len init + len [b] + -1) with (len init) by (unfold len; simpl; lia).
  now rewrite zdrop_app_exact.
Qed.

(** The line counter on a readable file. *)
Lemma count_lines_readable fs path content t :
  fs path = Some (mk_inode content t Readable) ->
  count_lines_in_file fs path = (Ok (line_total content), []).
Proof.
  intros Hfs. unfold count_lines_in_file, path_stat, open_file, read_at, seek_end.
  rewrite Hfs. cbn -[file_chunks count_newlines Z.add MiB ztake zdrop bytes_eqb len].
  unfold file_chunks. rewrite read_chunks_count by (reflexivity || lia).
  unfold line_total.
  destruct (rev content) as [|b r] eqn:Hrev.
  - apply (f_equal (@rev byte)) in Hrev. rewrite rev_involutive in Hrev.
    subst content. reflexivity.
  - assert (Hc : content = rev r ++ [b]).
    { apply (f_equal (@rev byte)) in Hrev. now rewrite rev_involutive in Hrev. }
    assert (Hlen : len content <> 0).
    { rewrite Hc, len_app. pose proof (len_nonneg (rev r)). unfold len at 2. simpl. lia. }
    destruct (Z.eqb_spec (len content) 0) as [E|_]; [contradiction|].
    cbn -[count_newlines Z.add ztake zdrop bytes_eqb len].
    destruct (Z.ltb_spec (len content + -1) 0) as [E|_].
    { rewrite Hc, len_app in E. pose proof (len_nonneg (rev r)).
      unfold len at 2 in E. simpl in E. lia. }
    cbn -[count_newlines Z.add ztake zdrop bytes_eqb len].
    rewrite (last_read content b (rev r) Hc).
    unfold bytes_eqb.
    destruct (list_eq_dec byte_eq_dec [b] [x0a]) as [E|E].
    + injection E as ->. cbn -[count_newlines]. now rewrite Z.add_0_r.
    + destruct (is_newline_byte b) eqn:Hb.
      * apply is_newline_byte_eq in Hb. subst b. contradiction.
      * reflexivity.
Qed.

Lemma snoc_cases {A} (l : list A) : l = [] \/ exists l' x, l = l' ++ [x].
Proof.
  induction l as [|x l' _] using rev_ind; [now left | right; now exists l', x].
Qed.

Lemma terminated_lines_snoc ls l :
  terminated_lines (ls ++ [l]) = terminated_lines ls ++ l ++ [x0a].
Proof.
  unfold terminated_lines. rewrite map_app, concat_app. simpl.
  now rewrite app_nil_r.
Qed.

Lemma count_newlines_terminated ls :
  Forall newline_free ls -> count_newlines (terminated_lines ls) = len ls.
Proof.
  induction 1 as [|l ls Hl _ IH]; [reflexivity|].
  change (terminated_lines (l :: ls))
    with ((l ++ [x0a]) ++ terminated_lines ls).
  rewrite !count_newlines_app, IH, (count_newlines_free l Hl), len_cons.
  change (count_newlines [x0a]) with 1. lia.
Qed.

Lemma line_total_terminated ls :
  Forall newline_free ls -> line_total (terminated_lines ls) = len ls.
Proof.
  intros H. destruct (snoc_cases ls) as [->|(ls' & l & ->)].
  - reflexivity.
  - unfold line_total.
    rewrite terminated_lines_snoc at 1.
    rewrite app_assoc, rev_app_distr. cbn [rev app is_newline_byte].
    rewrite count_newlines_terminated by assumption.
    change (is_newline_byte x0a) with true. cbv iota. lia.
Qed.

Lemma line_total_stripped ls :
  Forall newline_free ls -> last ls [] <> [] ->
  line_total (removelast (terminated_lines ls)) = len ls.
Proof.
  intros H Hlast. destruct (snoc_cases ls) as [->|(ls' & l & ->)].
  - now contradiction Hlast.
  - rewrite last_last in Hlast.
    apply Forall_app in H. destruct H as [H' Hl].
    apply Forall_inv in Hl.
    rewrite terminated_lines_snoc, !app_assoc, removelast_last.
    destruct (snoc_cases l) as [->|(l' & b & ->)]; [contradiction|].
    unfold line_total. rewrite app_assoc, rev_app_distr. cbn [rev app].
    rewrite <- app_assoc, count_newlines_app.
    rewrite count_newlines_terminated by assumption.
    rewrite (count_newlines_free _ Hl).
    rewrite (Hl b) by (apply in_or_app; right; now left).
    rewrite len_app. change (len [l' ++ [b]]) with 1. lia.
Qed.

Lemma count_lines_empty_file fs path i :
  fs path = Some i -> len (i_content i) = 0 ->
  fst (count_lines_in_file fs path) = Ok 0.
Proof.
  intros Hfs Hlen. destruct i as [content t a]. simpl in Hlen.
  apply len_zero_nil in Hlen. subst content.
  destruct a.
  - now rewrite (count_lines_readable fs path [] t Hfs).
  - unfold count_lines_in_file, open_file. rewrite Hfs. reflexivity.
  - unfold count_lines_in_file, open_file. rewrite Hfs. reflexivity.
Qed.

Lemma sample_empty_file fs path i k m :
  fs path = Some i -> len (i_content i) = 0 ->
  memory_efficient_file_sample fs path k m = (Ok [], []).
Proof.
  intros Hfs Hlen. unfold memory_efficient_file_sample, path_stat.
  rewrite Hfs. cbn -[Z.mul]. now rewrite Hlen.
Qed.

(** C6, as amended.  A file of size 0 has 0 lines and an empty sample.
    Content made of N newline-terminated lines has N lines.  The same
    content without its final newline still has N lines, provided its
    last line is not empty. *)
Theorem count_lines_correct fs path i k m :
  fs path = Some i ->
  (len (i_content i) = 0 ->
   fst (count_lines_in_file fs path) = Ok 0 /\
   memory_efficient_file_sample fs path k m = (Ok [], [])) /\
  (forall ls,
     i_access i = Readable -> Forall newline_free ls ->
     i_content i = terminated_lines ls ->
     count_lines_in_file fs path = (Ok (len ls), [])) /\
  (forall ls,
     i_access i = Readable -> Forall newline_free ls ->
     last ls [] <> [] ->
     i_content i = removelast (terminated_lines ls) ->
     count_lines_in_file fs path = (Ok (len ls), [])).
Proof.
  intros Hfs. split; [|split].
  - intros Hlen. split.
    + now apply count_lines_empty_file with (i := i).
    + now apply sample_empty_file with (i := i).
  - intros ls Ha Hls Hc. destruct i as [content t a]. simpl in *. subst.
    rewrite (count_lines_readable fs path _ t Hfs).
    now rewrite line_total_terminated.
  - intros ls Ha Hls Hlast Hc. destruct i as [content t a]. simpl in *. subst.
    rewrite (count_lines_readable fs path _ t Hfs).
    now rewrite line_total_stripped.
Qed.

Lemma newline_free_ascii_line :
  Forall newline_free [encode_ascii "Line 1"; encode_ascii "Line 2";
                       encode_ascii "Line 3"].
Proof.
  repeat constructor; intros b Hb; simpl in Hb;
    repeat (destruct Hb as [<-|Hb]; [reflexivity|]); contradiction.
Defined.

Lemma count_lines_correct_witness :
  (fst (count_lines_in_file (single_file "empty.txt" []) "empty.txt") = Ok 0 /\
   memory_efficient_file_sample (single_file "empty.txt" []) "empty.txt" 10 5000
   = (Ok [], [])) /\
  count_lines_in_file
    (single_file "lines.txt"
       (terminated_lines [encode_ascii "Line 1"; encode_ascii "Line 2";
                          encode_ascii "Line 3"])) "lines.txt" = (Ok 3, []) /\
  count_lines_in_file
    (single_file "no_final_newline.txt"
       (removelast
          (terminated_lines [encode_ascii "Line 1"; encode_ascii "Line 2";
                             encode_ascii "Line 3"]))) "no_final_newline.txt"
  = (Ok 3, []).
Proof.
  split; [|split].
  - destruct (count_lines_correct (single_file "empty.txt" []) "empty.txt"
                (mk_inode [] 0 Readable) 10 5000 eq_refl) as (H & _ & _).
    apply H. reflexivity.
  - destruct (count_lines_correct
                (single_file "lines.txt"
                   (terminated_lines [encode_ascii "Line 1"; encode_ascii "Line 2";
                                      encode_ascii "Line 3"])) "lines.txt"
                (mk_inode _ 0 Readable) 10 5000 eq_refl) as (_ & H & _).
    apply (H _ eq_refl newline_free_ascii_line eq_refl).
  - destruct (count_lines_correct
                (single_file "no_final_newline.txt"
                   (removelast
                      (terminated_lines [encode_ascii "Line 1"; encode_ascii "Line 2";
                                         encode_ascii "Line 3"])))
                "no_final_newline.txt"
                (mk_inode _ 0 Readable) 10 5000 eq_refl) as (_ & _ & H).
    apply (H _ eq_refl newline_free_ascii_line); [simpl; discriminate | reflexivity].
Defined.

(** C6 as first stated fails when the last line is empty: the line "a"
    followed by an empty line is the content "a\n\n"; without its final
    newline this is "a\n", which the counter reports as one line. *)
Lemma count_lines_stripped_blank_last_line :
  Forall newline_free [[x61]; []] /\
  len [[x61]; @nil byte] = 2 /\
  count_lines_in_file
    (single_file "f.txt" (terminated_lines [[x61]; []])) "f.txt"
  = (Ok 2, []) /\
  count_lines_in_file
    (single_file "f.txt" (removelast (terminated_lines [[x61]; []]))) "f.txt"
  = (Ok 1, []).
Proof.
  repeat split.
  repeat constructor; intros b Hb; simpl in Hb;
    repeat (destruct Hb as [<-|Hb]; [reflexivity|]); contradiction.
Qed.

(* ------------------------------------------------------------------ *)
(** * Sampler: concrete scenarios *)
(* ------------------------------------------------------------------ *)

(** C4.  The file "Line 0\n" ... "Line 99\n" has 790 bytes, fewer than
    twice the budget of 5000, so the sampler takes the small-file branch
    and returns the whole file: the ten named lines are in the result,
    the marker "[content truncated]" is not. *)
Theorem sample_hundred_lines_has_no_marker :
  len hundred_lines = 790 /\
  memory_efficient_file_sample
    (single_file "large.txt" hundred_lines) "large.txt" 5 5000
  = (Ok (text_of hundred_lines), []) /\
  forallb (fun i => contains (lit (String.append "Line " (decimal i)))
                             (text_of hundred_lines))
          [0; 1; 2; 3; 4; 95; 96; 97; 98; 99]%nat = true /\
  contains (lit "[content truncated]") (text_of hundred_lines) = false.
Proof. vm_compute. repeat split. Qed.

(** With a budget small enough for the line-based branch, the same file
    gives the five first lines, the marker, and the five last lines. *)
Lemma sample_hundred_lines_line_branch :
  memory_efficient_file_sample
    (single_file "large.txt" (numbered_lines 100)) "large.txt" 5 100
  = (Ok (text_of (numbered_lines 5) ++ truncation_marker ++
         join_nl (map (fun i => lit (String.append "Line " (decimal i)))
                      (seq 95 5))), []).
Proof. vm_compute. reflexivity. Qed.

(** C5 as first stated fails: a file of 10240 bytes is not below twice a
    budget of 100, so the line-based branch runs.  The result is ten
    lines, the marker and ten lines: 228 characters, not 100. *)
Lemma sample_ten_kb_takes_line_branch :
  len ten_kb_file = 10240 /\
  (len ten_kb_file <? 100 * 2) = false /\
  memory_efficient_file_sample (single_file "big.txt" ten_kb_file) "big.txt"
                               10 100
  = (Ok ten_kb_sample, []) /\
  len ten_kb_sample = 228 /\
  ten_kb_sample <> ztake 100 (text_of ten_kb_file).
Proof. vm_compute. repeat split. discriminate. Qed.

(** C7.  A readable file of 150 bytes with a budget of 100 is in the
    small-file branch.  Its text has 150 characters; the result is the
    first 100 of them and holds no marker: the text was cut, and nothing
    in the result says so. *)
Theorem small_branch_truncates_without_marker :
  (len one_long_line <? 100 * 2) = true /\
  text_of one_long_line = repeat 97%N 150 /\
  memory_efficient_file_sample
    (single_file "notes.txt" one_long_line) "notes.txt" 10 100
  = (Ok (repeat 97%N 100), []) /\
  contains (lit "[content truncated]") (repeat 97%N 100) = false.
Proof. vm_compute. repeat split. Qed.

(* ------------------------------------------------------------------ *)
(** * Decoding and splitting plain ASCII lines *)
(* ------------------------------------------------------------------ *)

Lemma somes_app {A} (a b : list (option A)) : somes (a ++ b) = somes a ++ somes b.
Proof.
  induction a as [|[x|] a IH]; simpl; [reflexivity | now rewrite IH | exact IH].
Qed.

Lemma plain_byte_ascii b : plain_byte b = true -> N.ltb (Byte.to_N b) 128 = true.
Proof.
  unfold plain_byte. intros H.
  apply andb_true_iff in H. destruct H as [H _].
  apply andb_true_iff in H. now destruct H.
Qed.

Lemma plain_byte_not_LF b : plain_byte b = true -> N.eqb (Byte.to_N b) LF = false.
Proof.
  unfold plain_byte. intros H.
  apply andb_true_iff in H. destruct H as [H _].
  apply andb_true_iff in H. destruct H as [_ H].
  now apply negb_true_iff in H.
Qed.

Lemma plain_byte_not_CR b : plain_byte b = true -> N.eqb (Byte.to_N b) CR = false.
Proof.
  unfold plain_byte. intros H.
  apply andb_true_iff in H. destruct H as [_ H].
  now apply negb_true_iff in H.
Qed.

Lemma plain_line_cons b l :
  plain_line (b :: l) <-> plain_byte b = true /\ plain_line l.
Proof. unfold plain_line. simpl. apply andb_true_iff. Qed.

Lemma plain_line_newline_free l : plain_line l -> newline_free l.
Proof.
  unfold plain_line, newline_free. rewrite forallb_forall.
  intros H b Hb. unfold is_newline_byte. apply plain_byte_not_LF. now apply H.
Qed.

Lemma utf8_start_ok n : state_ok (snd (utf8_start n)).
Proof.
  unfold utf8_start.
  repeat match goal with
         | |- context [if ?c then _ else _] => destruct c
         end; simpl; lia.
Qed.

Lemma utf8_step_ok st n : state_ok st -> state_ok (snd (utf8_step st n)).
Proof.
  intros Hst. destruct st as [|need acc lo hi]; simpl.
  - apply utf8_start_ok.
  - destruct (in_range lo hi n).
    + destruct need as [|[|need']]; simpl; lia.
    + pose proof (utf8_start_ok n) as H.
      destruct (utf8_start n) as [out st']. exact H.
Qed.

(** An ASCII byte is decoded to itself whatever sequence was pending. *)
Lemma utf8_step_ascii st n :
  state_ok st -> N.ltb n 128 = true ->
  exists out, utf8_step st n = (out, Start) /\ somes out = [n].
Proof.
  intros Hst Hn. assert (Hs : utf8_start n = ([Some n], Start)).
  { unfold utf8_start. now rewrite Hn. }
  destruct st as [|need acc lo hi]; simpl.
  - exists [Some n]. now rewrite Hs.
  - assert (Hr : in_range lo hi n = false).
    { unfold in_range. apply N.ltb_lt in Hn. simpl in Hst.
      destruct (N.leb_spec lo n); [lia | reflexivity]. }
    rewrite Hr, Hs. exists [None; Some n]. split; reflexivity.
Qed.

Lemma decode_through_ascii_byte b rest : N.ltb (Byte.to_N b) 128 = true ->
  forall pre st, state_ok st ->
  somes (utf8_scan st (pre ++ b :: rest)) =
  somes (utf8_scan st pre) ++ Byte.to_N b :: somes (utf8_scan Start rest).
Proof.
  intros Hb. induction pre as [|x pre IH]; intros st Hst.
  - cbn [app utf8_scan].
    destruct (utf8_step_ascii st _ Hst Hb) as (out & -> & Hout).
    rewrite somes_app, Hout. destruct st; reflexivity.
  - cbn [app utf8_scan].
    pose proof (utf8_step_ok st (Byte.to_N x) Hst) as Hok.
    destruct (utf8_step st (Byte.to_N x)) as [out st'].
    rewrite !somes_app, (IH st' Hok). now rewrite app_assoc.
Qed.

(** Decoding ASCII bytes gives their characters, and leaves the decoder
    at the start of a sequence. *)
Lemma decode_ascii_prefix l rest :
  forallb (fun b => N.ltb (Byte.to_N b) 128) l = true ->
  decode_ignore (l ++ rest) = ascii_text l ++ decode_ignore rest.
Proof.
  unfold decode_ignore. induction l as [|b l IH]; intros H; [reflexivity|].
  simpl in H. apply andb_true_iff in H. destruct H as [Hb Hl].
  cbn [app utf8_scan utf8_step]. unfold utf8_start. rewrite Hb.
  cbn [app somes ascii_text map]. now rewrite IH.
Qed.

Lemma plain_line_is_ascii l :
  plain_line l -> forallb (fun b => N.ltb (Byte.to_N b) 128) l = true.
Proof.
  unfold plain_line. rewrite !forallb_forall. intros H b Hb.
  apply plain_byte_ascii. now apply H.
Qed.

Lemma ascii_text_app a b : ascii_text (a ++ b) = ascii_text a ++ ascii_text b.
Proof. apply map_app. Qed.

Lemma terminated_lines_cons l ls :
  terminated_lines (l :: ls) = l ++ x0a :: terminated_lines ls.
Proof. unfold terminated_lines. simpl. now rewrite <- app_assoc. Qed.

Lemma terminated_lines_app a b :
  terminated_lines (a ++ b) = terminated_lines a ++ terminated_lines b.
Proof. unfold terminated_lines. now rewrite map_app, concat_app. Qed.

Lemma ascii_text_terminated_cons l ls :
  ascii_text (terminated_lines (l :: ls)) =
  ascii_text l ++ LF :: ascii_text (terminated_lines ls).
Proof. now rewrite terminated_lines_cons, ascii_text_app. Qed.

Lemma translate_plain l s :
  plain_line l ->
  translate_newlines false (ascii_text l ++ s) =
  ascii_text l ++ translate_newlines false s.
Proof.
  induction l as [|b l IH]; intros H; [reflexivity|].
  apply plain_line_cons in H. destruct H as [Hb Hl].
  cbn [ascii_text map app translate_newlines].
  rewrite (plain_byte_not_CR b Hb), andb_false_r.
  f_equal. now apply IH.
Qed.

Lemma text_of_plain_line l rest :
  plain_line l ->
  text_of (l ++ x0a :: rest) = ascii_text l ++ LF :: text_of rest.
Proof.
  intros H. unfold text_of.
  rewrite decode_ascii_prefix by now apply plain_line_is_ascii.
  rewrite translate_plain by assumption. reflexivity.
Qed.

Lemma text_of_plain_lines ls rest :
  Forall plain_line ls ->
  text_of (terminated_lines ls ++ rest) =
  ascii_text (terminated_lines ls) ++ text_of rest.
Proof.
  induction 1 as [|l ls Hl _ IH]; [reflexivity|].
  rewrite ascii_text_terminated_cons, terminated_lines_cons.
  rewrite <- !app_assoc, <- app_comm_cons.
  rewrite text_of_plain_line by assumption. now rewrite IH.
Qed.

Lemma readline_plain l rest :
  plain_line l ->
  readline (ascii_text l ++ LF :: rest) = (ascii_text l ++ [LF], rest).
Proof.
  induction l as [|b l IH]; intros H; [reflexivity|].
  apply plain_line_cons in H. destruct H as [Hb Hl].
  cbn [ascii_text map app readline].
  rewrite (plain_byte_not_LF b Hb).
  change (map Byte.to_N l) with (ascii_text l). now rewrite IH.
Qed.

(** Reading as many lines as a block of plain lines holds returns them,
    each with its terminator. *)
Lemma read_first_lines_plain ls rest :
  Forall plain_line ls ->
  read_first_lines (List.length ls) (ascii_text (terminated_lines ls) ++ rest)
  = map (fun l => ascii_text l ++ [LF]) ls.
Proof.
  induction 1 as [|l ls Hl _ IH]; [reflexivity|].
  rewrite ascii_text_terminated_cons.
  cbn [List.length read_first_lines map].
  rewrite <- app_assoc, <- app_comm_cons, readline_plain by assumption.
  replace (truthy (ascii_text l ++ [LF])) with true
    by (destruct (ascii_text l); reflexivity).
  now rewrite IH.
Qed.

Lemma concat_lines_with_terminators ls :
  List.concat (map (fun l => ascii_text l ++ [LF]) ls)
  = ascii_text (terminated_lines ls).
Proof.
  induction ls as [|l ls IH]; [reflexivity|].
  rewrite ascii_text_terminated_cons. cbn [map List.concat].
  now rewrite IH, <- app_assoc.
Qed.

Lemma split_nl_nonempty s : split_nl s <> [].
Proof.
  destruct s as [|c r]; simpl; [discriminate|].
  destruct (N.eqb c LF); [discriminate|].
  destruct (split_nl r); discriminate.
Qed.

(** Splitting distributes over a newline. *)
Lemma split_nl_app x y : split_nl (x ++ LF :: y) = split_nl x ++ split_nl y.
Proof.
  induction x as [|c x IH]; [reflexivity|].
  cbn [app split_nl]. rewrite IH.
  destruct (N.eqb c LF); [reflexivity|].
  pose proof (split_nl_nonempty x) as Hx.
  destruct (split_nl x); [contradiction | reflexivity].
Qed.

Lemma split_nl_plain l : plain_line l -> split_nl (ascii_text l) = [ascii_text l].
Proof.
  induction l as [|b l IH]; intros H; [reflexivity|].
  apply plain_line_cons in H. destruct H as [Hb Hl].
  cbn [ascii_text map split_nl]. rewrite (plain_byte_not_LF b Hb).
  change (map Byte.to_N l) with (ascii_text l). now rewrite IH.
Qed.

Lemma split_nl_plain_lines ls :
  Forall plain_line ls ->
  split_nl (ascii_text (terminated_lines ls)) = map ascii_text ls ++ [[]].
Proof.
  induction 1 as [|l ls Hl _ IH]; [reflexivity|].
  rewrite ascii_text_terminated_cons, split_nl_app, IH.
  now rewrite split_nl_plain.
Qed.

Lemma terminated_lines_ascii ls :
  Forall plain_line ls ->
  forallb (fun b => N.ltb (Byte.to_N b) 128) (terminated_lines ls) = true.
Proof.
  induction 1 as [|l ls Hl _ IH]; [reflexivity|].
  rewrite terminated_lines_cons, forallb_app.
  rewrite plain_line_is_ascii by assumption. simpl. exact IH.
Qed.

(* ------------------------------------------------------------------ *)
(** * The monad on values that return *)
(* ------------------------------------------------------------------ *)

Lemma bind_ret {A B} (a : A) (k : A -> io B) : bind (ret a) k = k a.
Proof. unfold bind, ret. now destruct (k a). Qed.

Lemma try_except_ret {A} (a : A) h : try_except (ret a) h = ret a.
Proof. reflexivity. Qed.

Lemma path_stat_some fs path i :
  fs path = Some i ->
  path_stat fs path = ret (mk_stat (len (i_content i)) (i_mtime i)).
Proof. intros H. unfold path_stat. now rewrite H. Qed.

Lemma open_file_readable fs path content t :
  fs path = Some (mk_inode content t Readable) ->
  open_file fs path = ret (mk_handle content true).
Proof. intros H. unfold open_file. now rewrite H. Qed.

Lemma reading_ok {A} data (v : A) : reading (mk_handle data true) v = ret v.
Proof. reflexivity. Qed.

(* ------------------------------------------------------------------ *)
(** * Sampler: the backward reader *)
(* ------------------------------------------------------------------ *)

(** A blank piece is skipped. *)
Lemma push_lines_blank k rest : 0 < k ->
  push_lines k ([] :: rest) [] = push_lines k rest [].
Proof.
  intros Hk. cbn [push_lines truthy].
  destruct (Z.leb_spec k (len (@nil str))) as [E|_]; [|reflexivity].
  rewrite len_nil in E. lia.
Qed.

(** Non-blank pieces are prepended one by one until the deque holds [k]
    of them; what follows is not visited. *)
Lemma push_lines_fill k : 0 < k -> forall pieces rest acc,
  pieces <> [] -> Forall (fun l => l <> []) pieces ->
  len acc + len pieces = k ->
  push_lines k (pieces ++ rest) acc = rev pieces ++ acc.
Proof.
  intros Hk. induction pieces as [|r pieces IH]; intros rest acc Hne Hall Hlen.
  - contradiction.
  - apply Forall_cons_iff in Hall. destruct Hall as [Hr Hall].
    rewrite len_cons in Hlen. pose proof (len_nonneg pieces) as Hp.
    cbn [app push_lines].
    replace (truthy r) with true by (destruct r; [contradiction | reflexivity]).
    unfold deque_appendleft.
    destruct (Z.leb_spec k 0) as [E|_]; [lia|].
    destruct (Z.ltb_spec (len acc) k) as [_|E]; [|lia].
    rewrite len_cons.
    destruct pieces as [|r' pieces'].
    + rewrite len_nil in Hlen.
      destruct (Z.leb_spec k (len acc + 1)) as [_|E]; [reflexivity | lia].
    + rewrite len_cons in Hlen, Hp.
      destruct (Z.leb_spec k (len acc + 1)) as [E|_].
      { pose proof (len_nonneg pieces'). lia. }
      rewrite IH; [| discriminate | assumption | rewrite !len_cons; lia].
      cbn [rev]. now rewrite <- !app_assoc.
Qed.

(** In general the inner loop puts in front of the deque, in file order,
    as many of the last non-blank pieces as the deque still lacks. *)
Lemma push_lines_spec k : forall reversed_lines acc,
  len acc < k ->
  push_lines k reversed_lines acc =
  rev (firstn (Z.to_nat (k - len acc)) (filter truthy reversed_lines)) ++ acc.
Proof.
  induction reversed_lines as [|r rest IH]; intros acc Hacc.
  - cbn. now rewrite firstn_nil.
  - cbn [push_lines filter]. destruct (truthy r) eqn:Hr.
    + unfold deque_appendleft.
      destruct (Z.leb_spec k 0) as [E|_];
        [pose proof (len_nonneg acc); lia|].
      destruct (Z.ltb_spec (len acc) k) as [_|E]; [|lia].
      rewrite len_cons.
      replace (Z.to_nat (k - len acc)) with (S (Z.to_nat (k - len acc - 1)))
        by (pose proof (len_nonneg acc); lia).
      cbn [firstn rev]. rewrite <- app_assoc. cbn [app].
      destruct (Z.leb_spec k (len acc + 1)) as [E|E].
      * replace (Z.to_nat (k - len acc - 1)) with O by lia. reflexivity.
      * rewrite IH by (rewrite len_cons; lia). rewrite len_cons.
        now replace (k - (len acc + 1)) with (k - len acc - 1) by lia.
    + destruct (Z.leb_spec k (len acc)) as [E|_]; [lia|]. now apply IH.
Qed.

(** The loop stops once enough newlines were seen. *)
Lemma read_backwards_done fuel f k position line_count last_lines :
  k <= line_count ->
  read_backwards fuel f k position line_count last_lines = ret last_lines.
Proof.
  intros H. destruct fuel as [|fuel]; [reflexivity|]. cbn [read_backwards].
  destruct (Z.ltb_spec line_count k) as [E|_]; [lia|].
  now rewrite andb_false_r.
Qed.

(** The loop stops at the start of the file. *)
Lemma read_backwards_start fuel f k position line_count last_lines :
  position <= 0 ->
  read_backwards fuel f k position line_count last_lines = ret last_lines.
Proof.
  intros H. destruct fuel as [|fuel]; [reflexivity|]. cbn [read_backwards].
  destruct (Z.ltb_spec 0 position) as [E|_]; [lia | reflexivity].
Qed.

(** The rounds allotted to the loop are enough: more rounds change
    nothing. *)
Lemma read_backwards_fuel f k : forall fuel1 fuel2 position line_count last_lines,
  (Z.to_nat position <= fuel1)%nat -> (Z.to_nat position <= fuel2)%nat ->
  read_backwards fuel1 f k position line_count last_lines =
  read_backwards fuel2 f k position line_count last_lines.
Proof.
  induction fuel1 as [|fuel1 IH]; intros fuel2 position line_count last_lines H1 H2.
  - rewrite !read_backwards_start by lia. reflexivity.
  - destruct fuel2 as [|fuel2].
    + rewrite !read_backwards_start by lia. reflexivity.
    + cbn [read_backwards].
      destruct (Z.ltb_spec 0 position) as [Hpos|_]; [|reflexivity].
      destruct (Z.ltb_spec line_count k) as [_|_]; [|reflexivity].
      cbn [andb]. unfold read_at, reading.
      destruct (h_ok f); [|reflexivity].
      rewrite !bind_ret. unfold chunk_size. apply IH; lia.
Qed.

(** One round is enough when the final chunk holds [k] newlines. *)
Lemma read_backwards_one_round fuel data k :
  0 < k -> 0 < len data ->
  let read_size := Z.min chunk_size (len data) in
  let lines :=
    split_nl (decode_ignore (ztake read_size (zdrop (len data - read_size) data))) in
  k <= len lines - 1 ->
  read_backwards (S fuel) (mk_handle data true) k (len data) 0 []
  = ret (push_lines k (rev lines) []).
Proof.
  intros Hk Hdata read_size lines Hlines.
  cbn [read_backwards].
  destruct (Z.ltb_spec 0 (len data)) as [_|E]; [|lia].
  destruct (Z.ltb_spec 0 k) as [_|E]; [|lia].
  cbn [andb]. unfold read_at. rewrite reading_ok, bind_ret.
  cbn [h_data]. fold read_size. fold lines.
  apply read_backwards_done. lia.
Qed.

Lemma zdrop_app_le {A} n (a b : list A) :
  n <= len a -> zdrop n (a ++ b) = zdrop n a ++ b.
Proof.
  intros H. rewrite !zdrop_skipn, skipn_app.
  replace (Z.to_nat n - List.length a)%nat with O by (unfold len in H; lia).
  reflexivity.
Qed.

(** The pieces of a final chunk that ends with a block of plain lines
    preceded by a newline. *)
Lemma final_chunk_pieces pre tail :
  Forall plain_line tail ->
  split_nl (decode_ignore (pre ++ x0a :: terminated_lines tail)) =
  split_nl (decode_ignore pre) ++ map ascii_text tail ++ [[]].
Proof.
  intros Htail. unfold decode_ignore.
  rewrite decode_through_ascii_byte by (reflexivity || exact I).
  change (Byte.to_N x0a) with LF. rewrite split_nl_app. f_equal.
  pose proof (decode_ascii_prefix (terminated_lines tail) []
                (terminated_lines_ascii tail Htail)) as H.
  unfold decode_ignore in H. rewrite app_nil_r in H. rewrite H.
  cbn [utf8_scan somes]. rewrite app_nil_r.
  now apply split_nl_plain_lines.
Qed.

Lemma ascii_text_nonempty l : l <> [] -> ascii_text l <> [].
Proof. destruct l; [contradiction | discriminate]. Qed.

(** The backward reader on a file that ends with [k] non-empty plain
    lines which, with the newline before them, fit in the final chunk. *)
Lemma read_backwards_tail before tail k fuel :
  let data := before ++ x0a :: terminated_lines tail in
  Forall plain_line tail -> Forall (fun l => l <> []) tail ->
  0 < k -> len tail = k ->
  len (terminated_lines tail) < chunk_size ->
  read_backwards (S fuel) (mk_handle data true) k (len data) 0 []
  = ret (map ascii_text tail).
Proof.
  intros data Hplain Hne Hk Hlen Hfit.
  assert (Hdata : len data = len before + 1 + len (terminated_lines tail)).
  { unfold data. rewrite len_app, len_cons. lia. }
  pose proof (len_nonneg before) as Hb.
  pose proof (len_nonneg (terminated_lines tail)) as Ht.
  set (read_size := Z.min chunk_size (len data)).
  set (position := len data - read_size).
  assert (Hpos : 0 <= position <= len before) by (unfold position, read_size; lia).
  assert (Hraw : ztake read_size (zdrop position data)
                 = zdrop position before ++ x0a :: terminated_lines tail).
  { unfold data. rewrite zdrop_app_le by lia. apply ztake_all.
    rewrite len_app, len_zdrop, len_cons. unfold position, read_size. lia. }
  assert (Hlines :
    split_nl (decode_ignore (ztake read_size (zdrop position data)))
    = split_nl (decode_ignore (zdrop position before)) ++
      map ascii_text tail ++ [[]]).
  { rewrite Hraw. now apply final_chunk_pieces. }
  rewrite read_backwards_one_round; try lia.
  - fold read_size. fold position. rewrite Hlines.
    rewrite !rev_app_distr. cbn [rev app].
    rewrite push_lines_blank by assumption.
    rewrite push_lines_fill; try assumption.
    + now rewrite rev_involutive, app_nil_r.
    + intros E. apply (f_equal (@rev str)) in E.
      rewrite rev_involutive in E. apply map_eq_nil in E. subst tail.
      rewrite len_nil in Hlen. lia.
    + apply Forall_rev, Forall_map.
      eapply Forall_impl; [|exact Hne]. intros l. apply ascii_text_nonempty.
    + unfold len. rewrite length_rev, length_map. exact Hlen.
  - fold read_size. fold position. rewrite Hlines.
    rewrite !len_app. unfold len at 2 3. rewrite length_map. cbn [List.length].
    fold (len tail).
    pose proof (split_nl_nonempty (decode_ignore (zdrop position before))) as Hx.
    destruct (split_nl (decode_ignore (zdrop position before))) as [|x xs];
      [contradiction|].
    rewrite len_cons. pose proof (len_nonneg xs). lia.
Qed.

Lemma terminated_lines_ends_with_newline ls :
  ls <> [] -> exists before, terminated_lines ls = before ++ [x0a].
Proof.
  intros Hne. destruct (snoc_cases ls) as [->|(ls' & l & ->)]; [contradiction|].
  exists (terminated_lines ls' ++ l).
  now rewrite terminated_lines_snoc, app_assoc.
Qed.

Lemma truthy_map {A B} (f : A -> B) l : truthy (map f l) = truthy l.
Proof. now destruct l. Qed.

Lemma len_map {A B} (f : A -> B) l : len (map f l) = len l.
Proof. unfold len. now rewrite length_map. Qed.

(** The sampler on a file of newline-terminated lines: [k] plain lines,
    then at least one more line, then [k] non-empty plain lines that fit,
    with the newline before them, in the final chunk. *)
Lemma sample_line_branch fs path t k m head middle tail :
  let content := terminated_lines (head ++ middle ++ tail) in
  fs path = Some (mk_inode content t Readable) ->
  Forall plain_line head -> Forall newline_free middle ->
  Forall plain_line tail -> Forall (fun l => l <> []) tail ->
  0 < k -> len head = k -> len tail = k -> middle <> [] ->
  m * 2 <= len content ->
  len (terminated_lines tail) < chunk_size ->
  memory_efficient_file_sample fs path k m =
    (Ok (ascii_text (terminated_lines head) ++ truncation_marker ++
         join_nl (map ascii_text tail)), []).
Proof.
  intros content Hfs Hhead Hmid Htail Hne Hk Hlh Hlt Hmiddle Hbig Hfit.
  assert (Hfree : Forall newline_free (head ++ middle ++ tail)).
  { rewrite !Forall_app. repeat split; try assumption.
    - eapply Forall_impl; [|exact Hhead]. apply plain_line_newline_free.
    - eapply Forall_impl; [|exact Htail]. apply plain_line_newline_free. }
  assert (Htotal : line_total content = len head + len middle + len tail).
  { unfold content. rewrite line_total_terminated by assumption.
    rewrite !len_app. lia. }
  assert (Hcount : count_newlines content = len head + len middle + len tail).
  { unfold content. rewrite count_newlines_terminated by assumption.
    rewrite !len_app. lia. }
  assert (Hsize : 0 < len content).
  { pose proof (len_nonneg middle).
    assert (count_newlines content <= len content).
    { unfold count_newlines, len. pose proof (filter_length_le is_newline_byte content). lia. }
    lia. }
  destruct (terminated_lines_ends_with_newline (head ++ middle))
    as [before Hbefore].
  { intros E. apply app_eq_nil in E. now destruct E. }
  assert (Hsplit : content = before ++ x0a :: terminated_lines tail).
  { unfold content. rewrite app_assoc, terminated_lines_app, Hbefore.
    now rewrite <- app_assoc. }
  assert (Htext : text_of content =
                  ascii_text (terminated_lines head) ++
                  text_of (terminated_lines (middle ++ tail))).
  { unfold content. rewrite terminated_lines_app.
    now apply text_of_plain_lines. }
  unfold memory_efficient_file_sample.
  rewrite (path_stat_some _ _ _ Hfs), bind_ret. cbn [st_size i_content].
  destruct (Z.eqb_spec (len content) 0) as [E|_]; [lia|].
  destruct (Z.ltb_spec (len content) (m * 2)) as [E|_]; [lia|].
  rewrite !(open_file_readable _ _ _ _ Hfs), !bind_ret.
  destruct (Z.ltb_spec 0 k) as [_|E]; [|lia].
  rewrite reading_ok, bind_ret. cbn [h_data].
  destruct (Z.ltb_spec k 0) as [E|_]; [lia|].
  rewrite bind_ret.
  unfold seek_end. cbn [h_data]. rewrite Z.add_0_r.
  destruct (Z.ltb_spec (len content) 0) as [E|_]; [lia|].
  rewrite bind_ret.
  replace (Z.to_nat (len content)) with (S (Z.to_nat (len content - 1))) by lia.
  pose proof (read_backwards_tail before tail k (Z.to_nat (len content - 1))
                Htail Hne Hk Hlt Hfit) as Hback.
  cbv zeta in Hback. rewrite <- Hsplit in Hback.
  rewrite Hback, bind_ret.
  rewrite Htext.
  replace (Z.to_nat k) with (List.length head) by (unfold len in Hlh; lia).
  rewrite read_first_lines_plain by assumption.
  rewrite concat_lines_with_terminators.
  rewrite !truthy_map.
  assert (Hth : truthy head = true)
    by (destruct head; [rewrite len_nil in Hlh; lia | reflexivity]).
  assert (Htt : truthy tail = true)
    by (destruct tail; [rewrite len_nil in Hlt; lia | reflexivity]).
  rewrite Hth, Htt. cbn [andb].
  rewrite (count_lines_readable _ _ _ _ Hfs).
  change (Ok (line_total content), @nil log_record) with (ret (line_total content)).
  rewrite bind_ret, Htotal, len_map.
  pose proof (len_nonneg middle).
  assert (0 < len middle).
  { destruct middle; [contradiction | rewrite len_cons; pose proof (len_nonneg middle); lia]. }
  destruct (Z.ltb_spec (len head) (len head + len middle + len tail)) as [_|E];
    [|lia].
  rewrite bind_ret, try_except_ret. unfold ret.
  now rewrite <- app_assoc.
Qed.

(* ------------------------------------------------------------------ *)
(** * Counting the marker *)
(* ------------------------------------------------------------------ *)

Lemma first_occurrence_unique (c : N) : forall l1 l2 r1 r2,
  ~ In c l1 -> ~ In c l2 -> l1 ++ c :: r1 = l2 ++ c :: r2 -> l1 = l2.
Proof.
  induction l1 as [|x l1 IH]; intros [|y l2] r1 r2 H1 H2 E; simpl in *.
  - reflexivity.
  - injection E as -> _. exfalso. apply H2. now left.
  - injection E as -> _. exfalso. apply H1. now left.
  - injection E as -> E. f_equal. apply (IH l2 r1 r2); tauto.
Qed.

Lemma occurrences_cons needle x hay :
  occurrences needle (x :: hay) =
  ((if starts_with needle (x :: hay) then 1 else 0) + occurrences needle hay)%nat.
Proof. reflexivity. Qed.

Lemma starts_with_false needle s :
  (forall b, s <> needle ++ b) -> starts_with needle s = false.
Proof.
  intros H. destruct (starts_with needle s) eqn:E; [|reflexivity].
  apply starts_with_spec in E. destruct E as [b Hb]. now destruct (H b).
Qed.

(** A text without [c] holds no occurrence of a needle with [c]. *)
Lemma occurrences_lacking c needle : In c needle -> forall hay,
  ~ In c hay -> occurrences needle hay = 0%nat.
Proof.
  intros Hc. induction hay as [|x hay IH]; intros Hhay.
  - simpl. destruct needle; [contradiction | reflexivity].
  - rewrite occurrences_cons, IH by (simpl in Hhay; tauto).
    rewrite starts_with_false; [reflexivity|].
    intros b E. apply Hhay. rewrite E. apply in_or_app. now left.
Qed.

(** Nor does a text in which the only [c] comes too early. *)
Lemma occurrences_short_prefix c p q : ~ In c p -> forall p' rest,
  ~ In c p' -> ~ In c rest -> (List.length p' < List.length p)%nat ->
  occurrences (p ++ c :: q) (p' ++ c :: rest) = 0%nat.
Proof.
  intros Hp. induction p' as [|x p' IH]; intros rest Hp' Hrest Hlen.
  - cbn [app]. rewrite occurrences_cons.
    rewrite (occurrences_lacking c) by (assumption || apply in_or_app; right; now left).
    rewrite starts_with_false; [reflexivity|].
    intros b E. rewrite <- app_assoc in E.
    apply (first_occurrence_unique c [] p) in E; [|tauto|assumption].
    subst p. simpl in Hlen. lia.
  - cbn [app]. rewrite occurrences_cons.
    rewrite IH by (simpl in *; tauto || lia).
    rewrite starts_with_false; [reflexivity|].
    intros b E. rewrite <- app_assoc in E.
    apply (first_occurrence_unique c (x :: p') p) in E; [|assumption|assumption].
    subst p. simpl in Hlen. lia.
Qed.

(** A needle whose character [c] appears nowhere else occurs once. *)
Lemma occurrences_once c p q b : ~ In c p -> ~ In c q -> ~ In c b ->
  forall a, ~ In c a ->
  occurrences (p ++ c :: q) (a ++ (p ++ c :: q) ++ b) = 1%nat.
Proof.
  intros Hp Hq Hb.
  assert (Hqb : ~ In c (q ++ b)).
  { intros H. apply in_app_or in H. tauto. }
  induction a as [|x a IH]; intros Ha.
  - cbn [app]. rewrite <- app_assoc, <- app_comm_cons.
    destruct p as [|y p].
    + cbn [app]. rewrite occurrences_cons.
      rewrite (occurrences_lacking c) by (assumption || now left).
      replace (starts_with (c :: q) (c :: q ++ b)) with true; [reflexivity|].
      symmetry. apply (starts_with_spec (c :: q)). now exists b.
    + cbn [app]. rewrite occurrences_cons.
      change (y :: p ++ c :: q) with ((y :: p) ++ c :: q).
      rewrite (occurrences_short_prefix c (y :: p) q Hp p (q ++ b));
        [| simpl in Hp; tauto | assumption | simpl; lia].
      replace (starts_with ((y :: p) ++ c :: q) (y :: p ++ c :: q ++ b)) with true;
        [reflexivity|].
      symmetry. apply starts_with_spec. exists b.
      now rewrite <- app_assoc.
  - cbn [app]. rewrite occurrences_cons, IH by (simpl in Ha; tauto).
    rewrite starts_with_false; [reflexivity|].
    intros z E.
    assert (E' : ((x :: a) ++ p) ++ c :: (q ++ b) = p ++ c :: (q ++ z)).
    { transitivity ((p ++ c :: q) ++ z); [|now rewrite <- app_assoc].
      rewrite <- E, <- !app_assoc. reflexivity. }
    apply (first_occurrence_unique c) in E'.
    + apply (f_equal (@List.length N)) in E'.
      rewrite length_app in E'. simpl in E'. lia.
    + intros H. apply in_app_or in H. tauto.
    + assumption.
Qed.

Lemma truncation_marker_shape :
  truncation_marker =
  ([LF] ++ lit "..." ++ [LF]) ++ 91%N ::
  (lit "content truncated]" ++ [LF] ++ lit "..." ++ [LF]).
Proof. reflexivity. Qed.

Lemma not_in_check (c : N) s : existsb (N.eqb c) s = false -> ~ In c s.
Proof.
  intros H Hin. assert (E : existsb (N.eqb c) s = true).
  { apply existsb_exists. exists c. split; [assumption | apply N.eqb_refl]. }
  congruence.
Qed.

(** The marker occurs once between texts that hold no '['. *)
Lemma marker_occurs_once a b :
  ~ In 91%N a -> ~ In 91%N b ->
  occurrences truncation_marker (a ++ truncation_marker ++ b) = 1%nat.
Proof.
  intros Ha Hb. rewrite truncation_marker_shape.
  apply occurrences_once; try assumption; now apply not_in_check.
Qed.

Lemma in_terminated_text c ls :
  In c (ascii_text (terminated_lines ls)) ->
  c = LF \/ exists l, In l ls /\ In c (ascii_text l).
Proof.
  induction ls as [|l ls IH]; [contradiction|].
  rewrite ascii_text_terminated_cons. intros H.
  apply in_app_or in H. destruct H as [H|[H|H]].
  - right. exists l. split; [now left | assumption].
  - now left.
  - destruct (IH H) as [E|(l' & Hl' & Hc)]; [now left|].
    right. exists l'. split; [now right | assumption].
Qed.

Lemma in_join_nl c ss :
  In c (join_nl ss) -> c = LF \/ exists s, In s ss /\ In c s.
Proof.
  induction ss as [|s ss IH]; [contradiction|].
  destruct ss as [|s' ss].
  - intros H. right. exists s. split; [now left | assumption].
  - change (join_nl (s :: s' :: ss)) with (s ++ LF :: join_nl (s' :: ss)).
    intros H. apply in_app_or in H. destruct H as [H|[H|H]].
    + right. exists s. split; [now left | assumption].
    + now left.
    + destruct (IH H) as [E|(x & Hx & Hc)]; [now left|].
      right. exists x. split; [now right | assumption].
Qed.

Lemma contains_line_of_block l ls :
  In l ls -> contains (ascii_text l) (ascii_text (terminated_lines ls)) = true.
Proof.
  induction ls as [|x ls IH]; [contradiction|].
  rewrite ascii_text_terminated_cons. intros [->|H].
  - apply contains_app_l, contains_refl.
  - change (ascii_text x ++ LF :: ascii_text (terminated_lines ls))
      with (ascii_text x ++ [LF] ++ ascii_text (terminated_lines ls)).
    apply contains_app_r, contains_app_r. now apply IH.
Qed.

Lemma contains_joined s ss : In s ss -> contains s (join_nl ss) = true.
Proof.
  induction ss as [|x ss IH]; [contradiction|].
  destruct ss as [|x' ss].
  - intros [->|[]]. apply contains_refl.
  - change (join_nl (x :: x' :: ss)) with (x ++ [LF] ++ join_nl (x' :: ss)).
    intros [->|H].
    + apply contains_app_l, contains_refl.
    + apply contains_app_r, contains_app_r. now apply IH.
Qed.

(* ------------------------------------------------------------------ *)
(** * Sampler: the line-based branch *)
(* ------------------------------------------------------------------ *)

Lemma plain_lines_check ls :
  forallb (forallb plain_byte) ls = true -> Forall plain_line ls.
Proof.
  intros H. apply Forall_forall. intros l Hl.
  rewrite forallb_forall in H. now apply H.
Qed.

Lemma nonempty_check (ls : list bytes) :
  forallb truthy ls = true -> Forall (fun l => l <> []) ls.
Proof.
  intros H. apply Forall_forall. intros l Hl.
  rewrite forallb_forall in H. specialize (H l Hl). now destruct l.
Qed.

Lemma lacks_check (c : N) (ls : list bytes) :
  forallb (fun l => negb (existsb (N.eqb c) (ascii_text l))) ls = true ->
  forall l, In l ls -> ~ In c (ascii_text l).
Proof.
  intros H l Hl. rewrite forallb_forall in H. specialize (H l Hl).
  apply not_in_check. now apply negb_true_iff.
Qed.

(** C1 as first stated fails on a file of blank lines.  The file
    "\n\n\n" has three lines, more than twice [k = 1], and its size is
    not below twice the budget of 1.  The backward reader skips blank
    pieces, the tail is empty, and no marker is inserted: the sample is
    "\n". *)
Lemma sample_blank_lines_has_no_marker :
  count_lines_in_file (single_file "blank.txt" blank_lines) "blank.txt"
  = (Ok 3, []) /\
  (len blank_lines <? 1 * 2) = false /\
  memory_efficient_file_sample (single_file "blank.txt" blank_lines)
                               "blank.txt" 1 1
  = (Ok [LF], []) /\
  occurrences truncation_marker [LF] = 0%nat /\
  contains (lit "[content truncated]") [LF] = false.
Proof. vm_compute. repeat split. Qed.

(** With no lines requested nothing is sampled, and there is no marker. *)
Lemma sample_zero_lines_is_empty :
  memory_efficient_file_sample
    (single_file "large.txt" (numbered_lines 100)) "large.txt" 0 100
  = (Ok [], []).
Proof. vm_compute. reflexivity. Qed.

(** A line that crosses the boundary of the final chunk is not read back
    whole.  With [k = 2], the last two lines of [straddling_file] are "D"
    and a line of 4100 characters.  The reader meets the last 4095
    characters of that line in the final chunk and its first five in the
    chunk before, and keeps them as two lines; "D" is not reached. *)
Lemma sample_line_across_chunk_boundary :
  count_lines_in_file (single_file "wide.txt" straddling_file) "wide.txt"
  = (Ok 5, []) /\
  memory_efficient_file_sample (single_file "wide.txt" straddling_file)
                               "wide.txt" 2 10
  = (Ok straddling_sample, []) /\
  contains (repeat 120%N 5 ++ repeat 121%N 4095) straddling_sample = false /\
  contains (lit "D") straddling_sample = false.
Proof. vm_compute. repeat split. Qed.

(* ------------------------------------------------------------------ *)
(** * Classifier *)
(* ------------------------------------------------------------------ *)

Lemma zdrop_zero {A} (l : list A) : zdrop 0 l = l.
Proof. now apply zdrop_none. Qed.

(** Content sniffing never raises and never logs. *)
Lemma sniff_content_total fs path :
  exists b, sniff_content fs path = (Ok b, []).
Proof.
  unfold sniff_content, open_file, read_at, reading.
  destruct (fs path) as [[content t a]|]; [destruct a|]; cbn -[ztake zdrop].
  - destruct (has_null_byte (ztake 4096 (zdrop 0 content))); cbn.
    + now exists false.
    + destruct (decode_strict (ztake 4096 (zdrop 0 content))); cbn.
      * now exists true.
      * now exists false.
  - now exists false.
  - now exists false.
  - now exists false.
Qed.

(** Content sniffing answers [false] on a null byte in the first 4096
    bytes, and on every file it cannot read. *)
Lemma sniff_content_null_byte fs path i :
  fs path = Some i ->
  has_null_byte (ztake 4096 (i_content i)) = true ->
  sniff_content fs path = (Ok false, []).
Proof.
  intros Hfs Hnull. unfold sniff_content, open_file, read_at, reading.
  rewrite Hfs. destruct i as [content t a]. simpl in Hnull.
  destruct a; cbn -[ztake zdrop]; try reflexivity.
  rewrite zdrop_zero, Hnull. reflexivity.
Qed.

Lemma sniff_content_unavailable fs path :
  unavailable fs path -> sniff_content fs path = (Ok false, []).
Proof.
  unfold unavailable, sniff_content, open_file, read_at, reading.
  destruct (fs path) as [[content t a]|]; [|reflexivity].
  destruct a; cbn -[ztake zdrop]; intros H;
    [now contradiction H | reflexivity | reflexivity].
Qed.

Lemma is_text_file_by_content guess_type fs path :
  no_mime_type guess_type path ->
  mem_string (lower (path_suffix path)) text_extensions = false ->
  is_text_file guess_type fs path = sniff_content fs path.
Proof.
  intros [Hg|Hg] Hext; unfold is_text_file; rewrite Hg, ?Hext; reflexivity.
Qed.

(** A MIME type, when the table has one, decides alone. *)
Lemma is_text_file_by_mime_type guess_type fs path mime_type :
  guess_type (path_name path) = Some mime_type ->
  mime_type <> EmptyString ->
  is_text_file guess_type fs path = (Ok (mime_is_text mime_type), []).
Proof.
  intros Hg Hne. unfold is_text_file. rewrite Hg.
  destruct (String.eqb_spec mime_type EmptyString); [contradiction | reflexivity].
Qed.

(** C2, as amended.  When the name has no MIME type and no known text
    extension, a file whose first 4096 bytes hold a null byte is
    classified as not text. *)
Theorem is_text_false_on_null_byte guess_type fs path i :
  fs path = Some i ->
  has_null_byte (ztake 4096 (i_content i)) = true ->
  no_mime_type guess_type path ->
  mem_string (lower (path_suffix path)) text_extensions = false ->
  is_text_file guess_type fs path = (Ok false, []).
Proof.
  intros Hfs Hnull Hmime Hext.
  rewrite is_text_file_by_content by assumption.
  now apply sniff_content_null_byte with (i := i).
Qed.

Lemma is_text_false_on_null_byte_witness :
  is_text_file table_guess_type (single_file "blob" binary_data) "blob"
  = (Ok false, []).
Proof.
  apply (is_text_false_on_null_byte table_guess_type _ "blob"
           (mk_inode binary_data 0 Readable));
    [reflexivity | reflexivity | left; reflexivity | reflexivity].
Defined.

(** C2 as first stated fails: the name is consulted before the content.
    A file named "binary.txt" is text by its MIME type, and by its
    extension where the table has no entry, whatever its bytes. *)
Lemma is_text_true_despite_null_byte :
  has_null_byte (ztake 4096 binary_data) = true /\
  is_text_file table_guess_type (single_file "binary.txt" binary_data)
               "binary.txt" = (Ok true, []) /\
  is_text_file (fun _ => None) (single_file "binary.txt" binary_data)
               "binary.txt" = (Ok true, []).
Proof. vm_compute. repeat split. Qed.

(** C10, as amended.  The classifier never raises, on any path and any
    file system.  When the name has a text MIME type, or has no MIME type
    and a known text extension, the answer is [true] on every file
    system: the file is not consulted, and need not exist. *)
Theorem is_text_total_and_decided_by_name guess_type path :
  (forall fs, exists b, is_text_file guess_type fs path = (Ok b, [])) /\
  (forall mime_type,
     guess_type (path_name path) = Some mime_type ->
     mime_type <> EmptyString -> mime_is_text mime_type = true ->
     forall fs, is_text_file guess_type fs path = (Ok true, [])) /\
  (no_mime_type guess_type path ->
   mem_string (lower (path_suffix path)) text_extensions = true ->
   forall fs, is_text_file guess_type fs path = (Ok true, [])).
Proof.
  split; [|split].
  - intros fs. unfold is_text_file.
    destruct (guess_type (path_name path)) as [mime|].
    + destruct (String.eqb mime EmptyString).
      * destruct (mem_string (lower (path_suffix path)) text_extensions);
          [now exists true | apply sniff_content_total].
      * eexists. reflexivity.
    + destruct (mem_string (lower (path_suffix path)) text_extensions);
        [now exists true | apply sniff_content_total].
  - intros mime Hg Hne Htext fs. unfold is_text_file. rewrite Hg.
    destruct (String.eqb_spec mime EmptyString) as [E|_]; [contradiction|].
    unfold ret. now rewrite Htext.
  - intros [Hg|Hg] Hext fs; unfold is_text_file; rewrite Hg, ?Hext; reflexivity.
Qed.

Lemma is_text_total_and_decided_by_name_witness :
  is_text_file table_guess_type empty_fs "notes.txt" = (Ok true, []) /\
  is_text_file table_guess_type empty_fs "notes.md" = (Ok true, []).
Proof.
  split.
  - destruct (is_text_total_and_decided_by_name table_guess_type "notes.txt")
      as (_ & H & _).
    apply (H "text/plain"%string); [reflexivity | discriminate | reflexivity].
  - destruct (is_text_total_and_decided_by_name table_guess_type "notes.md")
      as (_ & _ & H).
    apply H; [left; reflexivity | reflexivity].
Defined.

(** C10 as first stated fails for a known text extension whose MIME type
    is not a text type: "main.rs" has the extension ".rs" and the type
    application/rls-services+xml, and is classified as not text. *)
Lemma is_text_false_despite_text_extension :
  mem_string (lower (path_suffix "main.rs")) text_extensions = true /\
  table_guess_type (path_name "main.rs")
  = Some "application/rls-services+xml"%string /\
  empty_fs "main.rs"%string = None /\
  is_text_file table_guess_type empty_fs "main.rs" = (Ok false, []).
Proof. vm_compute. repeat split. Qed.

(* ------------------------------------------------------------------ *)
(** * I/O errors *)
(* ------------------------------------------------------------------ *)

Ltac catch_all :=
  match goal with
  | |- context [try_except ?m ?h] =>
      let v := fresh "v" in
      let e := fresh "e" in
      let l := fresh "l" in
      destruct m as [[v|e] l]; cbn; repeat eexists
  end.

Lemma count_lines_total fs path :
  exists n l, count_lines_in_file fs path = (Ok n, l).
Proof. unfold count_lines_in_file. catch_all. Qed.

Lemma sample_total fs path k m :
  exists s l, memory_efficient_file_sample fs path k m = (Ok s, l).
Proof. unfold memory_efficient_file_sample. catch_all. Qed.

Lemma get_file_info_total guess_type fs path :
  exists r l, get_file_info guess_type fs path = (Ok r, l).
Proof. unfold get_file_info. catch_all. Qed.

(** The bounded reader without a size cap. *)
Lemma safe_read_file_uncapped_total fs path :
  exists s l, safe_read_file fs path None = (Ok s, l).
Proof.
  unfold safe_read_file, open_file, reading.
  destruct (fs path) as [[content t a]|]; [destruct a|]; cbn.
  - destruct (text_of_strict content); cbn; repeat eexists.
  - repeat eexists.
  - repeat eexists.
  - repeat eexists.
Qed.

Lemma count_lines_unavailable fs path :
  unavailable fs path ->
  count_lines_in_file fs path =
  (Ok 0, [mk_log WARNING (lit "Error counting lines in " ++ lit path ++
                          lit ": " ++ exn_str (access_error fs path))]).
Proof.
  unfold unavailable, access_error, count_lines_in_file, open_file, reading.
  destruct (fs path) as [[content t a]|]; [|reflexivity].
  destruct a; intros H; [now contradiction H | reflexivity | reflexivity].
Qed.

Lemma safe_read_file_unavailable fs path :
  unavailable fs path ->
  safe_read_file fs path None =
  (Ok (error_placeholder (access_error fs path)),
   [mk_log WARNING (lit "Error reading file " ++ lit path ++
                    lit ": " ++ exn_str (access_error fs path))]).
Proof.
  unfold unavailable, access_error, safe_read_file, open_file, reading.
  destruct (fs path) as [[content t a]|]; [|reflexivity].
  destruct a; intros H; [now contradiction H | reflexivity | reflexivity].
Qed.

Lemma sample_missing fs path k m :
  fs path = None ->
  memory_efficient_file_sample fs path k m =
  (Ok (error_placeholder (no_such_file path)),
   [mk_log WARNING (lit "Error getting file sample from " ++ lit path ++
                    lit ": " ++ exn_str (no_such_file path))]).
Proof.
  intros H. unfold memory_efficient_file_sample, path_stat. now rewrite H.
Qed.

Lemma sample_denied fs path k m i :
  fs path = Some i -> i_access i = NoPermission -> 0 < len (i_content i) ->
  memory_efficient_file_sample fs path k m =
  (Ok (error_placeholder (permission_denied path)),
   [mk_log WARNING (lit "Error getting file sample from " ++ lit path ++
                    lit ": " ++ exn_str (permission_denied path))]).
Proof.
  intros Hfs Ha Hlen. destruct i as [content t a]. simpl in Ha, Hlen. subst a.
  unfold memory_efficient_file_sample, path_stat, open_file. rewrite Hfs.
  cbn -[Z.mul lit app].
  destruct (Z.eqb_spec (len content) 0) as [E|_]; [lia|].
  destruct (len content <? m * 2); reflexivity.
Qed.

Lemma get_file_info_missing guess_type fs path :
  fs path = None ->
  get_file_info guess_type fs path =
  (Ok (ErrorRecord (lit path) (exn_str (no_such_file path))),
   [mk_log WARNING (lit "Error getting file info for " ++ lit path ++
                    lit ": " ++ exn_str (no_such_file path))]).
Proof.
  intros H. unfold get_file_info, path_stat. now rewrite H.
Qed.

(** The bounded reader called with a size cap asks for the size of the
    file, and reads a file larger than the cap, outside any handler. *)
Lemma safe_read_file_capped_missing fs path cap :
  fs path = None ->
  safe_read_file fs path (Some cap) = (Raise (no_such_file path), []).
Proof.
  intros H. unfold safe_read_file, path_stat. now rewrite H.
Qed.

Lemma safe_read_file_capped_denied fs path cap i :
  fs path = Some i -> i_access i = NoPermission -> cap < len (i_content i) ->
  safe_read_file fs path (Some cap) = (Raise (permission_denied path), []).
Proof.
  intros Hfs Ha Hlen. destruct i as [content t a]. simpl in Ha, Hlen. subst a.
  unfold safe_read_file, path_stat, open_file. rewrite Hfs.
  cbn -[lit app]. destruct (Z.ltb_spec cap (len content)); [reflexivity | lia].
Qed.

(** On a readable file larger than the cap it returns the first [cap]
    characters. *)
Lemma safe_read_file_capped_prefix fs path cap content t :
  fs path = Some (mk_inode content t Readable) ->
  0 <= cap < len content ->
  safe_read_file fs path (Some cap) = (Ok (ztake cap (text_of content)), []).
Proof.
  intros Hfs Hcap. unfold safe_read_file, path_stat, open_file, reading, text_read.
  rewrite Hfs. cbn -[text_of ztake].
  destruct (Z.ltb_spec cap (len content)) as [_|E]; [|lia].
  cbn -[text_of ztake].
  destruct (Z.ltb_spec cap 0); [lia | reflexivity].
Qed.

(** C3, as amended.  The line counter, the sampler, the classifier, the
    file-info extractor and the bounded reader called without a size cap
    never raise.  On a path that is missing or cannot be read, the line
    counter logs one warning and returns 0, the uncapped bounded reader
    logs one warning and returns the placeholder, and content sniffing
    returns [false] and logs nothing.  On a missing path the sampler logs
    one warning and returns the placeholder, and the extractor logs one
    warning and returns the error record; the sampler does the same on a
    non-empty file that it may not open. *)
Theorem io_errors_are_contained guess_type fs path k m :
  ((exists n l, count_lines_in_file fs path = (Ok n, l)) /\
   (exists s l, memory_efficient_file_sample fs path k m = (Ok s, l)) /\
   (exists b, is_text_file guess_type fs path = (Ok b, [])) /\
   (exists r l, get_file_info guess_type fs path = (Ok r, l)) /\
   (exists s l, safe_read_file fs path None = (Ok s, l))) /\
  (unavailable fs path ->
   let e := access_error fs path in
   count_lines_in_file fs path =
     (Ok 0, [mk_log WARNING (lit "Error counting lines in " ++ lit path ++
                             lit ": " ++ exn_str e)]) /\
   safe_read_file fs path None =
     (Ok (error_placeholder e),
      [mk_log WARNING (lit "Error reading file " ++ lit path ++
                       lit ": " ++ exn_str e)]) /\
   sniff_content fs path = (Ok false, [])) /\
  (fs path = None ->
   let e := no_such_file path in
   memory_efficient_file_sample fs path k m =
     (Ok (error_placeholder e),
      [mk_log WARNING (lit "Error getting file sample from " ++ lit path ++
                       lit ": " ++ exn_str e)]) /\
   get_file_info guess_type fs path =
     (Ok (ErrorRecord (lit path) (exn_str e)),
      [mk_log WARNING (lit "Error getting file info for " ++ lit path ++
                       lit ": " ++ exn_str e)])) /\
  (forall i,
     fs path = Some i -> i_access i = NoPermission -> 0 < len (i_content i) ->
     memory_efficient_file_sample fs path k m =
       (Ok (error_placeholder (permission_denied path)),
        [mk_log WARNING (lit "Error getting file sample from " ++ lit path ++
                         lit ": " ++ exn_str (permission_denied path))])).
Proof.
  repeat split.
  - apply count_lines_total.
  - apply sample_total.
  - unfold is_text_file.
    destruct (guess_type (path_name path)) as [mime|].
    + destruct (String.eqb mime EmptyString).
      * destruct (mem_string (lower (path_suffix path)) text_extensions);
          [now exists true | apply sniff_content_total].
      * eexists. reflexivity.
    + destruct (mem_string (lower (path_suffix path)) text_extensions);
        [now exists true | apply sniff_content_total].
  - apply get_file_info_total.
  - apply safe_read_file_uncapped_total.
  - now apply count_lines_unavailable.
  - now apply safe_read_file_unavailable.
  - now apply sniff_content_unavailable.
  - now apply sample_missing.
  - now apply get_file_info_missing.
  - intros i. apply sample_denied.
Qed.

Lemma io_errors_are_contained_witness :
  count_lines_in_file empty_fs "gone.txt" =
    (Ok 0, [mk_log WARNING
              (lit "Error counting lines in gone.txt: [Errno 2] No such file or directory: 'gone.txt'")]) /\
  memory_efficient_file_sample empty_fs "gone.txt" 10 5000 =
    (Ok (lit "[Error reading file: [Errno 2] No such file or directory: 'gone.txt']"),
     [mk_log WARNING
        (lit "Error getting file sample from gone.txt: [Errno 2] No such file or directory: 'gone.txt'")]) /\
  memory_efficient_file_sample
    (single_inode "locked.txt" (encode_ascii "secret") NoPermission)
    "locked.txt" 10 5000 =
    (Ok (lit "[Error reading file: [Errno 13] Permission denied: 'locked.txt']"),
     [mk_log WARNING
        (lit "Error getting file sample from locked.txt: [Errno 13] Permission denied: 'locked.txt'")]).
Proof.
  destruct (io_errors_are_contained table_guess_type empty_fs "gone.txt" 10 5000)
    as (_ & Hu & Hm & _).
  destruct (io_errors_are_contained table_guess_type
              (single_inode "locked.txt" (encode_ascii "secret") NoPermission)
              "locked.txt" 10 5000) as (_ & _ & _ & Hd).
  split; [|split].
  - apply Hu. exact I.
  - apply Hm. reflexivity.
  - apply (Hd (mk_inode (encode_ascii "secret") 0 NoPermission));
      [reflexivity | reflexivity | reflexivity].
Defined.

(** C3 as first stated fails twice.  The classifier meets a missing file
    when it sniffs the content of "blob": the error is caught and turned
    into [false], but nothing is logged.  The bounded reader called with
    a size cap asks for the size of the file outside any handler: on a
    missing file the error reaches the caller. *)
Lemma io_error_unlogged_and_propagated :
  open_file empty_fs "blob" = (Raise (no_such_file "blob"), []) /\
  is_text_file table_guess_type empty_fs "blob" = (Ok false, []) /\
  safe_read_file empty_fs "gone.txt" (Some 100)
  = (Raise (no_such_file "gone.txt"), []).
Proof. vm_compute. repeat split. Qed.

(* ------------------------------------------------------------------ *)
(** * ParallelExecutor *)
(* ------------------------------------------------------------------ *)

Section Collect.
Context {R : Type}.
Variable show_progress : bool.
Variable futures : list (outcome R).

(** The loop appends the results of the futures that returned and logs
    one record for each future that raised; it never raises. *)
Lemma collect_spec : forall completion results completed,
  exists completed',
    collect show_progress futures completion results completed =
    (Ok (results ++ completed_results futures completion, completed'),
     failure_records show_progress futures completion).
Proof.
  induction completion as [|i rest IH]; intros results completed.
  - exists completed. cbn. now rewrite app_nil_r.
  - cbn [collect completed_results failure_records flat_map].
    destruct (nth_error futures i) as [[r|e]|].
    + destruct (IH (results ++ [r])
                   (if show_progress then completed + 1 else completed))
        as [c' ->].
      exists c'. now rewrite <- app_assoc.
    + destruct (IH results
                   (if show_progress then completed + 1 else completed))
        as [c' ->].
      exists c'. reflexivity.
    + destruct (IH results completed) as [c' ->].
      exists c'. reflexivity.
Qed.
End Collect.

Lemma default_workers_positive cpu_count :
  match cpu_count with Some n => 0 <= n | None => True end ->
  0 < default_workers cpu_count.
Proof.
  unfold default_workers. destruct cpu_count as [n|]; intros H.
  - destruct (Z.eqb_spec n 0); lia.
  - lia.
Qed.

(** The executor, when its pool can be created. *)
Lemma parallel_process_spec {T R} cpu_count tqdm_installed
      (items : list T) (process_func : T -> outcome R)
      max_workers show_progress completion :
  match cpu_count with Some n => 0 <= n | None => True end ->
  match max_workers with Some n => 0 < n | None => True end ->
  show_progress = false \/ tqdm_installed = true ->
  let futures := map process_func items in
  parallel_process cpu_count tqdm_installed items process_func
                   max_workers show_progress completion
  = (Ok (completed_results futures completion),
     failure_records show_progress futures completion).
Proof.
  intros Hcpu Hworkers Hprogress futures.
  unfold parallel_process.
  replace (show_progress && negb tqdm_installed)%bool with false
    by (destruct Hprogress as [-> | ->];
        [reflexivity | now rewrite andb_false_r]).
  rewrite bind_ret.
  assert (Hpos : 0 < match max_workers with
                     | Some n => n
                     | None => default_workers cpu_count
                     end).
  { destruct max_workers; [assumption | now apply default_workers_positive]. }
  destruct (Z.leb_spec (match max_workers with
                        | Some n => n
                        | None => default_workers cpu_count
                        end) 0) as [E|_]; [lia|].
  rewrite bind_ret. fold futures.
  destruct (collect_spec show_progress futures completion [] 0) as [c' ->].
  cbn. now rewrite app_nil_r.
Qed.

Lemma flat_map_nth_error {A B} (f : option A -> list B) (l : list A) :
  forall before,
  flat_map (fun i => f (nth_error (before ++ l) i))
           (seq (List.length before) (List.length l))
  = flat_map (fun x => f (Some x)) l.
Proof.
  induction l as [|x l IH]; intros before; [reflexivity|].
  cbn [List.length seq flat_map].
  rewrite nth_error_app2, Nat.sub_diag by lia. cbn [nth_error]. f_equal.
  specialize (IH (before ++ [x])).
  rewrite <- app_assoc, length_app in IH. cbn [app List.length] in IH.
  rewrite Nat.add_1_r in IH. exact IH.
Qed.

(** For any items and any operation, when each future completes once the
    results are those of the items on which the operation returns, in
    some order, and the log is one record for each item on which it
    raises, in some order. *)
Lemma parallel_process_general {T R} cpu_count tqdm_installed
      (items : list T) (process_func : T -> outcome R)
      max_workers show_progress completion :
  Permutation completion (seq 0 (List.length items)) ->
  match cpu_count with Some n => 0 <= n | None => True end ->
  match max_workers with Some n => 0 < n | None => True end ->
  show_progress = false \/ tqdm_installed = true ->
  exists results log,
    parallel_process cpu_count tqdm_installed items process_func
                     max_workers show_progress completion
    = (Ok results, log) /\
    Permutation results
      (flat_map (fun x => match process_func x with
                          | Ok r => [r]
                          | Raise _ => []
                          end) items) /\
    Permutation log
      (flat_map (fun x => match process_func x with
                          | Ok _ => []
                          | Raise e =>
                              [mk_log ERROR (failure_message show_progress e)]
                          end) items).
Proof.
  intros Hperm Hcpu Hworkers Hprogress.
  rewrite parallel_process_spec by assumption.
  do 2 eexists. split; [reflexivity|]. split.
  - unfold completed_results.
    etransitivity; [apply Permutation_flat_map, Hperm|].
    pose proof (flat_map_nth_error
                  (fun o : option (outcome R) =>
                     match o with Some (Ok r) => [r] | _ => [] end)
                  (map process_func items) []) as H.
    cbn [app List.length] in H. rewrite length_map in H. rewrite H.
    rewrite flat_map_concat_map, map_map, <- flat_map_concat_map.
    reflexivity.
  - unfold failure_records.
    etransitivity; [apply Permutation_flat_map, Hperm|].
    pose proof (flat_map_nth_error
                  (fun o : option (outcome R) =>
                     match o with
                     | Some (Raise e) =>
                         [mk_log ERROR (failure_message show_progress e)]
                     | _ => []
                     end)
                  (map process_func items) []) as H.
    cbn [app List.length] in H. rewrite length_map in H. rewrite H.
    rewrite flat_map_concat_map, map_map, <- flat_map_concat_map.
    apply Permutation_refl'. apply flat_map_ext.
    intros x. now destruct (process_func x).
Qed.

(** C8.  Over the items 1, 2, 3, 4 with an operation that returns on 1,
    2 and 4 and raises on 3, whatever the order in which the futures
    complete, the executor returns: its results are those of 1, 2 and 4
    in some order, and its log holds one record, for the failure on 3. *)
Theorem parallel_process_isolates_failure {R} cpu_count tqdm_installed
        (op : Z -> outcome R) r1 r2 r4 e max_workers show_progress completion :
  op 1 = Ok r1 -> op 2 = Ok r2 -> op 3 = Raise e -> op 4 = Ok r4 ->
  Permutation completion [0; 1; 2; 3]%nat ->
  match cpu_count with Some n => 0 <= n | None => True end ->
  match max_workers with Some n => 0 < n | None => True end ->
  show_progress = false \/ tqdm_installed = true ->
  exists results,
    parallel_process cpu_count tqdm_installed [1; 2; 3; 4] op
                     max_workers show_progress completion
    = (Ok results, [mk_log ERROR (failure_message show_progress e)]) /\
    Permutation results [r1; r2; r4].
Proof.
  intros H1 H2 H3 H4 Hperm Hcpu Hworkers Hprogress.
  rewrite parallel_process_spec by assumption.
  cbn [map]. rewrite H1, H2, H3, H4.
  eexists. split; [f_equal|].
  - unfold failure_records.
    apply Permutation_length_1_inv.
    apply Permutation_sym.
    etransitivity; [apply Permutation_flat_map, Hperm|].
    cbn. reflexivity.
  - unfold completed_results.
    etransitivity; [apply Permutation_flat_map, Hperm|].
    cbn. reflexivity.
Qed.

Lemma parallel_process_isolates_failure_witness :
  exists results,
    parallel_process (Some 8) false [1; 2; 3; 4] failing_function None false
                     [2; 0; 3; 1]%nat
    = (Ok results,
       [mk_log ERROR (lit "Error in parallel processing: Test error")]) /\
    Permutation results [1; 4; 16].
Proof.
  apply (parallel_process_isolates_failure (Some 8) false failing_function
           1 4 16 (mk_exn ValueError (lit "Test error")) None false
           [2; 0; 3; 1]%nat);
    try reflexivity.
  - change [0; 1; 2; 3]%nat with ([0; 1] ++ 2 :: [3])%nat.
    apply Permutation_cons_app. cbn [app].
    apply perm_skip. apply perm_swap.
  - simpl. lia.
  - now left.
Defined.

(* ------------------------------------------------------------------ *)
(** * BoundedReader: what is read *)
(* ------------------------------------------------------------------ *)

Lemma decode_strict_agrees bs s : decode_strict bs = Some s -> s = decode_ignore bs.
Proof.
  unfold decode_strict, decode_ignore.
  destruct (forallb is_some (utf8_scan Start bs)); [|discriminate].
  now intros [= <-].
Qed.

Lemma text_of_strict_agrees bs s : text_of_strict bs = Some s -> s = text_of bs.
Proof.
  unfold text_of_strict, text_of.
  destruct (decode_strict bs) as [d|] eqn:Hd; [|discriminate].
  intros [= <-]. now rewrite (decode_strict_agrees bs d Hd).
Qed.

Lemma safe_read_file_whole fs path content t :
  fs path = Some (mk_inode content t Readable) ->
  safe_read_file fs path None = (Ok (text_of content), []).
Proof.
  intros Hfs. unfold safe_read_file.
  rewrite !(open_file_readable _ _ _ _ Hfs), bind_ret, reading_ok, bind_ret.
  cbn [h_data].
  destruct (text_of_strict content) as [s|] eqn:Hs.
  - rewrite try_except_ret. now rewrite (text_of_strict_agrees content s Hs).
  - cbn. reflexivity.
Qed.

(** X1.  On every readable file the bounded reader called without a cap
    returns the text of the file decoded leniently, and logs nothing:
    when the bytes are valid UTF-8 the strict read gives that same text,
    and when they are not the second read drops what cannot be
    decoded. *)
Theorem safe_read_file_reads_lenient_text fs path content t :
  fs path = Some (mk_inode content t Readable) ->
  safe_read_file fs path None = (Ok (text_of content), []) /\
  (forall s, text_of_strict content = Some s -> s = text_of content).
Proof.
  intros Hfs. split.
  - now apply safe_read_file_whole with (t := t).
  - apply text_of_strict_agrees.
Qed.

Lemma safe_read_file_reads_lenient_text_witness :
  safe_read_file (single_file "latin1.txt" [x63; x61; x66; xe9; x0d; x0a])
                 "latin1.txt" None
  = (Ok (lit "caf" ++ [LF]), []).
Proof.
  apply (safe_read_file_reads_lenient_text
           (single_file "latin1.txt" [x63; x61; x66; xe9; x0d; x0a])
           "latin1.txt" [x63; x61; x66; xe9; x0d; x0a] 0 eq_refl).
Defined.

(** X2.  On a readable file the bounded reader called with a cap returns
    a prefix of what it returns without one.  When the file has more
    bytes than the cap, the prefix is the first [cap] characters of the
    text; otherwise it is the whole text. *)
Theorem safe_read_file_capped_is_prefix fs path content t cap :
  fs path = Some (mk_inode content t Readable) -> 0 <= cap ->
  exists s rest,
    safe_read_file fs path (Some cap) = (Ok s, []) /\
    text_of content = s ++ rest /\
    (cap < len content -> s = ztake cap (text_of content) /\ len s <= cap) /\
    (len content <= cap -> rest = []).
Proof.
  intros Hfs Hcap.
  destruct (Z.ltb_spec cap (len content)) as [Hlt|Hge].
  - exists (ztake cap (text_of content)), (zdrop cap (text_of content)).
    assert (Hl : len (ztake cap (text_of content)) <= cap)
      by (rewrite len_ztake; lia).
    repeat split; try lia.
    + apply safe_read_file_capped_prefix with (t := t); [assumption | lia].
    + now rewrite ztake_zdrop.
  - exists (text_of content), []. repeat split; try lia.
    + unfold safe_read_file. rewrite (path_stat_some _ _ _ Hfs), bind_ret.
      cbn [st_size i_content].
      destruct (Z.ltb_spec cap (len content)) as [E|_]; [lia|].
      apply (safe_read_file_whole fs path content t Hfs).
    + now rewrite app_nil_r.
Qed.

Lemma safe_read_file_capped_is_prefix_witness :
  exists s,
    safe_read_file (single_file "large.txt" hundred_lines) "large.txt" (Some 100)
    = (Ok s, []) /\
    s = ztake 100 (text_of hundred_lines) /\ len s <= 100.
Proof.
  destruct (safe_read_file_capped_is_prefix
              (single_file "large.txt" hundred_lines) "large.txt"
              hundred_lines 0 100 eq_refl)
    as (s & rest & Hs & _ & Hcut & _); [lia|].
  exists s. split; [exact Hs|]. apply Hcut. reflexivity.
Defined.

(* ------------------------------------------------------------------ *)
(** * LineCounter: the count of any readable file *)
(* ------------------------------------------------------------------ *)

Lemma rev_head_last (l : bytes) b r : rev l = b :: r -> last l x0a = b.
Proof.
  intros H. apply (f_equal (@rev byte)) in H. rewrite rev_involutive in H.
  subst l. cbn [rev]. apply last_last.
Qed.

Lemma line_total_by_last content :
  line_total content =
  count_newlines content +
  (if is_newline_byte (last content x0a) then 0 else 1).
Proof.
  unfold line_total. destruct (rev content) as [|b r] eqn:Hrev.
  - apply (f_equal (@rev byte)) in Hrev. rewrite rev_involutive in Hrev.
    subst content. reflexivity.
  - now rewrite (rev_head_last content b r Hrev).
Qed.

Lemma count_newlines_le content : 0 <= count_newlines content <= len content.
Proof.
  unfold count_newlines, len.
  pose proof (filter_length_le is_newline_byte content). lia.
Qed.

Lemma line_total_bounds content :
  0 <= line_total content <= len content /\
  (content <> [] -> 1 <= line_total content).
Proof.
  rewrite line_total_by_last.
  destruct (snoc_cases content) as [->|(init & b & ->)].
  - cbn. split; [lia | now intros []].
  - rewrite last_last, count_newlines_app, len_app.
    pose proof (count_newlines_le init) as Hi.
    change (len [b]) with 1.
    assert (Hb : count_newlines [b] = if is_newline_byte b then 1 else 0)
      by (unfold count_newlines; cbn [filter]; now destruct (is_newline_byte b)).
    rewrite Hb. destruct (is_newline_byte b); split; intros; lia.
Qed.

(** X3.  On every readable file the line counter returns the number of
    newline bytes, plus one when the file is not empty and its last byte
    is not a newline.  The count lies between 0 and the size of the file,
    and is at least 1 when the file is not empty. *)
Theorem count_lines_is_newlines_plus_open_line fs path content t :
  fs path = Some (mk_inode content t Readable) ->
  exists n,
    count_lines_in_file fs path = (Ok n, []) /\
    n = count_newlines content +
        (if is_newline_byte (last content x0a) then 0 else 1) /\
    0 <= n <= len content /\
    (content <> [] -> 1 <= n).
Proof.
  intros Hfs. exists (line_total content).
  split; [now apply count_lines_readable with (t := t)|].
  split; [apply line_total_by_last|]. apply line_total_bounds.
Qed.

Lemma count_lines_is_newlines_plus_open_line_witness :
  exists n,
    count_lines_in_file
      (single_file "no_final_newline.txt"
                   (encode_ascii "Line 1" ++ [x0a] ++ encode_ascii "Line 2"))
      "no_final_newline.txt" = (Ok n, []) /\
    n = 2.
Proof.
  destruct (count_lines_is_newlines_plus_open_line
              (single_file "no_final_newline.txt"
                           (encode_ascii "Line 1" ++ [x0a] ++ encode_ascii "Line 2"))
              "no_final_newline.txt"
              (encode_ascii "Line 1" ++ [x0a] ++ encode_ascii "Line 2") 0 eq_refl)
    as (n & Hn & Heq & _).
  exists n. split; [exact Hn | exact Heq].
Defined.

Lemma last_app_cons {A} (a : list A) x b d : last (a ++ x :: b) d = last (x :: b) d.
Proof.
  induction a as [|y a IH]; [reflexivity|].
  cbn [app]. change (last (y :: a ++ x :: b) d)
    with (match a ++ x :: b with [] => y | _ => last (a ++ x :: b) d end).
  destruct (a ++ x :: b) eqn:E; [now destruct a | exact IH].
Qed.

Lemma line_total_app a b :
  is_newline_byte (last a x0a) = true ->
  line_total (a ++ b) = line_total a + line_total b.
Proof.
  intros Ha. rewrite !line_total_by_last, Ha, count_newlines_app.
  destruct b as [|x b].
  - rewrite app_nil_r, Ha. cbn. lia.
  - rewrite last_app_cons. lia.
Qed.

(** X4.  Counts add up over concatenation at a line boundary: when a
    readable file is empty or ends in a newline, a file made of its
    content followed by the content of a second file has as many lines as
    the two together. *)
Theorem count_lines_adds_at_line_boundary fs p1 p2 p12 a b t1 t2 t12 :
  fs p1 = Some (mk_inode a t1 Readable) ->
  fs p2 = Some (mk_inode b t2 Readable) ->
  fs p12 = Some (mk_inode (a ++ b) t12 Readable) ->
  is_newline_byte (last a x0a) = true ->
  exists n1 n2,
    count_lines_in_file fs p1 = (Ok n1, []) /\
    count_lines_in_file fs p2 = (Ok n2, []) /\
    count_lines_in_file fs p12 = (Ok (n1 + n2), []).
Proof.
  intros H1 H2 H12 Ha. exists (line_total a), (line_total b).
  rewrite (count_lines_readable _ _ _ _ H1), (count_lines_readable _ _ _ _ H2),
          (count_lines_readable _ _ _ _ H12), (line_total_app a b Ha).
  repeat split.
Qed.

Lemma count_lines_adds_at_line_boundary_witness :
  exists n1 n2,
    count_lines_in_file log_parts "a.log" = (Ok n1, []) /\
    count_lines_in_file log_parts "b.log" = (Ok n2, []) /\
    count_lines_in_file log_parts "ab.log" = (Ok (n1 + n2), []).
Proof.
  apply (count_lines_adds_at_line_boundary log_parts "a.log" "b.log" "ab.log"
           (terminated_lines [encode_ascii "one"; encode_ascii "two"])
           (encode_ascii "three") 0 0 0);
    reflexivity.
Defined.

(* ------------------------------------------------------------------ *)
(** * Classifier: content sniffing *)
(* ------------------------------------------------------------------ *)

(** What content sniffing answers on a readable file. *)
Lemma sniff_content_readable fs path content t :
  fs path = Some (mk_inode content t Readable) ->
  sniff_content fs path =
  (Ok (negb (has_null_byte (ztake 4096 content)) &&
       is_some (decode_strict (ztake 4096 content)))%bool, []).
Proof.
  intros Hfs. unfold sniff_content, read_at.
  rewrite (open_file_readable _ _ _ _ Hfs), bind_ret, reading_ok, bind_ret.
  cbn [h_data]. rewrite zdrop_zero.
  destruct (has_null_byte (ztake 4096 content)); [reflexivity|].
  destruct (decode_strict (ztake 4096 content)); reflexivity.
Qed.

(** X5.  For a name with no MIME type and no known text extension, the
    classifier looks at the first 4096 bytes only: two readable files
    that agree on them are classified alike, whatever follows. *)
Theorem is_text_sees_first_4096_bytes guess_type fs1 fs2 path c1 c2 t1 t2 :
  no_mime_type guess_type path ->
  mem_string (lower (path_suffix path)) text_extensions = false ->
  fs1 path = Some (mk_inode c1 t1 Readable) ->
  fs2 path = Some (mk_inode c2 t2 Readable) ->
  ztake 4096 c1 = ztake 4096 c2 ->
  is_text_file guess_type fs1 path = is_text_file guess_type fs2 path.
Proof.
  intros Hmime Hext H1 H2 Hsame.
  rewrite !is_text_file_by_content by assumption.
  rewrite (sniff_content_readable _ _ _ _ H1), (sniff_content_readable _ _ _ _ H2).
  now rewrite Hsame.
Qed.

Lemma is_text_sees_first_4096_bytes_witness :
  is_text_file table_guess_type
    (single_file "blob" (repeat x61 4096 ++ [x00])) "blob"
  = is_text_file table_guess_type (single_file "blob" (repeat x61 4096)) "blob".
Proof.
  apply (is_text_sees_first_4096_bytes table_guess_type _ _ "blob"
           (repeat x61 4096 ++ [x00]) (repeat x61 4096) 0 0);
    [left; reflexivity | reflexivity | reflexivity | reflexivity |].
  vm_compute. reflexivity.
Defined.

Lemma utf8_scan_ascii l :
  forallb (fun b => N.ltb (Byte.to_N b) 128) l = true ->
  utf8_scan Start l = map (fun b => Some (Byte.to_N b)) l.
Proof.
  induction l as [|b l IH]; intros H; [reflexivity|].
  simpl in H. apply andb_true_iff in H. destruct H as [Hb Hl].
  cbn [utf8_scan utf8_step map]. unfold utf8_start. rewrite Hb.
  cbn [app]. now rewrite IH.
Qed.

Lemma decode_strict_ascii l :
  forallb (fun b => N.ltb (Byte.to_N b) 128) l = true ->
  decode_strict l = Some (ascii_text l).
Proof.
  intros H. unfold decode_strict. rewrite (utf8_scan_ascii l H).
  replace (forallb is_some (map (fun b => Some (Byte.to_N b)) l)) with true.
  - f_equal. unfold ascii_text. induction l as [|b l IH]; [reflexivity|].
    simpl in H. apply andb_true_iff in H. cbn. f_equal. now apply IH.
  - symmetry. apply forallb_forall. intros o Ho.
    apply in_map_iff in Ho. now destruct Ho as (b & <- & _).
Qed.

(** X6.  For such a name, a readable file whose first 4096 bytes are
    7-bit bytes other than the null byte is classified as text.  The
    empty file is one of them. *)
Theorem is_text_true_on_plain_prefix guess_type fs path content t :
  no_mime_type guess_type path ->
  mem_string (lower (path_suffix path)) text_extensions = false ->
  fs path = Some (mk_inode content t Readable) ->
  forallb text_byte (ztake 4096 content) = true ->
  is_text_file guess_type fs path = (Ok true, []).
Proof.
  intros Hmime Hext Hfs Hplain.
  rewrite is_text_file_by_content by assumption.
  rewrite (sniff_content_readable _ _ _ _ Hfs).
  rewrite forallb_forall in Hplain.
  assert (Hnull : has_null_byte (ztake 4096 content) = false).
  { unfold has_null_byte. destruct (existsb _ _) eqn:E; [|reflexivity].
    apply existsb_exists in E. destruct E as (b & Hb & Hz).
    specialize (Hplain b Hb). unfold text_byte in Hplain.
    apply andb_true_iff in Hplain. destruct Hplain as [Hpos _].
    apply N.eqb_eq in Hz. rewrite Hz in Hpos. discriminate. }
  rewrite Hnull, decode_strict_ascii; [reflexivity|].
  apply forallb_forall. intros b Hb. specialize (Hplain b Hb).
  unfold text_byte in Hplain. apply andb_true_iff in Hplain. tauto.
Qed.

Lemma is_text_true_on_plain_prefix_witness :
  is_text_file table_guess_type (single_file "Makefile" []) "Makefile"
  = (Ok true, []) /\
  is_text_file table_guess_type
    (single_file "Makefile" (encode_ascii "all: build")) "Makefile"
  = (Ok true, []).
Proof.
  split.
  - apply (is_text_true_on_plain_prefix table_guess_type _ "Makefile" [] 0);
      [left; reflexivity | reflexivity | reflexivity | reflexivity].
  - apply (is_text_true_on_plain_prefix table_guess_type _ "Makefile"
             (encode_ascii "all: build") 0);
      [left; reflexivity | reflexivity | reflexivity | reflexivity].
Defined.

Lemma utf8_start_bounded n : state_bounded (snd (utf8_start n)).
Proof.
  unfold utf8_start.
  repeat match goal with
         | |- context [if ?c then _ else _] => destruct c
         end; simpl; lia.
Qed.

Lemma utf8_step_bounded st n :
  state_bounded st -> state_bounded (snd (utf8_step st n)).
Proof.
  intros Hst. destruct st as [|need acc lo hi]; simpl.
  - apply utf8_start_bounded.
  - destruct (in_range lo hi n).
    + destruct need as [|[|need']]; simpl; lia.
    + pose proof (utf8_start_bounded n) as H.
      destruct (utf8_start n) as [out st']. exact H.
Qed.

(** A byte of 192 or more starts no sequence that the end of the input
    completes, and continues none. *)
Lemma utf8_scan_high_last_byte b : (192 <= Byte.to_N b)%N ->
  forall pre st, state_bounded st ->
  forallb is_some (utf8_scan st (pre ++ [b])) = false.
Proof.
  intros Hb. induction pre as [|x pre IH]; intros st Hst.
  - cbn [app utf8_scan].
    assert (Hstart : forallb is_some
                       (fst (utf8_start (Byte.to_N b)) ++
                        match snd (utf8_start (Byte.to_N b)) with
                        | Start => []
                        | Pending _ _ _ _ => [None]
                        end) = false).
    { unfold utf8_start.
      destruct (N.ltb_spec (Byte.to_N b) 128); [lia|].
      destruct (in_range 194 223 (Byte.to_N b)); [reflexivity|].
      destruct (N.eqb (Byte.to_N b) 224); [reflexivity|].
      destruct (N.eqb (Byte.to_N b) 237); [reflexivity|].
      destruct (in_range 225 239 (Byte.to_N b)); [reflexivity|].
      destruct (N.eqb (Byte.to_N b) 240); [reflexivity|].
      destruct (N.eqb (Byte.to_N b) 244); [reflexivity|].
      destruct (in_range 241 243 (Byte.to_N b)); reflexivity. }
    destruct st as [|need acc lo hi].
    + cbn [utf8_step]. destruct (utf8_start (Byte.to_N b)) as [out st'].
      exact Hstart.
    + cbn [utf8_step]. simpl in Hst.
      assert (Hr : in_range lo hi (Byte.to_N b) = false).
      { unfold in_range. destruct (N.leb_spec (Byte.to_N b) hi); [lia|].
        apply andb_false_r. }
      rewrite Hr. destruct (utf8_start (Byte.to_N b)) as [out st'].
      reflexivity.
  - cbn [app utf8_scan].
    pose proof (utf8_step_bounded st (Byte.to_N x) Hst) as Hok.
    destruct (utf8_step st (Byte.to_N x)) as [out st'].
    rewrite forallb_app, (IH st' Hok). apply andb_false_r.
Qed.

Lemma ztake_app_one {A} (a : list A) x r :
  ztake (len a + 1) (a ++ x :: r) = a ++ [x].
Proof.
  rewrite ztake_firstn. unfold len.
  replace (Z.to_nat (Z.of_nat (List.length a) + 1)) with (List.length a + 1)%nat
    by lia.
  rewrite firstn_app_2. reflexivity.
Qed.

(** X7.  For a name with no MIME type and no known text extension, a
    readable file whose byte at offset 4095 is 192 or more, such as the
    first byte of a multi-byte character, is classified as not text:
    the 4096-byte prefix is decoded on its own and ends inside a
    character, even when the file as a whole is valid UTF-8. *)
Theorem is_text_false_on_character_cut_at_4096 guess_type fs path before b rest t :
  no_mime_type guess_type path ->
  mem_string (lower (path_suffix path)) text_extensions = false ->
  fs path = Some (mk_inode (before ++ b :: rest) t Readable) ->
  len before = 4095 -> (192 <= Byte.to_N b)%N ->
  is_text_file guess_type fs path = (Ok false, []).
Proof.
  intros Hmime Hext Hfs Hlen Hb.
  rewrite is_text_file_by_content by assumption.
  rewrite (sniff_content_readable _ _ _ _ Hfs).
  replace 4096 with (len before + 1) by lia.
  rewrite ztake_app_one.
  unfold decode_strict.
  rewrite (utf8_scan_high_last_byte b Hb before Start I).
  now rewrite andb_false_r.
Qed.

Lemma is_text_false_on_character_cut_at_4096_witness :
  is_some (decode_strict accent_at_boundary) = true /\
  is_text_file table_guess_type (single_file "notes" accent_at_boundary) "notes"
  = (Ok false, []).
Proof.
  split; [vm_compute; reflexivity|].
  apply (is_text_false_on_character_cut_at_4096 table_guess_type _ "notes"
           (repeat x61 4095) xc3 [xa9] 0);
    [left; reflexivity | reflexivity | reflexivity | reflexivity
    | vm_compute; discriminate].
Defined.

(* ------------------------------------------------------------------ *)
(** * FileInfoExtractor *)
(* ------------------------------------------------------------------ *)

Lemma is_text_file_total guess_type fs path :
  exists b, is_text_file guess_type fs path = (Ok b, []).
Proof.
  unfold is_text_file.
  destruct (guess_type (path_name path)) as [mime|].
  - destruct (String.eqb mime EmptyString).
    + destruct (mem_string (lower (path_suffix path)) text_extensions);
        [now exists true | apply sniff_content_total].
    + eexists. reflexivity.
  - destruct (mem_string (lower (path_suffix path)) text_extensions);
      [now exists true | apply sniff_content_total].
Qed.

Lemma is_text_file_by_name guess_type fs path :
  text_by_name guess_type path ->
  is_text_file guess_type fs path = (Ok true, []).
Proof.
  intros [(mime & Hg & Hne & Htext)|([Hg|Hg] & Hext)]; unfold is_text_file.
  - rewrite Hg. destruct (String.eqb_spec mime EmptyString); [contradiction|].
    unfold ret. now rewrite Htext.
  - rewrite Hg, ?Hext. reflexivity.
  - rewrite Hg, ?Hext. reflexivity.
Qed.

(** X8.  For every path that exists the extractor returns a file record,
    never the error record.  The record holds the size of the file and
    the answer of the classifier; it holds a line count, the one of the
    line counter, exactly when the file is classified as text. *)
Theorem get_file_info_record guess_type fs path i :
  fs path = Some i ->
  exists is_text line_count log,
    get_file_info guess_type fs path =
      (Ok (FileRecord (lit path) (lit (path_name path)) (lit (path_suffix path))
                      (len (i_content i)) is_text (i_mtime i) line_count),
       log) /\
    is_text_file guess_type fs path = (Ok is_text, []) /\
    (is_text = false -> line_count = None /\ log = []) /\
    (is_text = true ->
     exists n, line_count = Some n /\ count_lines_in_file fs path = (Ok n, log)).
Proof.
  intros Hfs.
  destruct (is_text_file_total guess_type fs path) as [b Hb].
  destruct (count_lines_total fs path) as (n & l & Hn).
  unfold get_file_info.
  rewrite (path_stat_some _ _ _ Hfs), bind_ret, Hb.
  change (Ok b, @nil log_record) with (ret b). rewrite bind_ret.
  destruct b.
  - exists true, (Some n), l. rewrite Hn. cbn.
    split; [now rewrite ?app_nil_r|]. split; [reflexivity|]. split.
    + discriminate.
    + intros _. now exists n.
  - exists false, None, []. cbn.
    split; [reflexivity|]. split; [reflexivity|]. split.
    + intros _. now split.
    + discriminate.
Qed.

Lemma get_file_info_record_witness :
  get_file_info table_guess_type (single_file "lines.txt" hundred_lines)
                "lines.txt"
  = (Ok (FileRecord (lit "lines.txt") (lit "lines.txt") (lit ".txt") 790 true 0
                    (Some 100)), []).
Proof.
  destruct (get_file_info_record table_guess_type
              (single_file "lines.txt" hundred_lines) "lines.txt"
              (mk_inode hundred_lines 0 Readable) eq_refl)
    as (b & lc & l & Hinfo & Htext & _ & Hcount).
  assert (Hb : b = true) by (vm_compute in Htext; congruence).
  destruct (Hcount Hb) as (n & Hlc & Hn).
  vm_compute in Hn. injection Hn as <- <-.
  rewrite Hinfo, Hb, Hlc. reflexivity.
Defined.

(** X9.  A file that exists but cannot be read, under a name that alone
    marks it as text, is not reported as an error: the extractor returns
    a record that says text with a line count of 0, and the only trace is
    the warning of the line counter. *)
Theorem get_file_info_hides_unreadable_text guess_type fs path i :
  fs path = Some i -> i_access i <> Readable ->
  text_by_name guess_type path ->
  get_file_info guess_type fs path =
    (Ok (FileRecord (lit path) (lit (path_name path)) (lit (path_suffix path))
                    (len (i_content i)) true (i_mtime i) (Some 0)),
     [mk_log WARNING (lit "Error counting lines in " ++ lit path ++ lit ": " ++
                      exn_str (access_error fs path))]).
Proof.
  intros Hfs Ha Hname.
  assert (Hun : unavailable fs path) by (unfold unavailable; now rewrite Hfs).
  unfold get_file_info.
  rewrite (path_stat_some _ _ _ Hfs), bind_ret.
  rewrite (is_text_file_by_name guess_type fs path Hname).
  change (Ok true, @nil log_record) with (ret true). rewrite bind_ret.
  rewrite (count_lines_unavailable fs path Hun). reflexivity.
Qed.

Lemma get_file_info_hides_unreadable_text_witness :
  get_file_info table_guess_type
    (single_inode "locked.txt" (encode_ascii "secret") NoPermission) "locked.txt"
  = (Ok (FileRecord (lit "locked.txt") (lit "locked.txt") (lit ".txt") 6 true 0
                    (Some 0)),
     [mk_log WARNING
        (lit "Error counting lines in locked.txt: [Errno 13] Permission denied: 'locked.txt'")]).
Proof.
  apply (get_file_info_hides_unreadable_text table_guess_type
           (single_inode "locked.txt" (encode_ascii "secret") NoPermission)
           "locked.txt" (mk_inode (encode_ascii "secret") 0 NoPermission) eq_refl).
  - discriminate.
  - left. exists "text/plain"%string. repeat split. discriminate.
Defined.

(* ------------------------------------------------------------------ *)
(** * ParallelExecutor: every item, once *)
(* ------------------------------------------------------------------ *)

(** X10.  For any items and any operation, when the pool can be created
    and each future completes once, the executor returns: its results
    are, in some order, those of the items on which the operation
    returns, and its log holds, in some order, one error record for each
    item on which the operation raises.  No item is lost and none is
    counted twice. *)
Theorem parallel_process_partitions_items {T R} cpu_count tqdm_installed
        (items : list T) (process_func : T -> outcome R)
        max_workers show_progress completion :
  Permutation completion (seq 0 (List.length items)) ->
  match cpu_count with Some n => 0 <= n | None => True end ->
  match max_workers with Some n => 0 < n | None => True end ->
  show_progress = false \/ tqdm_installed = true ->
  exists results log,
    parallel_process cpu_count tqdm_installed items process_func
                     max_workers show_progress completion
    = (Ok results, log) /\
    Permutation results
      (flat_map (fun x => match process_func x with
                          | Ok r => [r]
                          | Raise _ => []
                          end) items) /\
    Permutation log
      (flat_map (fun x => match process_func x with
                          | Ok _ => []
                          | Raise e =>
                              [mk_log ERROR (failure_message show_progress e)]
                          end) items) /\
    (List.length results + List.length log = List.length items)%nat.
Proof.
  intros Hperm Hcpu Hworkers Hprogress.
  destruct (parallel_process_general cpu_count tqdm_installed items process_func
              max_workers show_progress completion Hperm Hcpu Hworkers Hprogress)
    as (results & log & Hrun & Hres & Hlog).
  exists results, log. repeat split; try assumption.
  rewrite (Permutation_length Hres), (Permutation_length Hlog).
  clear. induction items as [|x items IH]; [reflexivity|].
  cbn [flat_map]. rewrite !length_app.
  destruct (process_func x); cbn [List.length]; lia.
Qed.

Lemma parallel_process_partitions_items_witness :
  exists results log,
    parallel_process (Some 8) true [1; 2; 3; 4] failing_function (Some 2) true
                     [3; 1; 0; 2]%nat
    = (Ok results, log) /\
    Permutation results [1; 4; 16] /\
    Permutation log [mk_log ERROR (lit "Error processing item: Test error")].
Proof.
  destruct (parallel_process_partitions_items (Some 8) true [1; 2; 3; 4]
              failing_function (Some 2) true [3; 1; 0; 2]%nat)
    as (results & log & Hrun & Hres & Hlog & _).
  - change (seq 0 (List.length [1; 2; 3; 4])) with ([0; 1; 2] ++ 3 :: [])%nat.
    apply Permutation_cons_app. cbn [app].
    change [0; 1; 2]%nat with ([0] ++ 1 :: [2])%nat.
    apply Permutation_cons_app. cbn [app]. apply Permutation_refl.
  - simpl. lia.
  - simpl. lia.
  - now right.
  - exists results, log. repeat split; assumption.
Defined.

Lemma collect_counts {R} (futures : list (outcome R)) : forall completion results completed,
  Forall (fun i => (i < List.length futures)%nat) completion ->
  exists results' log,
    collect true futures completion results completed
    = (Ok (results', completed + len completion), log).
Proof.
  induction completion as [|i rest IH]; intros results completed Hvalid.
  - exists results, []. cbn. now rewrite Z.add_0_r.
  - apply Forall_cons_iff in Hvalid. destruct Hvalid as [Hi Hrest].
    cbn [collect]. rewrite len_cons.
    destruct (nth_error futures i) as [[r|e]|] eqn:Hnth.
    + destruct (IH (results ++ [r]) (completed + 1) Hrest) as (r' & l & ->).
      exists r', l. f_equal. f_equal. f_equal. lia.
    + destruct (IH results (completed + 1) Hrest) as (r' & l & ->).
      eexists r', _. cbn. f_equal. f_equal. f_equal. lia.
    + apply nth_error_None in Hnth. lia.
Qed.

(** X11.  With progress tracking, the progress count advances once for
    each future that completes, whether it returned or raised: when each
    future completes once, the loop ends with the count at the number of
    items. *)
Theorem progress_advances_once_per_item {T R} (items : list T)
        (process_func : T -> outcome R) completion :
  Permutation completion (seq 0 (List.length items)) ->
  exists results log,
    collect true (map process_func items) completion [] 0
    = (Ok (results, len items), log).
Proof.
  intros Hperm.
  destruct (collect_counts (map process_func items) completion [] 0)
    as (results & log & Hrun).
  - apply Forall_forall. intros i Hi.
    apply (Permutation_in _ Hperm) in Hi. apply in_seq in Hi.
    rewrite length_map. lia.
  - exists results, log. rewrite Hrun. do 3 f_equal.
    unfold len. rewrite (Permutation_length Hperm), length_seq. lia.
Qed.

Lemma progress_advances_once_per_item_witness :
  exists results log,
    collect true (map failing_function [1; 2; 3; 4]) [3; 1; 0; 2]%nat [] 0
    = (Ok (results, 4), log).
Proof.
  apply (progress_advances_once_per_item [1; 2; 3; 4] failing_function
           [3; 1; 0; 2]%nat).
  change (seq 0 (List.length [1; 2; 3; 4])) with ([0; 1; 2] ++ 3 :: [])%nat.
  apply Permutation_cons_app. cbn [app].
  change [0; 1; 2]%nat with ([0] ++ 1 :: [2])%nat.
  apply Permutation_cons_app. cbn [app]. apply Permutation_refl.
Defined.

(* ------------------------------------------------------------------ *)
(** * Sampler: the line branch on any readable file *)
(* ------------------------------------------------------------------ *)





Lemma split_nl_pieces s : Forall (fun l => ~ In LF l) (split_nl s).
Proof.
  induction s as [|c r IH]; [repeat constructor; intros []|].
  cbn [split_nl]. destruct (N.eqb_spec c LF) as [->|Hc].
  - constructor; [intros [] | exact IH].
  - destruct (split_nl r) as [|p ps].
    + repeat constructor. intros [E|[]]. now apply Hc.
    + apply Forall_cons_iff in IH. destruct IH as [Hp Hps].
      constructor; [|exact Hps]. intros [E|Hin]; [now apply Hc | now apply Hp].
Qed.











(** X14.  With [sample_lines = 0], a readable file that takes the line
    branch ([max_size * 2 <= size]) is sampled as the empty string, with
    nothing logged, whatever it holds. *)
Theorem sample_of_zero_lines fs path content t m :
  fs path = Some (mk_inode content t Readable) ->
  m * 2 <= len content ->
  memory_efficient_file_sample fs path 0 m = (Ok [], []).
Proof.
  intros Hfs Hbig. pose proof (len_nonneg content) as Hsize.
  unfold memory_efficient_file_sample.
  rewrite (path_stat_some _ _ _ Hfs), bind_ret. cbn [st_size i_content].
  destruct (Z.eqb_spec (len content) 0) as [_|Hne]; [reflexivity|].
  destruct (Z.ltb_spec (len content) (m * 2)) as [E|_]; [lia|].
  rewrite !(open_file_readable _ _ _ _ Hfs), !bind_ret.
  change (0 <? 0) with false. cbv iota. rewrite !bind_ret.
  unfold seek_end. cbn [h_data]. rewrite Z.add_0_r.
  destruct (Z.ltb_spec (len content) 0) as [E|_]; [lia|].
  rewrite bind_ret, read_backwards_done by lia.
  reflexivity.
Qed.

Lemma sample_of_zero_lines_witness :
  memory_efficient_file_sample
    (single_file "large.txt" hundred_lines) "large.txt" 0 100 = (Ok [], []).
Proof.
  apply (sample_of_zero_lines (single_file "large.txt" hundred_lines)
           "large.txt" hundred_lines 0);
    [reflexivity | vm_compute; discriminate].
Defined.



(* ------------------------------------------------------------------ *)
(** * Logging setup *)
(* ------------------------------------------------------------------ *)

Lemma log_level_eqb_eq a b : log_level_eqb a b = true <-> a = b.
Proof. destruct a, b; cbn; split; (reflexivity || discriminate). Qed.

Lemma option_eqb_eq {A} (eqb : A -> A -> bool) :
  (forall x y, eqb x y = true <-> x = y) ->
  forall a b, option_eqb eqb a b = true <-> a = b.
Proof.
  intros Heq [x|] [y|]; cbn; try (split; (reflexivity || discriminate)).
  rewrite Heq. split; [now intros -> | now intros [= ->]].
Qed.

Lemma handler_target_eqb_eq a b : handler_target_eqb a b = true <-> a = b.
Proof.
  destruct a as [|p], b as [|q]; cbn; try (split; (reflexivity || discriminate)).
  rewrite String.eqb_eq. split; [now intros -> | now intros [= ->]].
Qed.

Lemma handler_eqb_eq a b : handler_eqb a b = true <-> a = b.
Proof.
  unfold handler_eqb. rewrite !andb_true_iff, handler_target_eqb_eq.
  rewrite (option_eqb_eq _ log_level_eqb_eq), (option_eqb_eq _ String.eqb_eq).
  destruct a, b; cbn. split.
  - now intros [[-> ->] ->].
  - now intros [= -> -> ->].
Qed.

Lemma remove_handler_present h : forall hs,
  In h hs -> Permutation hs (h :: remove_handler h hs).
Proof.
  induction hs as [|x rest IH]; [contradiction|]. intros Hin.
  cbn [remove_handler]. destruct (handler_eqb h x) eqn:E.
  - apply handler_eqb_eq in E. now subst x.
  - destruct Hin as [->|Hin].
    + assert (handler_eqb h h = true) by now apply handler_eqb_eq.
      congruence.
    + eapply Permutation_trans; [|apply perm_swap].
      now apply perm_skip, IH.
Qed.

Lemma remove_handlers_of_copy : forall copy hs,
  Permutation hs copy ->
  fold_left (fun remaining h => remove_handler h remaining) copy hs = [].
Proof.
  induction copy as [|h copy IH]; intros hs Hperm.
  - now apply Permutation_sym, Permutation_nil in Hperm.
  - cbn [fold_left]. apply IH.
    assert (Hin : In h hs).
    { apply (Permutation_in _ (Permutation_sym Hperm)). now left. }
    apply (Permutation_cons_inv (a := h)).
    eapply Permutation_trans; [|exact Hperm].
    apply Permutation_sym. now apply remove_handler_present.
Qed.

(** The loop over a copy of the handlers leaves none. *)
Lemma remove_all_handlers_clears hs : remove_all_handlers hs = [].
Proof. apply remove_handlers_of_copy, Permutation_refl. Qed.

(** What a call returns, from any state. *)
Lemma setup_logging_result file_handler_error (verbose : bool) log_file st :
  let lvl := if verbose then DEBUG else INFO in
  let console := mk_handler Console (Some lvl) (Some log_format) in
  let handlers_log : list handler * list log_record :=
    match log_file with
    | Some (String c name) =>
        let f := String c name in
        match file_handler_error f with
        | None => ([console; mk_handler (LogFile f) (Some lvl) (Some log_format)],
                   [])
        | Some e => ([console],
                     [mk_log WARNING (lit "Unable to create log file at " ++
                                      lit f ++ lit ": " ++ exn_str e)])
        end
    | _ => ([console], [])
    end in
  let levels := set_logger_level "llm_cartographer" lvl (logger_levels st) in
  setup_logging file_handler_error verbose log_file st =
  (Ok (mk_logging lvl (fst handlers_log)
         (if negb verbose
          then fold_left (fun levels name => set_logger_level name WARNING levels)
                         library_loggers levels
          else levels)),
   snd handlers_log).
Proof.
  unfold setup_logging, new_file_handler, add_handler.
  rewrite remove_all_handlers_clears.
  destruct log_file as [[|c name]|]; [reflexivity | | reflexivity].
  destruct (file_handler_error (String c name)); reflexivity.
Qed.

(** X16.  Setting up logging never raises, whatever handlers the root
    logger had, and leaves it with one or two handlers, all at the chosen
    level.  Doing it again with the same arguments changes nothing: the
    handlers do not pile up. *)
Theorem setup_logging_idempotent file_handler_error verbose log_file st :
  exists st' log,
    setup_logging file_handler_error verbose log_file st = (Ok st', log) /\
    1 <= len (root_handlers st') <= 2 /\
    Forall (fun h => hd_level h = Some (if verbose then DEBUG else INFO))
           (root_handlers st') /\
    exists st'',
      setup_logging file_handler_error verbose log_file st' = (Ok st'', log) /\
      same_logging st'' st'.
Proof.
  pose proof (setup_logging_result file_handler_error verbose log_file st)
    as Hfirst.
  cbv zeta in Hfirst.
  eexists _, _. split; [exact Hfirst|].
  split; [|split].
  - cbn [root_handlers].
    destruct log_file as [[|c name]|]; try (vm_compute; split; discriminate).
    destruct (file_handler_error (String c name));
      vm_compute; split; discriminate.
  - cbn [root_handlers].
    destruct log_file as [[|c name]|]; try (repeat constructor).
    destruct (file_handler_error (String c name)); repeat constructor.
  - eexists. split; [apply setup_logging_result|].
    unfold same_logging. cbn [root_level root_handlers logger_levels].
    split; [reflexivity|]. split; [reflexivity|].
    intros name. destruct verbose; cbn [negb library_loggers fold_left];
      unfold set_logger_level;
      repeat match goal with
             | |- context [String.eqb name ?s] => destruct (String.eqb name s)
             end; reflexivity.
Qed.

(** X17.  Library loggers silenced by a call without [verbose] stay at
    WARNING after a later call with [verbose]: that call raises the root
    logger and the module's logger to DEBUG and touches no other logger. *)
Theorem verbose_setup_keeps_library_loggers_quiet
        file_handler_error log_file1 log_file2 st :
  exists st1 log1 st2 log2,
    setup_logging file_handler_error false log_file1 st = (Ok st1, log1) /\
    setup_logging file_handler_error true log_file2 st1 = (Ok st2, log2) /\
    root_level st2 = DEBUG /\
    logger_levels st2 "llm_cartographer" = Some DEBUG /\
    (forall name, In name library_loggers ->
                  logger_levels st2 name = Some WARNING) /\
    (forall name, name <> "llm_cartographer"%string ->
                  logger_levels st2 name = logger_levels st1 name).
Proof.
  eexists _, _, _, _.
  split; [apply setup_logging_result|].
  split; [apply setup_logging_result|].
  cbn [root_level logger_levels negb library_loggers fold_left].
  split; [reflexivity|]. split; [reflexivity|]. split.
  - intros name [<-|[<-|[<-|[]]]]; reflexivity.
  - intros name Hname. unfold set_logger_level at 1.
    now rewrite (proj2 (String.eqb_neq _ _) Hname).
Qed.

(** X18.  A log file that cannot be opened does not stop the setup: the
    error is reported in one warning and the root logger is left with the
    console handler alone. *)
Theorem setup_logging_survives_bad_log_file
        file_handler_error (verbose : bool) log_file e st :
  log_file <> ""%string ->
  file_handler_error log_file = Some e ->
  exists st',
    setup_logging file_handler_error verbose (Some log_file) st
    = (Ok st', [mk_log WARNING (lit "Unable to create log file at " ++
                                lit log_file ++ lit ": " ++ exn_str e)]) /\
    root_level st' = (if verbose then DEBUG else INFO) /\
    root_handlers st' =
      [mk_handler Console (Some (if verbose then DEBUG else INFO))
                  (Some log_format)].
Proof.
  intros Hname Herr.
  pose proof (setup_logging_result file_handler_error verbose (Some log_file) st)
    as Hrun.
  cbv zeta in Hrun.
  destruct log_file as [|c name]; [contradiction|].
  rewrite Herr in Hrun. cbn [fst snd] in Hrun.
  eexists. split; [exact Hrun|]. split; reflexivity.
Qed.

Lemma setup_logging_survives_bad_log_file_witness :
  exists st',
    setup_logging no_var_log true (Some "/var/log/cartographer.log"%string)
                  fresh_logging
    = (Ok st', [mk_log WARNING
                  (lit "Unable to create log file at /var/log/cartographer.log: [Errno 13] Permission denied: '/var/log/cartographer.log'")]) /\
    root_level st' = DEBUG /\
    root_handlers st' = [mk_handler Console (Some DEBUG) (Some log_format)].
Proof.
  apply (setup_logging_survives_bad_log_file no_var_log true
           "/var/log/cartographer.log"
           (permission_denied "/var/log/cartographer.log") fresh_logging);
    [discriminate | reflexivity].
Defined.

(* ------------------------------------------------------------------ *)
(** * Configuration *)
(* ------------------------------------------------------------------ *)

Lemma mem_string_In s l : mem_string s l = true <-> In s l.
Proof.
  unfold mem_string. rewrite existsb_exists. split.
  - intros (x & Hin & E). apply String.eqb_eq in E. now subst x.
  - intros Hin. exists s. split; [assumption | apply String.eqb_refl].
Qed.

Lemma normalize_extension_dotted ext :
  String.prefix "." (Config.normalize_extension ext) = true.
Proof.
  unfold Config.normalize_extension.
  destruct (String.prefix "." ext) eqn:E; [exact E|].
  cbn. destruct (ascii_dec "." "."); [now destruct ext | contradiction].
Qed.

Lemma normalize_extension_fixed exts :
  Forall (fun e => String.prefix "." e = true) exts ->
  map Config.normalize_extension exts = exts.
Proof.
  induction 1 as [|e exts He _ IH]; [reflexivity|].
  cbn [map]. unfold Config.normalize_extension at 1. now rewrite He, IH.
Qed.

Lemma set_comprehension_dotted exts :
  Forall (fun e => String.prefix "." e = true)
         (Config.set_comprehension Config.normalize_extension exts).
Proof.
  apply Forall_forall. intros e Hin.
  apply nodup_In, in_map_iff in Hin. destruct Hin as (x & <- & _).
  apply normalize_extension_dotted.
Qed.

Lemma set_comprehension_truthy f exts :
  truthy (Config.set_comprehension f exts) = truthy exts.
Proof.
  destruct exts as [|x exts]; [reflexivity|].
  destruct (Config.set_comprehension f (x :: exts)) as [|y ys] eqn:E;
    [|reflexivity].
  assert (Hin : In (f x) (Config.set_comprehension f (x :: exts)))
    by (apply nodup_In; now left).
  rewrite E in Hin. contradiction.
Qed.

(** The outcome of the constructor when the directory resolves and the
    cache directory can be made. *)
Lemma post_init_outcome to_path resolve mkdir cpu_count self d :
  Config.resolve_directory resolve self = (Ok d, []) ->
  mkdir (Config.cache_path to_path self) = None ->
  Config.post_init to_path resolve mkdir cpu_count self =
  if negb (mem_string (Config.mode self) Config.ANALYSIS_MODES)
  then (Raise (Config.invalid_mode (Config.mode self)), [])
  else if negb ((0 <=? Config.reasoning self) &&
                (Config.reasoning self <=? 9))%bool
  then (Raise (Config.invalid_reasoning (Config.reasoning self)), [])
  else if negb (mem_string (Config.diagram_format self) Config.DIAGRAM_FORMATS)
  then (Raise (Config.invalid_diagram_format (Config.diagram_format self)), [])
  else
    (Ok (Config.mk_config
           d
           (Config.exclude_patterns self) (Config.max_files self)
           (Config.max_file_size self) (Config.max_map_tokens self)
           match Config.output_path self with
           | Some (Config.StrPath s) => Some (Config.PathObj (to_path s))
           | other => other
           end
           (Config.model_name self) (Config.follow_symlinks self)
           (Config.PathObj (Config.cache_path to_path self))
           (Config.json_format self)
           match Config.filter_extensions self with
           | Some exts =>
               if truthy exts
               then Some (Config.set_comprehension
                            Config.normalize_extension exts)
               else Some exts
           | None => None
           end
           (Config.mode self) (Config.focus self) (Config.reasoning self)
           (Config.visual self) (Config.diagram_format self)
           (Config.parallel self)
           match Config.max_workers self with
           | None => Some (default_workers cpu_count)
           | Some n => Some n
           end
           (Config.verbose self) (Config.log_file self)), []).
Proof.
  intros Hdir Hmkdir. unfold Config.post_init. rewrite Hdir, Hmkdir.
  destruct (mem_string (Config.mode self) Config.ANALYSIS_MODES);
    [|reflexivity].
  destruct ((0 <=? Config.reasoning self) && (Config.reasoning self <=? 9))%bool;
    [|reflexivity].
  destruct (mem_string (Config.diagram_format self) Config.DIAGRAM_FORMATS);
    reflexivity.
Qed.

(** Resolving the directory logs nothing, and what it returns is a
    [Path]. *)
Lemma resolve_directory_cases resolve self :
  (exists e, Config.resolve_directory resolve self = (Raise e, [])) \/
  (exists p, Config.resolve_directory resolve self
             = (Ok (Config.PathObj p), [])).
Proof.
  unfold Config.resolve_directory.
  destruct (Config.directory self) as [s|p].
  - destruct (resolve s) as [q|e]; [right; now exists q | left; now exists e].
  - right. now exists p.
Qed.

(** X19.  Constructing a configuration raises what resolving a directory
    given as a string raises, and otherwise what creating the cache
    directory raises.  When both succeed, it succeeds exactly when the
    mode, the reasoning depth and the diagram format are all valid, and
    otherwise raises for the first of the three, in that order, that is
    not: an invalid mode is reported whatever the other two are. *)
Theorem config_is_validated to_path resolve mkdir cpu_count self :
  let run := Config.post_init to_path resolve mkdir cpu_count self in
  let valid_mode := In (Config.mode self) Config.ANALYSIS_MODES in
  let valid_reasoning := 0 <= Config.reasoning self <= 9 in
  let valid_format := In (Config.diagram_format self) Config.DIAGRAM_FORMATS in
  (forall e, Config.resolve_directory resolve self = (Raise e, []) ->
             run = (Raise e, [])) /\
  (forall d e, Config.resolve_directory resolve self = (Ok d, []) ->
               mkdir (Config.cache_path to_path self) = Some e ->
               run = (Raise e, [])) /\
  (forall d, Config.resolve_directory resolve self = (Ok d, []) ->
             mkdir (Config.cache_path to_path self) = None ->
     ((exists c, run = (Ok c, [])) <->
      valid_mode /\ valid_reasoning /\ valid_format) /\
     (~ valid_mode ->
      run = (Raise (Config.invalid_mode (Config.mode self)), [])) /\
     (valid_mode -> ~ valid_reasoning ->
      run = (Raise (Config.invalid_reasoning (Config.reasoning self)), [])) /\
     (valid_mode -> valid_reasoning -> ~ valid_format ->
      run = (Raise (Config.invalid_diagram_format
                      (Config.diagram_format self)), []))).
Proof.
  intros run valid_mode valid_reasoning valid_format.
  split; [|split].
  - intros e Hdir. unfold run, Config.post_init. now rewrite Hdir.
  - intros d e Hdir Hmkdir. unfold run, Config.post_init.
    now rewrite Hdir, Hmkdir.
  - intros d Hdir Hmkdir.
    unfold run. rewrite (post_init_outcome _ _ _ _ _ _ Hdir Hmkdir).
    unfold valid_mode, valid_reasoning, valid_format.
    rewrite <- !mem_string_In.
    destruct (mem_string (Config.mode self) Config.ANALYSIS_MODES);
      destruct (Z.leb_spec 0 (Config.reasoning self)) as [Hlo|Hlo];
      destruct (Z.leb_spec (Config.reasoning self) 9) as [Hhi|Hhi];
      destruct (mem_string (Config.diagram_format self) Config.DIAGRAM_FORMATS);
      cbn [andb negb];
      (split; [split; [intros (c & Hc) | intros (Hm & Hr & Hf)]
              | split; [intros Hn | split; [intros Hm Hn | intros Hm Hr Hn]]]);
      first [ discriminate | reflexivity | exfalso; lia
            | exfalso; apply Hn; (reflexivity || lia)
            | eexists; reflexivity
            | repeat split; (reflexivity || lia) ].
Qed.

Lemma config_is_validated_witness :
  exists c,
    Config.post_init (fun s => s) Config.plain_resolve Config.mkdir_succeeds
                     (Some 8) Config.written_config = (Ok c, []).
Proof.
  destruct (config_is_validated (fun s => s) Config.plain_resolve
              Config.mkdir_succeeds (Some 8) Config.written_config)
    as (_ & _ & Hvalid).
  destruct (Hvalid (Config.PathObj "/work/./test") eq_refl eq_refl)
    as [[_ Hok] _].
  apply Hok. split; [|split].
  - left. reflexivity.
  - cbn. lia.
  - left. reflexivity.
Defined.

(** X20.  A configuration that the constructor returns is well formed:
    its paths are [Path] objects, its mode, reasoning depth and diagram
    format are valid, its worker count is set, and its extensions are
    those given, each with a leading dot.  Constructing it logs nothing,
    and validating the result again returns it unchanged. *)
Theorem constructed_config_is_well_formed
        to_path resolve mkdir cpu_count self c log :
  Config.post_init to_path resolve mkdir cpu_count self = (Ok c, log) ->
  log = [] /\
  Config.well_formed c /\
  (forall exts, Config.filter_extensions self = Some exts ->
     exists exts', Config.filter_extensions c = Some exts' /\
       forall e, In e exts' <->
                 exists ext, In ext exts /\ e = Config.normalize_extension ext) /\
  Config.post_init to_path resolve mkdir cpu_count c = (Ok c, []).
Proof.
  intros Hrun.
  destruct (resolve_directory_cases resolve self) as [(e & Hdir)|(d & Hdir)].
  { unfold Config.post_init in Hrun. rewrite Hdir in Hrun. discriminate. }
  destruct (mkdir (Config.cache_path to_path self)) as [e|] eqn:Hmkdir.
  { unfold Config.post_init in Hrun. rewrite Hdir, Hmkdir in Hrun.
    discriminate. }
  pose proof (post_init_outcome to_path resolve mkdir cpu_count self _
                Hdir Hmkdir) as Hout.
  rewrite Hrun in Hout.
  destruct (mem_string (Config.mode self) Config.ANALYSIS_MODES) eqn:Hmode;
    [|discriminate].
  destruct (Z.leb_spec 0 (Config.reasoning self)) as [Hlo|Hlo];
    [|discriminate].
  destruct (Z.leb_spec (Config.reasoning self) 9) as [Hhi|Hhi];
    [|discriminate].
  destruct (mem_string (Config.diagram_format self) Config.DIAGRAM_FORMATS)
    eqn:Hformat; [|discriminate].
  cbn [andb negb] in Hout. injection Hout as Hc Hlog. subst c.
  split; [exact Hlog|].
  split; [|split].
  - unfold Config.well_formed.
    cbn [Config.directory Config.cache_dir Config.output_path Config.mode
         Config.reasoning Config.diagram_format Config.max_workers
         Config.filter_extensions].
    split; [exact I|].
    split; [exact I|].
    split.
    { intros p. destruct (Config.output_path self) as [[s|q]|];
        intros [= <-]; exact I. }
    split; [now apply mem_string_In|].
    split; [lia|].
    split; [now apply mem_string_In|].
    split; [now destruct (Config.max_workers self)|].
    intros exts' Hsome.
    destruct (Config.filter_extensions self) as [[|x exts]|];
      [| |discriminate]; cbn [truthy] in Hsome; injection Hsome as <-.
    + split; constructor.
    + split; [apply NoDup_nodup | apply set_comprehension_dotted].
  - intros exts Hself. cbn [Config.filter_extensions].
    rewrite Hself. destruct exts as [|x exts]; cbn [truthy].
    + exists []. split; [reflexivity|]. intros e. split; [intros []|].
      intros (ext & [] & _).
    + eexists. split; [reflexivity|]. intros e.
      unfold Config.set_comprehension. rewrite nodup_In, in_map_iff.
      split; intros (ext & H1 & H2); exists ext; split;
        solve [assumption | now symmetry].
  - rewrite (post_init_outcome _ _ _ _ _ (Config.PathObj d))
      by (reflexivity || exact Hmkdir).
    cbn [Config.directory Config.exclude_patterns Config.max_files
         Config.max_file_size Config.max_map_tokens Config.output_path
         Config.model_name Config.follow_symlinks Config.cache_dir
         Config.json_format Config.filter_extensions Config.mode
         Config.focus Config.reasoning Config.visual Config.diagram_format
         Config.parallel Config.max_workers Config.verbose Config.log_file
         Config.cache_path].
    rewrite Hmode, Hformat.
    destruct (Z.leb_spec 0 (Config.reasoning self)) as [_|E]; [|lia].
    destruct (Z.leb_spec (Config.reasoning self) 9) as [_|E]; [|lia].
    cbn [andb negb]. do 2 f_equal. f_equal.
    + now destruct (Config.output_path self) as [[s|q]|].
    + destruct (Config.filter_extensions self) as [[|x exts]|];
        cbn [truthy]; try reflexivity.
      rewrite set_comprehension_truthy. cbn [truthy]. f_equal.
      unfold Config.set_comprehension at 1.
      rewrite normalize_extension_fixed by apply set_comprehension_dotted.
      apply nodup_fixed_point, NoDup_nodup.
    + now destruct (Config.max_workers self).
Qed.

Lemma constructed_config_is_well_formed_witness :
  Config.post_init (fun s => s) Config.plain_resolve Config.mkdir_succeeds
                   (Some 8) Config.written_config
  = (Ok constructed_config, []) /\
  Config.well_formed constructed_config /\
  Config.filter_extensions constructed_config
  = Some [".py"; ".js"; ".ts"]%string /\
  Config.post_init (fun s => s) Config.plain_resolve Config.mkdir_succeeds
                   (Some 8) constructed_config
  = (Ok constructed_config, []).
Proof.
  assert (Hrun : Config.post_init (fun s => s) Config.plain_resolve
                   Config.mkdir_succeeds (Some 8) Config.written_config
                 = (Ok constructed_config, [])) by (vm_compute; reflexivity).
  destruct (constructed_config_is_well_formed _ _ _ _ _ _ _ Hrun)
    as (_ & Hwf & _ & Hagain).
  split; [exact Hrun|]. split; [exact Hwf|]. split; [reflexivity | exact Hagain].
Defined.

(* ------------------------------------------------------------------ *)
(** * ParallelExecutor: set-up errors and item errors *)
(* ------------------------------------------------------------------ *)

(** The collecting loop returns for any completion order. *)
Lemma collect_returns {R} show_progress (futures : list (outcome R)) :
  forall completion results completed,
  exists out log,
    collect show_progress futures completion results completed = (Ok out, log).
Proof.
  induction completion as [|i rest IH]; intros results completed.
  - now exists (results, completed), [].
  - cbn [collect]. destruct (nth_error futures i) as [[r|e]|].
    + apply IH.
    + destruct (IH results (if show_progress then completed + 1 else completed))
        as (out & log & ->).
      now eexists _, _.
    + apply IH.
Qed.

(** X21.  The two errors of the executor's own set-up, and the errors of
    the items.  When progress is asked for and tqdm is missing the
    executor raises an ImportError; otherwise, when the worker count is
    not positive, it raises a ValueError; either way no item has been
    processed and nothing is logged.  In every other case it returns,
    for every operation that on each item returns or raises an error,
    that is an [Exception], which is what [process_func] is here.  An
    exit request such as SystemExit or KeyboardInterrupt is not an
    [Exception]: [except Exception] lets it through, and the theorem
    says nothing of an operation that raises one. *)
Theorem parallel_process_raises_at_setup_or_returns {T R} cpu_count tqdm_installed
        (items : list T) (process_func : T -> outcome R)
        max_workers show_progress completion :
  ((show_progress && negb tqdm_installed)%bool = true ->
   parallel_process cpu_count tqdm_installed items process_func
                    max_workers show_progress completion
   = (Raise (mk_exn ImportError (lit "No module named 'tqdm'")), [])) /\
  ((show_progress && negb tqdm_installed)%bool = false ->
   match max_workers with
   | Some n => n
   | None => default_workers cpu_count
   end <= 0 ->
   parallel_process cpu_count tqdm_installed items process_func
                    max_workers show_progress completion
   = (Raise (mk_exn ValueError (lit "max_workers must be greater than 0")),
      [])) /\
  ((show_progress && negb tqdm_installed)%bool = false ->
   0 < match max_workers with
       | Some n => n
       | None => default_workers cpu_count
       end ->
   exists results log,
     parallel_process cpu_count tqdm_installed items process_func
                      max_workers show_progress completion
     = (Ok results, log)).
Proof.
  unfold parallel_process.
  destruct (show_progress && negb tqdm_installed)%bool.
  - split; [reflexivity|]. split; discriminate.
  - split; [discriminate|]. rewrite bind_ret.
    destruct (Z.leb_spec (match max_workers with
                          | Some n => n
                          | None => default_workers cpu_count
                          end) 0) as [Hbad|Hgood].
    + split; [reflexivity|]. intros _ H. lia.
    + split; [intros _ H; lia|]. intros _ _. rewrite bind_ret.
      destruct (collect_returns show_progress (map process_func items)
                  completion [] 0) as ([results completed] & log & ->).
      exists results, log. cbn. now rewrite app_nil_r.
Qed.

(* ------------------------------------------------------------------ *)
(** * Sampler: head and tail that overlap *)
(* ------------------------------------------------------------------ *)

(** X22.  The marker goes in as soon as the file has more lines than the
    head, not only when it has more than twice as many.  For a readable
    file of plain lines on the line branch, with more than [k] lines, of
    which the last [k] are non-empty and fit, with the newline before
    them, in the final chunk: the sample is the first [k] lines, the
    marker, and the last [k] lines, even when the two blocks overlap and
    the lines they share appear twice. *)
Theorem sample_head_and_tail_may_overlap fs path t k m head post pre tail :
  let content := terminated_lines (head ++ post) in
  fs path = Some (mk_inode content t Readable) ->
  head ++ post = pre ++ tail ->
  Forall plain_line (head ++ post) -> Forall (fun l => l <> []) tail ->
  0 < k -> len head = k -> len tail = k -> post <> [] ->
  m * 2 <= len content ->
  len (terminated_lines tail) < chunk_size ->
  memory_efficient_file_sample fs path k m =
    (Ok (ascii_text (terminated_lines head) ++ truncation_marker ++
         join_nl (map ascii_text tail)), []).
Proof.
  intros content Hfs Hsame Hplain Hne Hk Hlh Hlt Hpost Hbig Hfit.
  assert (Hhead : Forall plain_line head)
    by (apply Forall_app in Hplain; tauto).
  assert (Htail : Forall plain_line tail)
    by (rewrite Hsame in Hplain; apply Forall_app in Hplain; tauto).
  assert (Hfree : Forall newline_free (head ++ post)).
  { eapply Forall_impl; [|exact Hplain]. apply plain_line_newline_free. }
  assert (Hlpost : 0 < len post).
  { destruct post; [contradiction|]. rewrite len_cons.
    pose proof (len_nonneg post). lia. }
  assert (Hpre : pre <> []).
  { intros ->. apply (f_equal (@len bytes)) in Hsame.
    rewrite len_app in Hsame. cbn [app] in Hsame. lia. }
  assert (Htotal : line_total content = len head + len post).
  { unfold content. rewrite line_total_terminated by assumption.
    now rewrite len_app. }
  assert (Hcount : count_newlines content = len head + len post).
  { unfold content. rewrite count_newlines_terminated by assumption.
    now rewrite len_app. }
  assert (Hsize : 0 < len content).
  { pose proof (count_newlines_le content). lia. }
  destruct (terminated_lines_ends_with_newline pre Hpre) as [before Hbefore].
  assert (Hsplit : content = before ++ x0a :: terminated_lines tail).
  { unfold content. rewrite Hsame, terminated_lines_app, Hbefore.
    now rewrite <- app_assoc. }
  assert (Htext : text_of content =
                  ascii_text (terminated_lines head) ++
                  text_of (terminated_lines post)).
  { unfold content. rewrite terminated_lines_app.
    now apply text_of_plain_lines. }
  unfold memory_efficient_file_sample.
  rewrite (path_stat_some _ _ _ Hfs), bind_ret. cbn [st_size i_content].
  destruct (Z.eqb_spec (len content) 0) as [E|_]; [lia|].
  destruct (Z.ltb_spec (len content) (m * 2)) as [E|_]; [lia|].
  rewrite !(open_file_readable _ _ _ _ Hfs), !bind_ret.
  destruct (Z.ltb_spec 0 k) as [_|E]; [|lia].
  rewrite reading_ok, bind_ret. cbn [h_data].
  destruct (Z.ltb_spec k 0) as [E|_]; [lia|].
  rewrite bind_ret.
  unfold seek_end. cbn [h_data]. rewrite Z.add_0_r.
  destruct (Z.ltb_spec (len content) 0) as [E|_]; [lia|].
  rewrite bind_ret.
  replace (Z.to_nat (len content)) with (S (Z.to_nat (len content - 1))) by lia.
  pose proof (read_backwards_tail before tail k (Z.to_nat (len content - 1))
                Htail Hne Hk Hlt Hfit) as Hback.
  cbv zeta in Hback. rewrite <- Hsplit in Hback.
  rewrite Hback, bind_ret.
  rewrite Htext.
  replace (Z.to_nat k) with (List.length head) by (unfold len in Hlh; lia).
  rewrite read_first_lines_plain by assumption.
  rewrite concat_lines_with_terminators.
  rewrite !truthy_map.
  assert (Hth : truthy head = true)
    by (destruct head; [rewrite len_nil in Hlh; lia | reflexivity]).
  assert (Htt : truthy tail = true)
    by (destruct tail; [rewrite len_nil in Hlt; lia | reflexivity]).
  rewrite Hth, Htt. cbn [andb].
  rewrite (count_lines_readable _ _ _ _ Hfs).
  change (Ok (line_total content), @nil log_record) with (ret (line_total content)).
  rewrite bind_ret, Htotal, len_map.
  destruct (Z.ltb_spec (len head) (len head + len post)) as [_|E]; [|lia].
  rewrite bind_ret, try_except_ret. unfold ret.
  now rewrite <- app_assoc.
Qed.

Lemma sample_head_and_tail_may_overlap_witness :
  memory_efficient_file_sample
    (single_file "abc.txt" (terminated_lines three_lines)) "abc.txt" 2 1
  = (Ok (lit "a" ++ [LF] ++ lit "b" ++ [LF] ++ truncation_marker ++
         lit "b" ++ [LF] ++ lit "c"), []).
Proof.
  apply (sample_head_and_tail_may_overlap
           (single_file "abc.txt" (terminated_lines three_lines)) "abc.txt"
           0 2 1 [encode_ascii "a"; encode_ascii "b"] [encode_ascii "c"]
           [encode_ascii "a"] [encode_ascii "b"; encode_ascii "c"]);
    try reflexivity; try (vm_compute; reflexivity);
    try (vm_compute; discriminate); try lia;
    repeat constructor; discriminate.
Defined.

(* ------------------------------------------------------------------ *)
(** * Decoding lines of any bytes *)
(* ------------------------------------------------------------------ *)

Lemma in_range_spec lo hi n : in_range lo hi n = true <-> (lo <= n <= hi)%N.
Proof.
  unfold in_range. rewrite andb_true_iff, !N.leb_le. tauto.
Qed.

Lemma utf8_start_wide n : state_wide (snd (utf8_start n)).
Proof.
  unfold utf8_start.
  destruct (N.ltb n 128); [exact I|].
  destruct (in_range 194 223 n) eqn:E1.
  { apply in_range_spec in E1. cbn. split; [lia | left; split; [reflexivity | lia]]. }
  destruct (N.eqb n 224); [cbn; split; [lia | right; split; lia]|].
  destruct (N.eqb n 237); [cbn; split; [lia | right; split; lia]|].
  destruct (in_range 225 239 n) eqn:E2.
  { apply in_range_spec in E2. cbn. split; [lia | right; split; lia]. }
  destruct (N.eqb n 240); [cbn; split; [lia | right; split; lia]|].
  destruct (N.eqb n 244); [cbn; split; [lia | right; split; lia]|].
  destruct (in_range 241 243 n) eqn:E3.
  { apply in_range_spec in E3. cbn. split; [lia | right; split; lia]. }
  exact I.
Qed.

Lemma utf8_step_wide st n : state_wide st -> state_wide (snd (utf8_step st n)).
Proof.
  intros Hst. destruct st as [|need acc lo hi]; cbn [utf8_step].
  - apply utf8_start_wide.
  - destruct (in_range lo hi n) eqn:E.
    + apply in_range_spec in E. destruct Hst as [Hlo Hacc].
      destruct need as [|[|[|need']]]; cbn; try exact I.
      * split; [lia | left; split; [reflexivity | lia]].
      * split; [lia | right; split; lia].
    + pose proof (utf8_start_wide n) as H.
      destruct (utf8_start n) as [out st']. exact H.
Qed.

(** A character below 128 comes out of the decoder exactly where the
    byte of that value goes in. *)
Lemma utf8_start_low c n : (c < 128)%N ->
  filter (fun x => N.eqb x c) (somes (fst (utf8_start n)))
  = if N.eqb n c then [n] else [].
Proof.
  intros Hc. unfold utf8_start.
  destruct (N.ltb_spec n 128) as [Hn|Hn]; [reflexivity|].
  assert (E : N.eqb n c = false) by (apply N.eqb_neq; lia).
  rewrite E.
  repeat match goal with
         | |- context [if ?b then _ else _] => destruct b
         end; reflexivity.
Qed.

Lemma utf8_step_low c st n : (c < 128)%N -> state_wide st ->
  filter (fun x => N.eqb x c) (somes (fst (utf8_step st n)))
  = if N.eqb n c then [n] else [].
Proof.
  intros Hc Hst. destruct st as [|need acc lo hi]; cbn [utf8_step].
  - now apply utf8_start_low.
  - destruct (in_range lo hi n) eqn:E.
    + apply in_range_spec in E. destruct Hst as [Hlo Hacc].
      assert (En : N.eqb n c = false) by (apply N.eqb_neq; lia).
      rewrite En.
      destruct need as [|[|need']]; cbn [fst somes filter];
        try reflexivity.
      * destruct Hacc as [[H _]|[H _]]; [discriminate | lia].
      * destruct Hacc as [[_ H]|[H _]]; [|lia].
        assert (Ea : N.eqb (acc * 64 + (n - 128)) c = false)
          by (apply N.eqb_neq; lia).
        now rewrite Ea.
    + pose proof (utf8_start_low c n Hc) as H.
      destruct (utf8_start n) as [out st']. exact H.
Qed.

Lemma utf8_scan_low c : (c < 128)%N -> forall bs st, state_wide st ->
  filter (fun x => N.eqb x c) (somes (utf8_scan st bs))
  = filter (fun x => N.eqb x c) (map Byte.to_N bs).
Proof.
  intros Hc. induction bs as [|b bs IH]; intros st Hst.
  - destruct st; reflexivity.
  - cbn [utf8_scan map].
    pose proof (utf8_step_low c st (Byte.to_N b) Hc Hst) as Hout.
    pose proof (utf8_step_wide st (Byte.to_N b) Hst) as Hnext.
    destruct (utf8_step st (Byte.to_N b)) as [out st'].
    cbn [fst snd] in Hout, Hnext.
    rewrite somes_app, filter_app, Hout, (IH st' Hnext).
    cbn [filter]. now destruct (N.eqb (Byte.to_N b) c).
Qed.

Lemma decode_low c bs : (c < 128)%N ->
  filter (fun x => N.eqb x c) (decode_ignore bs)
  = filter (fun x => N.eqb x c) (map Byte.to_N bs).
Proof. intros Hc. now apply utf8_scan_low. Qed.

Lemma decode_lacks c (l : bytes) : (c < 128)%N ->
  (forall b, In b l -> N.eqb (Byte.to_N b) c = false) ->
  ~ In c (decode_ignore l).
Proof.
  intros Hc Hfree Hin.
  assert (H : In c (filter (fun x => N.eqb x c) (decode_ignore l)))
    by (apply filter_In; split; [assumption | apply N.eqb_refl]).
  rewrite decode_low in H by assumption.
  apply filter_In in H. destruct H as [H _].
  apply in_map_iff in H. destruct H as (b & Hb & Hl).
  specialize (Hfree b Hl). rewrite Hb, N.eqb_refl in Hfree. discriminate.
Qed.

(** The text of a line without a newline byte holds no newline, and the
    text of a line without a carriage-return byte no carriage return. *)
Lemma line_text_newline_free l : newline_free l -> ~ In LF (line_text l).
Proof. intros H. apply decode_lacks; [reflexivity | exact H]. Qed.

Lemma line_text_cr_free l : cr_free l -> ~ In CR (line_text l).
Proof. intros H. apply decode_lacks; [reflexivity | exact H]. Qed.

Lemma len_split_nl s :
  len (split_nl s) = len (filter (fun x => N.eqb x LF) s) + 1.
Proof.
  induction s as [|c r IH]; [reflexivity|].
  cbn [split_nl filter]. destruct (N.eqb c LF).
  - rewrite !len_cons, IH. reflexivity.
  - pose proof (split_nl_nonempty r) as Hne.
    destruct (split_nl r) as [|p ps]; [contradiction|].
    rewrite len_cons in *. exact IH.
Qed.

(** A chunk splits into one piece more than it has newline bytes,
    whatever its bytes are. *)
Lemma len_pieces chunk : len (chunk_pieces chunk) = count_newlines chunk + 1.
Proof.
  unfold chunk_pieces. rewrite len_split_nl, decode_low by reflexivity.
  f_equal. unfold count_newlines, len. f_equal.
  induction chunk as [|b bs IH]; [reflexivity|].
  cbn [map filter]. unfold is_newline_byte at 1.
  destruct (N.eqb (Byte.to_N b) LF); cbn [List.length]; now rewrite IH.
Qed.

Lemma split_nl_free s : ~ In LF s -> split_nl s = [s].
Proof.
  induction s as [|c r IH]; intros H; [reflexivity|].
  cbn [split_nl]. destruct (N.eqb_spec c LF) as [->|_].
  - exfalso. apply H. now left.
  - rewrite IH by (intros Hin; apply H; now right). reflexivity.
Qed.

Lemma readline_free s rest : ~ In LF s ->
  readline (s ++ LF :: rest) = (s ++ [LF], rest).
Proof.
  induction s as [|c r IH]; intros H; [reflexivity|].
  cbn [app readline]. destruct (N.eqb_spec c LF) as [->|_].
  - exfalso. apply H. now left.
  - rewrite IH by (intros Hin; apply H; now right). reflexivity.
Qed.

Lemma translate_cr_free s r : ~ In CR s ->
  translate_newlines false (s ++ r) = s ++ translate_newlines false r.
Proof.
  induction s as [|c s IH]; intros H; [reflexivity|].
  cbn [app translate_newlines]. destruct (N.eqb_spec c CR) as [->|_].
  - exfalso. apply H. now left.
  - rewrite andb_false_r, IH by (intros Hin; apply H; now right).
    reflexivity.
Qed.

Lemma decode_line_then l rest :
  decode_ignore (l ++ x0a :: rest) = line_text l ++ LF :: decode_ignore rest.
Proof.
  unfold line_text, decode_ignore.
  now rewrite decode_through_ascii_byte by (reflexivity || exact I).
Qed.

Lemma decode_lines_then ls rest :
  decode_ignore (terminated_lines ls ++ rest)
  = head_text ls ++ decode_ignore rest.
Proof.
  induction ls as [|l ls IH]; [reflexivity|].
  rewrite terminated_lines_cons, <- app_assoc, <- app_comm_cons.
  rewrite decode_line_then, IH. unfold head_text. cbn [map List.concat].
  now rewrite <- !app_assoc.
Qed.

Lemma text_of_lines_then ls rest :
  Forall cr_free ls ->
  text_of (terminated_lines ls ++ rest) = head_text ls ++ text_of rest.
Proof.
  intros Hcr. unfold text_of. rewrite decode_lines_then.
  apply translate_cr_free. unfold head_text.
  induction Hcr as [|l ls Hl _ IH]; [intros []|].
  cbn [map List.concat]. intros Hin.
  apply in_app_or in Hin. destruct Hin as [Hin|Hin]; [|now apply IH].
  apply in_app_or in Hin. destruct Hin as [Hin|[E|[]]].
  - now apply (line_text_cr_free l).
  - discriminate.
Qed.

Lemma read_first_lines_any ls rest :
  Forall newline_free ls ->
  read_first_lines (List.length ls) (head_text ls ++ rest)
  = map (fun l => line_text l ++ [LF]) ls.
Proof.
  unfold head_text. induction 1 as [|l ls Hl _ IH]; [reflexivity|].
  cbn [List.length read_first_lines map List.concat].
  rewrite <- !app_assoc. cbn [app].
  rewrite readline_free by now apply line_text_newline_free.
  replace (truthy (line_text l ++ [LF])) with true
    by (destruct (line_text l); reflexivity).
  now rewrite IH.
Qed.

Lemma split_nl_lines ls s :
  Forall newline_free ls ->
  split_nl (head_text ls ++ s) = map line_text ls ++ split_nl s.
Proof.
  unfold head_text. induction 1 as [|l ls Hl _ IH]; [reflexivity|].
  cbn [map List.concat]. rewrite <- !app_assoc. cbn [app].
  rewrite split_nl_app, IH.
  now rewrite split_nl_free by now apply line_text_newline_free.
Qed.

(* ------------------------------------------------------------------ *)
(** * Files of lines, with or without a final newline *)
(* ------------------------------------------------------------------ *)

Lemma terminated_lines_nonempty ls : ls <> [] -> terminated_lines ls <> [].
Proof.
  destruct ls as [|l ls]; [contradiction|]. intros _.
  rewrite terminated_lines_cons. now destruct l.
Qed.

Lemma file_of_lines_app a b final_newline : b <> [] ->
  file_of_lines (a ++ b) final_newline
  = terminated_lines a ++ file_of_lines b final_newline.
Proof.
  intros Hb. unfold file_of_lines. rewrite terminated_lines_app.
  destruct final_newline; [reflexivity|].
  apply removelast_app. now apply terminated_lines_nonempty.
Qed.

Lemma file_of_lines_snoc ls l :
  file_of_lines (ls ++ [l]) false = terminated_lines ls ++ l.
Proof.
  unfold file_of_lines.
  now rewrite terminated_lines_snoc, !app_assoc, removelast_last.
Qed.

Lemma last_app_nonempty {A} (a b : list A) d : b <> [] ->
  last (a ++ b) d = last b d.
Proof.
  intros Hb. destruct (snoc_cases b) as [->|(b' & x & ->)]; [contradiction|].
  now rewrite app_assoc, !last_last.
Qed.

Lemma line_total_file ls final_newline :
  Forall newline_free ls ->
  (final_newline = false -> last ls [] <> []) ->
  line_total (file_of_lines ls final_newline) = len ls.
Proof.
  intros Hfree Hlast. unfold file_of_lines. destruct final_newline.
  - now apply line_total_terminated.
  - apply line_total_stripped; auto.
Qed.

Lemma count_newlines_file ls final_newline :
  Forall newline_free ls -> ls <> [] ->
  count_newlines (file_of_lines ls final_newline)
  = if final_newline then len ls else len ls - 1.
Proof.
  intros Hfree Hne. destruct final_newline.
  - now apply count_newlines_terminated.
  - destruct (snoc_cases ls) as [->|(ls' & l & ->)]; [contradiction|].
    apply Forall_app in Hfree. destruct Hfree as [Hfree Hl].
    apply Forall_inv in Hl.
    rewrite file_of_lines_snoc, count_newlines_app.
    rewrite count_newlines_terminated, count_newlines_free by assumption.
    rewrite len_app. change (len [l]) with 1. lia.
Qed.

(** The non-blank pieces of a file of lines are the non-blank texts of
    its lines. *)
Lemma non_blank_pieces_file ls final_newline :
  Forall newline_free ls -> ls <> [] ->
  non_blank (chunk_pieces (file_of_lines ls final_newline))
  = non_blank (map line_text ls).
Proof.
  intros Hfree Hne. unfold non_blank, chunk_pieces. destruct final_newline.
  - unfold file_of_lines.
    rewrite <- (app_nil_r (terminated_lines ls)), decode_lines_then.
    rewrite split_nl_lines by assumption.
    rewrite filter_app. cbn. apply app_nil_r.
  - destruct (snoc_cases ls) as [->|(ls' & l & ->)]; [contradiction|].
    apply Forall_app in Hfree. destruct Hfree as [Hfree Hl].
    apply Forall_inv in Hl.
    rewrite file_of_lines_snoc, decode_lines_then.
    rewrite split_nl_lines by assumption.
    rewrite split_nl_free by now apply line_text_newline_free.
    now rewrite map_app.
Qed.

(* ------------------------------------------------------------------ *)
(** * Sampler: the rounds of the backward reader *)
(* ------------------------------------------------------------------ *)

Lemma lastn_all {A} n (l : list A) : (List.length l <= n)%nat -> lastn n l = l.
Proof.
  intros H. unfold lastn.
  now replace (List.length l - n)%nat with O by lia.
Qed.

Lemma lastn_app_short {A} n (a b : list A) : (List.length b <= n)%nat ->
  lastn n (a ++ b) = lastn (n - List.length b) a ++ b.
Proof.
  intros H. unfold lastn. rewrite length_app, skipn_app.
  replace (List.length a + List.length b - n - List.length a)%nat with O by lia.
  cbn [skipn]. f_equal. f_equal. lia.
Qed.

Lemma lastn_app_long {A} n (a b : list A) : (n <= List.length b)%nat ->
  lastn n (a ++ b) = lastn n b.
Proof.
  intros H. unfold lastn. rewrite length_app, skipn_app.
  rewrite skipn_all2 by lia. cbn [app]. f_equal. lia.
Qed.

Lemma length_lastn {A} n (l : list A) :
  List.length (lastn n l) = Nat.min n (List.length l).
Proof. unfold lastn. rewrite length_skipn. lia. Qed.

Lemma rev_firstn_rev {A} n (l : list A) : rev (firstn n (rev l)) = lastn n l.
Proof. unfold lastn. now rewrite firstn_rev, rev_involutive. Qed.

Lemma in_lastn_app {A} n (a b : list A) x :
  (List.length b <= n)%nat -> In x b -> In x (lastn n (a ++ b)).
Proof.
  intros H Hin. rewrite lastn_app_short by assumption.
  apply in_or_app. now right.
Qed.

(** One round of the inner loop.  [seen] are the non-blank pieces of the
    chunks read before, of which the deque holds the last [k].  When the
    deque is full already, the chunk must end with a newline: its last
    piece is then blank, and the loop leaves at once without touching the
    deque. *)
Lemma push_lines_round k ps seen :
  0 < k ->
  len seen < k \/ (exists ps', ps = ps' ++ [[]]) ->
  push_lines k (rev ps) (lastn (Z.to_nat k) seen)
  = lastn (Z.to_nat k) (non_blank ps ++ seen).
Proof.
  intros Hk Hcase.
  destruct (Z.ltb_spec (len seen) k) as [Hshort|Hfull].
  - rewrite lastn_all by (unfold len in Hshort; lia).
    rewrite push_lines_spec by assumption.
    rewrite filter_rev, rev_firstn_rev.
    rewrite lastn_app_short by (unfold len in Hshort; lia).
    unfold non_blank. do 2 f_equal. unfold len. lia.
  - destruct Hcase as [Hshort|(ps' & ->)]; [lia|].
    rewrite rev_app_distr. cbn [rev app push_lines truthy].
    assert (Hlen : len (lastn (Z.to_nat k) seen) = k).
    { unfold len in *. rewrite length_lastn. lia. }
    rewrite Hlen, Z.leb_refl.
    unfold non_blank. rewrite filter_app. cbn [filter truthy].
    rewrite app_nil_r.
    symmetry. apply lastn_app_long. unfold len in Hfull. lia.
Qed.

(** The non-blank pieces of a chunk that ends with a newline, followed
    by what was read before it. *)
Lemma non_blank_pieces_app chunk rest :
  non_blank (chunk_pieces ((chunk ++ [x0a]) ++ rest))
  = non_blank (chunk_pieces (chunk ++ [x0a])) ++ non_blank (chunk_pieces rest).
Proof.
  unfold non_blank, chunk_pieces.
  rewrite <- !app_assoc. cbn [app].
  rewrite !decode_line_then, !split_nl_app, !filter_app.
  cbn. now rewrite app_nil_r.
Qed.

Lemma chunk_pieces_ends_blank chunk :
  exists ps, chunk_pieces (chunk ++ [x0a]) = ps ++ [[]].
Proof.
  unfold chunk_pieces. rewrite decode_line_then, split_nl_app.
  now exists (split_nl (line_text chunk)).
Qed.

(** The bytes between two positions, and those before a line start. *)
Lemma zdrop_split {A} (l : list A) p q :
  0 <= q <= p -> zdrop q l = ztake (p - q) (zdrop q l) ++ zdrop p l.
Proof.
  intros H. rewrite <- (ztake_zdrop (p - q) (zdrop q l)) at 1.
  f_equal. rewrite !zdrop_skipn, skipn_skipn. f_equal. lia.
Qed.

Lemma ztake_snoc_nth {A} (l : list A) q n x :
  0 <= q -> 0 < n ->
  nth_error l (Z.to_nat (q + n - 1)) = Some x ->
  ztake n (zdrop q l) = ztake (n - 1) (zdrop q l) ++ [x].
Proof.
  intros Hq Hn Hnth. rewrite !ztake_firstn, zdrop_skipn.
  assert (Hx : nth_error (skipn (Z.to_nat q) l) (Z.to_nat (n - 1)) = Some x).
  { rewrite nth_error_skipn. rewrite <- Hnth. f_equal. lia. }
  replace (Z.to_nat n) with (S (Z.to_nat (n - 1))) by lia.
  generalize dependent (skipn (Z.to_nat q) l).
  generalize (Z.to_nat (n - 1)). clear.
  induction n as [|n IH]; intros [|y l'] H; try discriminate.
  - injection H as ->. reflexivity.
  - cbn [nth_error] in H. cbn [firstn app]. f_equal. now apply IH.
Qed.

(** The chunk read before a line start ends with a newline. *)
Lemma chunk_before_line_start content p n :
  0 < n <= p -> line_start content p ->
  exists chunk, ztake n (zdrop (p - n) content) = chunk ++ [x0a].
Proof.
  intros Hn [E|Hnth]; [lia|].
  exists (ztake (n - 1) (zdrop (p - n) content)).
  apply ztake_snoc_nth; [lia | lia|].
  rewrite <- Hnth. f_equal. lia.
Qed.

(** There is a newline between a position and a later line start. *)
Lemma count_newlines_before_line_start content q p :
  0 <= q < p -> line_start content p ->
  1 + count_newlines (zdrop p content) <= count_newlines (zdrop q content).
Proof.
  intros Hq Hstart.
  destruct (chunk_before_line_start content p (p - q)) as [chunk Hchunk];
    [lia | assumption|].
  rewrite (zdrop_split content p q) by lia.
  replace (p - (p - q)) with q in Hchunk by lia.
  rewrite Hchunk, !count_newlines_app.
  change (count_newlines [x0a]) with 1.
  pose proof (count_newlines_le chunk). lia.
Qed.

Lemma zdrop_all {A} (l : list A) : zdrop (len l) l = [].
Proof. rewrite zdrop_skipn. unfold len. now rewrite Nat2Z.id, skipn_all. Qed.

(** What lies after a position just before a newline. *)
Lemma zdrop_at_newline content p :
  0 <= p -> nth_error content (Z.to_nat p) = Some x0a ->
  exists rest, zdrop p content = x0a :: rest.
Proof.
  intros Hp Hnth. rewrite zdrop_skipn.
  generalize dependent (Z.to_nat p). clear. intros n.
  revert content. induction n as [|n IH]; intros [|b content] H;
    try discriminate.
  - injection H as ->. now eexists.
  - cbn [nth_error] in H. cbn [skipn]. now apply IH.
Qed.

Lemma decode_newline_first rest :
  decode_ignore (x0a :: rest) = LF :: decode_ignore rest.
Proof. exact (decode_line_then [] rest). Qed.

(** The non-blank pieces of a chunk followed by what was read before it,
    when that starts with a newline. *)
Lemma non_blank_pieces_before_newline chunk rest :
  non_blank (chunk_pieces (chunk ++ x0a :: rest))
  = non_blank (chunk_pieces chunk) ++ non_blank (chunk_pieces (x0a :: rest)).
Proof.
  unfold non_blank, chunk_pieces.
  rewrite decode_line_then, decode_newline_first.
  change (LF :: decode_ignore rest) with ([] ++ LF :: decode_ignore rest) at 2.
  rewrite !split_nl_app, filter_app. reflexivity.
Qed.

Lemma len_non_blank_after_newline rest :
  len (non_blank (chunk_pieces (x0a :: rest))) <= count_newlines (x0a :: rest).
Proof.
  unfold non_blank, chunk_pieces.
  rewrite decode_newline_first.
  change (LF :: decode_ignore rest) with ([] ++ LF :: decode_ignore rest).
  rewrite split_nl_app. cbn [split_nl app filter truthy].
  pose proof (len_pieces rest) as Hlen. unfold chunk_pieces in Hlen.
  pose proof (filter_length_le truthy (split_nl (decode_ignore rest))) as Hle.
  change (x0a :: rest) with ([x0a] ++ rest). rewrite count_newlines_app.
  change (count_newlines [x0a]) with 1. unfold len, str in *. lia.
Qed.

Section BackwardRounds.

(** A file, the number [k] of lines wanted, and the position [tail_start]
    of a line start at or after which the file holds [k] lines, the last
    of them with or without its newline.  Every chunk boundary after
    [tail_start] is a cut between lines. *)
Variable content : bytes.
Variable k tail_start : Z.
Hypothesis k_positive : 0 < k.
Hypothesis tail_start_inside : 0 < tail_start <= len content.
Hypothesis tail_start_line : line_start content tail_start.
Hypothesis tail_newlines :
  k - 1 <= count_newlines (zdrop tail_start content) <= k.
Hypothesis boundaries_aligned :
  forall j, 1 <= j -> tail_start < len content - chunk_size * j ->
            cut_between_lines content k (len content - chunk_size * j).

(** From a chunk boundary at or after [tail_start], the loop runs on to a
    position [q] at or before [tail_start], and returns the last [k]
    non-blank pieces of what lies after [q]. *)
Lemma read_backwards_rounds : forall fuel p,
  tail_start <= p <= len content ->
  p = len content \/
  (cut_between_lines content k p /\
   exists j, 1 <= j /\ p = len content - chunk_size * j) ->
  (Z.to_nat p <= fuel)%nat ->
  exists q, 0 <= q <= tail_start /\
    read_backwards fuel (mk_handle content true) k p
                   (count_newlines (zdrop p content)) (seen_from content k p)
    = ret (seen_from content k q).
Proof.
  induction fuel as [|fuel IH]; intros p Hp Hboundary Hfuel; [lia|].
  cbn [read_backwards].
  destruct (Z.ltb_spec 0 p) as [_|E]; [|lia].
  destruct (Z.ltb_spec (count_newlines (zdrop p content)) k) as [Hmore|Hdone];
    cbn [andb].
  2: { exists p. split; [|reflexivity]. split; [lia|].
       destruct (Z.le_gt_cases p tail_start) as [Hle|Hgt]; [exact Hle|].
       exfalso. destruct Hboundary as [->|[[Hstart|[_ Hfew]] _]].
       - rewrite zdrop_all in Hdone. cbn in Hdone. lia.
       - pose proof (count_newlines_before_line_start content tail_start p
                       ltac:(lia) Hstart). lia.
       - lia. }
  unfold read_at. rewrite reading_ok, bind_ret. cbn [h_data].
  set (read_size := Z.min chunk_size p).
  set (p' := p - read_size).
  assert (Hsize : 0 < read_size <= p) by (unfold read_size, chunk_size; lia).
  set (chunk := ztake read_size (zdrop p' content)).
  assert (Hsplit : zdrop p' content = chunk ++ zdrop p content).
  { unfold chunk. replace read_size with (p - p') by (unfold p'; lia).
    apply zdrop_split. unfold p'. lia. }
  (* the newlines counted *)
  assert (Hcount : count_newlines (zdrop p content) + (len (chunk_pieces chunk) - 1)
                   = count_newlines (zdrop p' content)).
  { rewrite len_pieces, Hsplit, count_newlines_app. lia. }
  fold (chunk_pieces chunk). rewrite Hcount.
  (* the deque *)
  assert (Hseen : push_lines k (rev (chunk_pieces chunk)) (seen_from content k p)
                  = seen_from content k p').
  { unfold seen_from. rewrite Hsplit.
    destruct Hboundary as [->|[[Hstart|[Hend _]] _]].
    - rewrite zdrop_all, app_nil_r.
      rewrite push_lines_round by (assumption || left; cbn; lia).
      cbn [chunk_pieces decode_ignore utf8_scan somes split_nl non_blank
           filter truthy].
      now rewrite app_nil_r.
    - destruct (chunk_before_line_start content p read_size Hsize Hstart)
        as [chunk' Hchunk].
      fold p' in Hchunk. fold chunk in Hchunk. rewrite Hchunk.
      rewrite non_blank_pieces_app.
      apply push_lines_round; [assumption|].
      right. apply chunk_pieces_ends_blank.
    - destruct (zdrop_at_newline content p ltac:(lia) Hend) as [rest Hrest].
      rewrite Hrest in *.
      rewrite non_blank_pieces_before_newline.
      apply push_lines_round; [assumption|].
      left. pose proof (len_non_blank_after_newline rest). lia. }
  rewrite Hseen.
  destruct (Z.le_gt_cases tail_start p') as [Hin|Hout].
  - (* the next boundary is still in the tail *)
    assert (Hfull : read_size = chunk_size).
    { unfold read_size, p' in *. unfold chunk_size in *. lia. }
    apply IH; [unfold p'; lia | | unfold p'; lia].
    right.
    assert (Hj : exists j, 1 <= j /\ p' = len content - chunk_size * j).
    { destruct Hboundary as [->|[_ (j & Hj & ->)]].
      - exists 1. unfold p'. lia.
      - exists (j + 1). unfold p'. lia. }
    split; [|exact Hj].
    destruct Hj as (j & Hj & Ej).
    destruct (Z.eq_dec p' tail_start) as [->|Hne];
      [left; exact tail_start_line|].
    rewrite Ej. apply boundaries_aligned; lia.
  - (* the chunk reaches back before the tail: the loop ends *)
    exists p'. split; [unfold p'; lia|].
    apply read_backwards_done.
    pose proof (count_newlines_before_line_start content p' tail_start
                  ltac:(unfold p'; lia) tail_start_line).
    lia.
Qed.

(** The whole loop. *)
Lemma read_backwards_aligned :
  exists q, 0 <= q <= tail_start /\
    read_backwards (Z.to_nat (len content)) (mk_handle content true) k
                   (len content) 0 []
    = ret (seen_from content k q).
Proof.
  destruct (read_backwards_rounds (Z.to_nat (len content)) (len content))
    as (q & Hq & Hrun); [lia | now left | lia|].
  exists q. split; [exact Hq|]. rewrite <- Hrun.
  unfold seen_from. rewrite zdrop_all. reflexivity.
Qed.

End BackwardRounds.

(* ------------------------------------------------------------------ *)
(** * Counting the marker among whole lines *)
(* ------------------------------------------------------------------ *)

Lemma occurrences_none needle : forall hay,
  contains needle hay = false -> occurrences needle hay = 0%nat.
Proof.
  induction hay as [|c hay IH]; cbn [contains occurrences]; intros H;
    apply orb_false_iff in H; destruct H as [Hs Hrest]; rewrite Hs.
  - reflexivity.
  - now rewrite IH.
Qed.

(** A needle that occurs at one position only occurs once. *)
Lemma occurrences_unique needle : needle <> [] -> forall a0 b0,
  (forall a b, a0 ++ needle ++ b0 = a ++ needle ++ b -> a = a0) ->
  occurrences needle (a0 ++ needle ++ b0) = 1%nat.
Proof.
  intros Hne. induction a0 as [|c a0 IH]; intros b0 Huniq.
  - cbn [app]. destruct needle as [|x needle]; [contradiction|].
    cbn [app]. rewrite occurrences_cons.
    replace (starts_with (x :: needle) (x :: needle ++ b0)) with true
      by (symmetry; apply starts_with_spec; now exists b0).
    rewrite occurrences_none; [reflexivity|].
    destruct (contains (x :: needle) (needle ++ b0)) eqn:E; [|reflexivity].
    apply contains_spec in E. destruct E as (a & b & E).
    specialize (Huniq (x :: a) b). cbn [app] in Huniq.
    rewrite E in Huniq. now specialize (Huniq eq_refl).
  - cbn [app]. rewrite occurrences_cons.
    rewrite starts_with_false.
    + apply IH. intros a b E. specialize (Huniq (c :: a) b).
      cbn [app] in Huniq. rewrite E in Huniq.
      specialize (Huniq eq_refl). now injection Huniq.
    + intros b E. specialize (Huniq [] b). cbn [app] in Huniq.
      now specialize (Huniq E).
Qed.

Lemma join_split s : join_nl (split_nl s) = s.
Proof.
  induction s as [|c r IH]; [reflexivity|].
  cbn [split_nl]. pose proof (split_nl_nonempty r) as Hne.
  destruct (N.eqb_spec c LF) as [->|_].
  - destruct (split_nl r) as [|p ps]; [contradiction|].
    change (join_nl ([] :: p :: ps)) with (LF :: join_nl (p :: ps)).
    now rewrite IH.
  - destruct (split_nl r) as [|p ps]; [contradiction|].
    rewrite <- IH. now destruct ps.
Qed.

Lemma split_join ts :
  ts <> [] -> Forall (fun t => ~ In LF t) ts -> split_nl (join_nl ts) = ts.
Proof.
  intros Hne Hfree. induction Hfree as [|t ts Ht _ IH]; [contradiction|].
  destruct ts as [|t' ts].
  - now apply split_nl_free.
  - change (join_nl (t :: t' :: ts)) with (t ++ LF :: join_nl (t' :: ts)).
    rewrite split_nl_app, IH by discriminate.
    now rewrite split_nl_free.
Qed.

Lemma element_position_unique {A} (x : A) : forall l1 l2 r1 r2,
  ~ In x l1 -> ~ In x l2 -> l1 ++ x :: r1 = l2 ++ x :: r2 -> l1 = l2.
Proof.
  induction l1 as [|y l1 IH]; intros [|z l2] r1 r2 H1 H2 E; cbn in *.
  - reflexivity.
  - injection E as -> _. exfalso. apply H2. now left.
  - injection E as -> _. exfalso. apply H1. now left.
  - injection E as -> E. f_equal. apply (IH l2 r1 r2); tauto.
Qed.

Lemma truncation_marker_lines :
  truncation_marker
  = LF :: lit "..." ++ LF :: marker_line ++ LF :: lit "..." ++ [LF].
Proof. reflexivity. Qed.

(** Where the marker occurs, the lines around it are "...", the middle
    line of the marker and "...". *)
Lemma split_nl_around_marker a b :
  split_nl (a ++ truncation_marker ++ b)
  = split_nl a ++ [lit "..."; marker_line; lit "..."] ++ split_nl b.
Proof.
  rewrite truncation_marker_lines.
  change (a ++ (LF :: lit "..." ++ LF :: marker_line ++ LF :: lit "..." ++ [LF])
            ++ b)
    with (a ++ LF :: (lit "..." ++ LF :: (marker_line ++ LF ::
                        (lit "..." ++ LF :: b)))).
  rewrite !split_nl_app. reflexivity.
Qed.

Lemma contains_occurrences needle : forall hay,
  contains needle hay = true -> occurrences needle hay <> 0%nat.
Proof.
  induction hay as [|c hay IH]; cbn [contains occurrences]; intros H;
    apply orb_true_iff in H; destruct H as [Hs|Hrest].
  - rewrite Hs. discriminate.
  - discriminate.
  - rewrite Hs. discriminate.
  - specialize (IH Hrest). lia.
Qed.

(** A needle that occurs once occurs at one position only. *)
Lemma occurrences_one_unique needle : forall hay a1 b1 a2 b2,
  occurrences needle hay = 1%nat ->
  hay = a1 ++ needle ++ b1 -> hay = a2 ++ needle ++ b2 -> a1 = a2.
Proof.
  induction hay as [|c hay IH]; intros a1 b1 a2 b2 Hone E1 E2.
  - destruct a1, a2; try discriminate. reflexivity.
  - rewrite occurrences_cons in Hone.
    assert (Hrest : forall a b, c :: hay = (c :: a) ++ needle ++ b ->
                                occurrences needle hay <> 0%nat).
    { intros a b E. injection E as E. apply contains_occurrences.
      apply contains_spec. now exists a, b. }
    assert (Hfirst : forall b, c :: hay = [] ++ needle ++ b ->
                               starts_with needle (c :: hay) = true).
    { intros b E. apply starts_with_spec. now exists b. }
    destruct a1 as [|x a1], a2 as [|y a2].
    + reflexivity.
    + injection E2 as <- E2. specialize (Hfirst b1 E1).
      specialize (Hrest a2 b2 ltac:(cbn; now rewrite E2)).
      rewrite Hfirst in Hone. lia.
    + injection E1 as <- E1. specialize (Hfirst b2 E2).
      specialize (Hrest a1 b1 ltac:(cbn; now rewrite E1)).
      rewrite Hfirst in Hone. lia.
    + injection E1 as <- E1. injection E2 as <- E2. f_equal.
      apply (IH a1 b1 a2 b2); try assumption.
      specialize (Hrest a1 b1 ltac:(cbn; now rewrite E1)).
      destruct (starts_with needle (c :: hay)); lia.
Qed.

Lemma join_nl_cons_blank t ts :
  join_nl ([] :: t :: ts) = LF :: join_nl (t :: ts).
Proof. reflexivity. Qed.

Lemma join_nl_cons t t' ts :
  join_nl (t :: t' :: ts) = t ++ LF :: join_nl (t' :: ts).
Proof. reflexivity. Qed.

(** A text whose lines hold the three lines of the marker, with a line
    before and a line after them, holds the marker. *)
Lemma lines_hold_marker s before after :
  before <> [] -> after <> [] ->
  split_nl s = before ++ [lit "..."; marker_line; lit "..."] ++ after ->
  contains truncation_marker s = true.
Proof.
  intros Hbefore Hafter Hs.
  pose proof (split_nl_pieces s) as Hfree. rewrite Hs in Hfree.
  apply Forall_app in Hfree. destruct Hfree as [Hfree_b Hfree_a].
  apply Forall_app in Hfree_a. destruct Hfree_a as [_ Hfree_a].
  apply contains_spec. exists (join_nl before), (join_nl after).
  rewrite <- (join_split s), <- (join_split (join_nl before ++ _)).
  f_equal. rewrite Hs, split_nl_around_marker.
  now rewrite !split_join.
Qed.

(** The marker occurs exactly once between the first and the last lines
    when, and only when, the first lines do not hold it themselves and
    the last lines, after the "..." that ends the marker, do not spell it
    again. *)
Lemma marker_once_among_lines head (ts : list str) :
  Forall newline_free head ->
  ts <> [] -> Forall (fun t => ~ In LF t) ts ->
  occurrences truncation_marker
              (head_text head ++ truncation_marker ++ join_nl ts) = 1%nat
  <->
  occurrences truncation_marker (head_text head) = 0%nat /\
  occurrences truncation_marker (LF :: lit "..." ++ LF :: join_nl ts) = 0%nat.
Proof.
  intros Hfree Hne Hts.
  assert (Hsplit : split_nl (head_text head)
                   = map line_text head ++ [[]]).
  { rewrite <- (app_nil_r (head_text head)). now rewrite split_nl_lines. }
  assert (Hafter : LF :: lit "..." ++ LF :: join_nl ts
                   = join_nl ([] :: lit "..." :: ts)).
  { destruct ts; [contradiction | reflexivity]. }
  assert (Hafter_split : split_nl (LF :: lit "..." ++ LF :: join_nl ts)
                         = [] :: lit "..." :: ts).
  { rewrite Hafter. apply split_join; [discriminate|].
    constructor; [intros [] | constructor; [|assumption]].
    apply not_in_check. reflexivity. }
  split.
  - (* only when *)
    intros Hone. split.
    + apply occurrences_none.
      destruct (contains truncation_marker (head_text head)) eqn:E;
        [|reflexivity].
      apply contains_spec in E. destruct E as (a & c & E).
      assert (Ea : a = head_text head).
      { apply (occurrences_one_unique _ _ a (c ++ truncation_marker ++ join_nl ts)
                 (head_text head) (join_nl ts) Hone); [|reflexivity].
        rewrite E at 1. now rewrite <- !app_assoc. }
      apply (f_equal (@List.length N)) in E.
      rewrite Ea, !length_app in E. cbn in E. lia.
    + apply occurrences_none.
      destruct (contains truncation_marker
                  (LF :: lit "..." ++ LF :: join_nl ts)) eqn:E; [|reflexivity].
      apply contains_spec in E. destruct E as (a & b & E).
      set (front := LF :: lit "..." ++ LF :: marker_line).
      assert (Ea : head_text head ++ front ++ a = head_text head).
      { apply (occurrences_one_unique _ _ (head_text head ++ front ++ a) b
                 (head_text head) (join_nl ts) Hone); [|reflexivity].
        rewrite <- !app_assoc. f_equal.
        transitivity (front ++ LF :: lit "..." ++ LF :: join_nl ts);
          [reflexivity|].
        now rewrite E. }
      apply (f_equal (@List.length N)) in Ea.
      rewrite !length_app in Ea. cbn in Ea. lia.
  - (* when *)
    intros [Hhead Htail].
    apply occurrences_unique; [discriminate|].
    intros a b E.
    apply (f_equal split_nl) in E.
    rewrite (split_nl_around_marker a b) in E.
    rewrite (split_nl_around_marker (head_text head) (join_nl ts)) in E.
    rewrite Hsplit, split_join in E by assumption.
    assert (Ha : split_nl a = map line_text head ++ [[]]).
    { apply app_eq_app in E. destruct E as (l & [[E1 E2]|[E1 E2]]).
      - (* the occurrence would start among the first lines *)
        destruct l as [|l0 l]; [now rewrite app_nil_r in E1|].
        exfalso.
        assert (Hlast : last (l0 :: l) [] = [])
          by (rewrite <- (last_app_nonempty (split_nl a)), <- E1 by discriminate;
              apply last_last).
        destruct l as [|l1 [|l2 [|l3 l]]]; cbn [app last] in E2, Hlast.
        + injection E2 as E0 _. rewrite Hlast in E0.
          vm_compute in E0. discriminate E0.
        + injection E2 as _ E0 _. rewrite Hlast in E0.
          vm_compute in E0. discriminate E0.
        + injection E2 as _ _ E0 _. rewrite Hlast in E0.
          vm_compute in E0. discriminate E0.
        + clear Hlast. injection E2 as E20 E21 E22 E2. subst l0 l1 l2.
          assert (Hlines : split_nl (head_text head)
                           = split_nl a ++
                             [lit "..."; marker_line; lit "..."] ++ l3 :: l)
            by (rewrite Hsplit; exact E1).
          apply (contains_occurrences _ _ (lines_hold_marker
                   (head_text head) (split_nl a) (l3 :: l)
                   (split_nl_nonempty a) ltac:(discriminate) Hlines)).
          exact Hhead.
      - (* the occurrence would start in or after the marker *)
        destruct l as [|l0 l]; [now rewrite app_nil_r in E1|].
        exfalso.
        destruct l as [|l1 l]; cbn [app] in E2.
        + injection E2 as _ E0 _. vm_compute in E0. discriminate E0.
        + injection E2 as E20 E21 E2. subst l0 l1.
          assert (Hlines : split_nl (LF :: lit "..." ++ LF :: join_nl ts)
                           = ([] :: l) ++
                             [lit "..."; marker_line; lit "..."] ++ split_nl b)
            by (rewrite Hafter_split; cbn [app]; f_equal; exact E2).
          apply (contains_occurrences _ _ (lines_hold_marker
                   (LF :: lit "..." ++ LF :: join_nl ts) ([] :: l) (split_nl b)
                   ltac:(discriminate) (split_nl_nonempty b) Hlines)).
          exact Htail. }
    rewrite <- (join_split (head_text head)), <- (join_split a).
    unfold str in *. now rewrite Ha, Hsplit.
Qed.

Lemma contains_nil hay : contains [] hay = true.
Proof. destruct hay; reflexivity. Qed.

Lemma contains_head_line l ls :
  In l ls -> contains (line_text l) (head_text ls) = true.
Proof.
  unfold head_text. induction ls as [|x ls IH]; [contradiction|].
  cbn [map List.concat]. intros [->|H].
  - rewrite <- app_assoc. apply contains_app_l, contains_refl.
  - apply contains_app_r. now apply IH.
Qed.

(* ------------------------------------------------------------------ *)
(** * Sampler: the first and the last lines *)
(* ------------------------------------------------------------------ *)

Lemma line_start_after_lines ls rest :
  ls <> [] -> line_start (terminated_lines ls ++ rest) (len (terminated_lines ls)).
Proof.
  intros Hne. right.
  destruct (terminated_lines_ends_with_newline ls Hne) as [before ->].
  rewrite len_app, <- app_assoc. change (len [x0a]) with 1.
  replace (Z.to_nat (len before + 1 - 1)) with (List.length before)
    by (unfold len; lia).
  rewrite nth_error_app2 by lia. now rewrite Nat.sub_diag.
Qed.

(** What the backward reader has seen from a position at or before the
    start of the last lines: pieces of the lines before them, and the
    non-blank texts of the last lines. *)
Lemma seen_from_before_tail before tail final_newline k q :
  Forall newline_free tail -> tail <> [] -> before <> [] ->
  0 <= q <= len (terminated_lines before) ->
  exists earlier,
    seen_from (terminated_lines before ++ file_of_lines tail final_newline) k q
    = lastn (Z.to_nat k) (earlier ++ non_blank (map line_text tail)).
Proof.
  intros Hfree Hne Hbefore Hq. unfold seen_from.
  rewrite zdrop_app_le by lia.
  destruct (Z.eq_dec q (len (terminated_lines before))) as [->|Hlt].
  - exists []. rewrite zdrop_all. cbn [app].
    now rewrite non_blank_pieces_file.
  - destruct (terminated_lines_ends_with_newline before Hbefore)
      as [pre Hpre].
    rewrite Hpre in *. rewrite len_app in Hq, Hlt. change (len [x0a]) with 1 in *.
    rewrite zdrop_app_le by lia.
    rewrite non_blank_pieces_app, non_blank_pieces_file by assumption.
    now eexists.
Qed.

(** C1, as amended.  Take [k >= 1] and a readable file of lines of any
    bytes, the last one with or without its newline: [k] first lines
    without a carriage return, at least one further line, and [k] last
    lines.  Let every 4096-byte chunk boundary, counted from the end of
    the file, that falls after the start of the last [k] lines be a cut
    between lines, and let the size be at least twice the budget.  The
    text of a line is its bytes decoded as UTF-8, what cannot be decoded
    being dropped.  Then the sample holds the text of each of the first
    [k] and of the last [k] lines, and it holds the marker when one of
    the last [k] lines is not blank.  When none of them is blank, the
    sample is the first [k] lines with their terminators, the marker, and
    the last [k] lines joined by newlines; the marker then occurs exactly
    once if and only if the first [k] lines do not hold it themselves and
    the last [k] lines, after the "..." that ends the marker, do not
    spell it again. *)
Theorem sample_first_and_last_lines
        fs path t k m head middle tail final_newline :
  let content := file_of_lines (head ++ middle ++ tail) final_newline in
  let tail_start := len (terminated_lines (head ++ middle)) in
  fs path = Some (mk_inode content t Readable) ->
  Forall newline_free (head ++ middle ++ tail) ->
  Forall cr_free head ->
  0 < k -> len head = k -> len tail = k -> middle <> [] ->
  (final_newline = false -> last tail [] <> []) ->
  m * 2 <= len content ->
  (forall j, 1 <= j -> tail_start < len content - chunk_size * j ->
             cut_between_lines content k (len content - chunk_size * j)) ->
  exists s,
    memory_efficient_file_sample fs path k m = (Ok s, []) /\
    (forall l, In l head \/ In l tail -> contains (line_text l) s = true) /\
    (Exists (fun l => line_text l <> []) tail ->
     contains truncation_marker s = true) /\
    (Forall (fun l => line_text l <> []) tail ->
     s = head_text head ++ truncation_marker ++
         join_nl (map line_text tail) /\
     (occurrences truncation_marker s = 1%nat <->
      occurrences truncation_marker (head_text head) = 0%nat /\
      occurrences truncation_marker
        (LF :: lit "..." ++ LF :: join_nl (map line_text tail)) = 0%nat)).
Proof.
  intros content tail_start Hfs Hfree Hcr Hk Hlh Hlt Hmiddle Hlast Hbig Halign.
  (* the shape of the file *)
  assert (Htail_ne : tail <> [])
    by (intros ->; rewrite len_nil in Hlt; lia).
  assert (Hhead_ne : head <> [])
    by (intros ->; rewrite len_nil in Hlh; lia).
  assert (Hbefore_ne : head ++ middle <> [])
    by (intros E; apply app_eq_nil in E; now destruct E).
  assert (Hfree_head : Forall newline_free head)
    by (apply Forall_app in Hfree; tauto).
  assert (Hfree_tail : Forall newline_free tail).
  { apply Forall_app in Hfree. destruct Hfree as [_ Hfree].
    apply Forall_app in Hfree. tauto. }
  assert (Hcontent : content = terminated_lines (head ++ middle) ++
                               file_of_lines tail final_newline).
  { unfold content. rewrite app_assoc. now apply file_of_lines_app. }
  assert (Hcontent' : content = terminated_lines head ++
                                file_of_lines (middle ++ tail) final_newline).
  { unfold content. apply file_of_lines_app.
    intros E. apply app_eq_nil in E. now destruct E. }
  assert (Hstart_pos : 0 < tail_start).
  { unfold tail_start.
    pose proof (terminated_lines_nonempty _ Hbefore_ne) as Hne.
    pose proof (len_nonneg (terminated_lines (head ++ middle))).
    destruct (Z.eq_dec (len (terminated_lines (head ++ middle))) 0) as [E|E];
      [apply len_zero_nil in E; contradiction | lia]. }
  assert (Hsize : tail_start <= len content).
  { rewrite Hcontent, len_app. fold tail_start.
    pose proof (len_nonneg (file_of_lines tail final_newline)). lia. }
  assert (Htotal : line_total content = len head + len middle + len tail).
  { unfold content. rewrite line_total_file; [rewrite !len_app; lia | assumption|].
    intros E. rewrite app_assoc, last_app_nonempty by assumption. auto. }
  pose proof (len_nonneg middle) as Hmid_len.
  assert (Hmid_pos : 0 < len middle).
  { destruct middle; [contradiction|]. rewrite len_cons.
    pose proof (len_nonneg middle). lia. }
  (* the backward reader *)
  destruct (read_backwards_aligned content k tail_start) as (q & Hq & Hback);
    try assumption.
  { lia. }
  { rewrite Hcontent. now apply line_start_after_lines. }
  { rewrite Hcontent. unfold tail_start. rewrite zdrop_app_exact.
    rewrite count_newlines_file by assumption.
    destruct final_newline; lia. }
  destruct (seen_from_before_tail (head ++ middle) tail final_newline k q
              Hfree_tail Htail_ne Hbefore_ne Hq) as [earlier Hseen].
  rewrite <- Hcontent in Hseen.
  set (texts := non_blank (map line_text tail)) in *.
  assert (Htexts_len : (List.length texts <= Z.to_nat k)%nat).
  { unfold texts, non_blank.
    pose proof (filter_length_le truthy (map line_text tail)) as H.
    rewrite length_map in H. unfold len in Hlt. unfold bytes, str in *. lia. }
  set (last_lines := seen_from content k q) in *.
  (* the sample *)
  set (s := head_text head ++
            (if truthy last_lines then truncation_marker else []) ++
            join_nl last_lines).
  assert (Hrun : memory_efficient_file_sample fs path k m = (Ok s, [])).
  { unfold memory_efficient_file_sample.
    rewrite (path_stat_some _ _ _ Hfs), bind_ret. cbn [st_size i_content].
    destruct (Z.eqb_spec (len content) 0) as [E|_]; [lia|].
    destruct (Z.ltb_spec (len content) (m * 2)) as [E|_]; [lia|].
    rewrite !(open_file_readable _ _ _ _ Hfs), !bind_ret.
    destruct (Z.ltb_spec 0 k) as [_|E]; [|lia].
    rewrite reading_ok, bind_ret. cbn [h_data].
    destruct (Z.ltb_spec k 0) as [E|_]; [lia|].
    rewrite bind_ret.
    unfold seek_end. cbn [h_data]. rewrite Z.add_0_r.
    destruct (Z.ltb_spec (len content) 0) as [E|_]; [lia|].
    rewrite bind_ret, Hback, bind_ret.
    assert (Hfirst : read_first_lines (Z.to_nat k) (text_of content)
                     = map (fun l => line_text l ++ [LF]) head).
    { rewrite Hcontent', text_of_lines_then by assumption.
      replace (Z.to_nat k) with (List.length head)
        by (unfold len in Hlh; lia).
      now apply read_first_lines_any. }
    rewrite !Hfirst.
    fold (head_text head). rewrite truthy_map.
    replace (truthy head) with true
      by (destruct head; [contradiction | reflexivity]).
    cbn [andb].
    rewrite (count_lines_readable _ _ _ _ Hfs).
    change (Ok (line_total content), @nil log_record)
      with (ret (line_total content)).
    rewrite Htotal. unfold s. unfold str in *.
    destruct (truthy last_lines).
    - rewrite bind_ret, len_map.
      destruct (Z.ltb_spec (len head) (len head + len middle + len tail))
        as [_|E]; [|lia].
      rewrite bind_ret, try_except_ret. unfold ret.
      now rewrite <- app_assoc.
    - now rewrite bind_ret, try_except_ret. }
  exists s. split; [exact Hrun|].
  assert (Hin_last : forall x, In x texts -> In x last_lines).
  { intros x Hx. rewrite Hseen. now apply in_lastn_app. }
  split; [|split].
  - (* every line is there *)
    intros l [Hl|Hl].
    + unfold s. now apply contains_app_l, contains_head_line.
    + destruct (line_text l) as [|c r] eqn:El; [apply contains_nil|].
      unfold s. apply contains_app_r, contains_app_r, contains_joined.
      apply Hin_last. unfold texts, non_blank.
      apply filter_In. split; [|reflexivity].
      rewrite <- El. now apply in_map.
  - (* the marker is there *)
    intros Hsome. apply Exists_exists in Hsome.
    destruct Hsome as (l & Hl & Hne).
    assert (Hx : In (line_text l) last_lines).
    { apply Hin_last. unfold texts, non_blank. apply filter_In.
      split; [now apply in_map | now destruct (line_text l)]. }
    unfold s. destruct last_lines; [contradiction|]. cbn [truthy].
    apply contains_app_r, contains_app_l, contains_refl.
  - (* no blank line among the last: the exact sample *)
    intros Hall.
    assert (Htexts : texts = map line_text tail).
    { unfold texts, non_blank. clear -Hall.
      induction Hall as [|l ls Hl _ IH]; [reflexivity|].
      cbn [map filter]. destruct (line_text l); [contradiction|].
      cbn [truthy]. now rewrite IH. }
    assert (Hlast_lines : last_lines = map line_text tail).
    { rewrite Hseen, Htexts.
      rewrite lastn_app_long, lastn_all; try reflexivity;
        rewrite length_map; unfold len in Hlt; lia. }
    assert (Hs : s = head_text head ++ truncation_marker ++
                     join_nl (map line_text tail)).
    { unfold s. rewrite Hlast_lines, truthy_map.
      now replace (truthy tail) with true
        by (destruct tail; [contradiction | reflexivity]). }
    split; [exact Hs|].
    rewrite Hs.
    apply marker_once_among_lines; try assumption.
    + intros E. apply map_eq_nil in E. contradiction.
    + apply Forall_map. eapply Forall_impl; [|exact Hfree_tail].
      intros l. apply line_text_newline_free.
Qed.

Lemma newline_free_check (ls : list bytes) :
  forallb (forallb (fun b => negb (is_newline_byte b))) ls = true ->
  Forall newline_free ls.
Proof.
  intros H. apply Forall_forall. intros l Hl b Hb.
  rewrite forallb_forall in H. specialize (H l Hl).
  rewrite forallb_forall in H. specialize (H b Hb).
  now apply negb_true_iff.
Qed.

Lemma cr_free_check (ls : list bytes) :
  forallb (forallb (fun b => negb (N.eqb (Byte.to_N b) CR))) ls = true ->
  Forall cr_free ls.
Proof.
  intros H. apply Forall_forall. intros l Hl b Hb.
  rewrite forallb_forall in H. specialize (H l Hl).
  rewrite forallb_forall in H. specialize (H b Hb).
  now apply negb_true_iff.
Qed.

Lemma sample_first_and_last_lines_witness :
  exists s,
    memory_efficient_file_sample
      (single_file "wide.txt"
         (terminated_lines
            (two_chunk_head ++ two_chunk_middle ++ two_chunk_tail)))
      "wide.txt" 2 10
    = (Ok s, []) /\
    s = lit "A" ++ [LF] ++ lit "B" ++ [LF] ++ truncation_marker ++
        (repeat 120%N 4093 ++ [233%N]) ++ [LF] ++ repeat 121%N 4095 /\
    contains (line_text accented_line) s = true /\
    contains (line_text long_line) s = true /\
    occurrences truncation_marker s = 1%nat.
Proof.
  assert (Hlen : len (file_of_lines
                        (two_chunk_head ++ two_chunk_middle ++ two_chunk_tail)
                        true) = 8198) by (vm_compute; reflexivity).
  assert (Hstart : len (terminated_lines (two_chunk_head ++ two_chunk_middle))
                   = 6) by reflexivity.
  destruct (sample_first_and_last_lines
              (single_file "wide.txt"
                 (terminated_lines
                    (two_chunk_head ++ two_chunk_middle ++ two_chunk_tail)))
              "wide.txt" 0 2 10
              two_chunk_head two_chunk_middle two_chunk_tail true)
    as (s & Hs & Hin & _ & Hexact).
  - reflexivity.
  - apply newline_free_check. vm_compute. reflexivity.
  - apply cr_free_check. reflexivity.
  - lia.
  - reflexivity.
  - reflexivity.
  - discriminate.
  - discriminate.
  - rewrite Hlen. lia.
  - intros j Hj Hlt. rewrite Hlen, Hstart in Hlt. rewrite Hlen.
    unfold chunk_size in *. assert (E : j = 1) by lia. subst j.
    left. right. vm_compute. reflexivity.
  - destruct Hexact as [Heq Honce].
    { repeat constructor; vm_compute; discriminate. }
    exists s. split; [exact Hs|]. split.
    { rewrite Heq. vm_compute. reflexivity. }
    split; [apply Hin; right; now left|].
    split; [apply Hin; right; right; now left|].
    apply Honce. split; vm_compute; reflexivity.
Defined.

(** C1 as first stated also fails on a first line that holds a carriage
    return.  Text mode reads "a\rb" as the two lines "a" and "b": with
    [k = 1] the sample starts with "a" alone, and the line is not in
    it. *)
Lemma sample_splits_head_line_at_carriage_return :
  count_lines_in_file (single_file "cr.txt" cr_head_file) "cr.txt"
  = (Ok 3, []) /\
  memory_efficient_file_sample (single_file "cr.txt" cr_head_file) "cr.txt" 1 1
  = (Ok (lit "a" ++ [LF] ++ truncation_marker ++ lit "d"), []) /\
  contains [97%N; CR; 98%N]
           (lit "a" ++ [LF] ++ truncation_marker ++ lit "d") = false.
Proof. vm_compute. repeat split. Qed.

(** The marker occurs twice when the last lines bring its text with
    them: here the last three lines are "[content truncated]", "..." and
    "x", and with the "..." that ends the marker they spell it again. *)
Lemma sample_marker_line_in_tail_occurs_twice :
  count_lines_in_file (single_file "m.txt" marker_tail_file) "m.txt"
  = (Ok 7, []) /\
  memory_efficient_file_sample (single_file "m.txt" marker_tail_file)
                               "m.txt" 3 1
  = (Ok (lit "1" ++ [LF] ++ lit "2" ++ [LF] ++ lit "3" ++ [LF] ++
         truncation_marker ++
         marker_line ++ [LF] ++ lit "..." ++ [LF] ++ lit "x"), []) /\
  occurrences truncation_marker
    (lit "1" ++ [LF] ++ lit "2" ++ [LF] ++ lit "3" ++ [LF] ++
     truncation_marker ++
     marker_line ++ [LF] ++ lit "..." ++ [LF] ++ lit "x") = 2%nat.
Proof. vm_compute. repeat split. Qed.

(** A blank line among the last lines lets an earlier line into the
    tail.  The last three lines are "...", a blank line and "x", none of
    them the middle line of the marker; the reader skips the blank line
    and takes the line before them, "[content truncated]", so that the
    marker occurs twice. *)
Lemma sample_blank_tail_line_takes_in_earlier_line :
  count_lines_in_file (single_file "b.txt" blank_tail_file) "b.txt"
  = (Ok 8, []) /\
  memory_efficient_file_sample (single_file "b.txt" blank_tail_file)
                               "b.txt" 3 1
  = (Ok (lit "1" ++ [LF] ++ lit "2" ++ [LF] ++ lit "3" ++ [LF] ++
         truncation_marker ++
         marker_line ++ [LF] ++ lit "..." ++ [LF] ++ lit "x"), []) /\
  occurrences truncation_marker
    (lit "1" ++ [LF] ++ lit "2" ++ [LF] ++ lit "3" ++ [LF] ++
     truncation_marker ++
     marker_line ++ [LF] ++ lit "..." ++ [LF] ++ lit "x") = 2%nat.
Proof. vm_compute. repeat split. Qed.

(** A chunk boundary that splits no line can still lose one.  The final
    chunk of this file starts with the newline that ends "D", the first
    of the last two lines: it brings the reader to two newlines, the
    loop stops, and "D", which lies in the chunk before, is not read. *)
Lemma sample_cut_before_newline_loses_line :
  count_lines_in_file (single_file "cut.txt" cut_before_newline_file) "cut.txt"
  = (Ok 5, []) /\
  nth_error cut_before_newline_file
            (Z.to_nat (len cut_before_newline_file - chunk_size))
  = Some x0a /\
  memory_efficient_file_sample (single_file "cut.txt" cut_before_newline_file)
                               "cut.txt" 2 10
  = (Ok (lit "A" ++ [LF] ++ lit "B" ++ [LF] ++ truncation_marker ++
         repeat 121%N 4094), []) /\
  contains (lit "D")
           (lit "A" ++ [LF] ++ lit "B" ++ [LF] ++ truncation_marker ++
            repeat 121%N 4094) = false.
Proof. vm_compute. repeat split. Qed.
